(** * APC gate controller: local repository wrappers, command audit
      classifier and backup/restore pipeline

    A shallow embedding of the TypeScript sources

    - [app/contexts/DataStoreContext] ([refreshStore], [deleteDevice],
      [logSMSOperation], and the operations [addDevice], [updateDevice],
      [setActiveDevice] and [updateGlobalSettings]),
    - [utils/DeviceManager] ([DeviceManager.deleteDevice]),
    - [utils/backupRestore.ts] ([createBackup], [restoreFromBackup],
      [saveBackupToFile], [shareBackup], [pickAndRestoreBackup],
      [generateSimpleUUID]),
    - the pages [AddDevicePage] and [EditDevicePage] (the form checks and
      the password field) and [app/step4.tsx] (the relay settings),

    together with the properties of the specification that concern them
    and further properties of the code.

    Conventions.  A JavaScript string is a sequence of UTF-16 code units;
    the embedding uses [string], whose characters are read as the code
    units U+0000..U+00FF.  What the platform does outside the model
    (escapes [\uXXXX] above U+00FF, numbers that are not integers of
    magnitude at most 2^53, an assignment to [__proto__] whose effect on
    the prototype is read afterwards) is reported as [Unmodelled] or
    [NotModelled] rather than guessed. *)

From Stdlib Require Import ZArith Ascii String List Lia Bool.
From Stdlib Require DecimalString DecimalFacts DecimalPos DecimalN.
From stdpp Require Import base option strings gmap.

Local Open Scope Z_scope.
Local Arguments String.append !_ _ / : simpl nomatch.

(** ** JavaScript string primitives *)
Module JS.

Fixpoint take (n : nat) (s : string) : string :=
  match n, s with
  | S n', String c s' => String c (take n' s')
  | _, _ => ""
  end.

Fixpoint drop (n : nat) (s : string) : string :=
  match n, s with
  | S n', String _ s' => drop n' s'
  | _, _ => s
  end.

Definition len (s : string) : Z := Z.of_nat (String.length s).

(** [s.substring(a, b)] for [0 <= a <= b]; the callers below never pass
    anything else. *)
Definition substring (a b : Z) (s : string) : string :=
  take (Z.to_nat (b - a)) (drop (Z.to_nat a) s).

(** [s.substring(a)] and [s.slice(a)] for [0 <= a]. *)
Definition substring_from (a : Z) (s : string) : string := drop (Z.to_nat a) s.
Definition slice_from (a : Z) (s : string) : string := drop (Z.to_nat a) s.

Fixpoint starts_with (p s : string) : bool :=
  match p, s with
  | "", _ => true
  | String a p', String b s' => Ascii.eqb a b && starts_with p' s'
  | String _ _, "" => false
  end.

(** Offset of the first occurrence of [p] in [s], counted from [i]. *)
Fixpoint find_from (p s : string) (i : Z) : option Z :=
  if starts_with p s then Some i
  else match s with
       | "" => None
       | String _ s' => find_from p s' (i + 1)
       end.

(** Offset of the last occurrence of [p] in [s], counted from [i]. *)
Fixpoint find_last_from (p s : string) (i : Z) : option Z :=
  match s with
  | "" => if starts_with p "" then Some i else None
  | String _ s' =>
      match find_last_from p s' (i + 1) with
      | Some j => Some j
      | None => if starts_with p s then Some i else None
      end
  end.

(** [s.indexOf(p)], [s.lastIndexOf(p)]: -1 when [p] does not occur. *)
Definition indexOf (p s : string) : Z := default (-1) (find_from p s 0).
Definition lastIndexOf (p s : string) : Z := default (-1) (find_last_from p s 0).

(** [p] occurs in [s]. *)
Definition contains (p s : string) : Prop := ∃ pre post, s = pre +:+ p +:+ post.

(** [s'] is what is left of [s] after some prefix. *)
Definition suffix_of (s' s : string) : Prop := ∃ p, s = p +:+ s'.

(** [s.includes(p)]. *)
Definition includes (p s : string) : bool := bool_decide (is_Some (find_from p s 0)).

(** White space and line terminators of ECMAScript below U+0100: TAB, LF,
    VT, FF, CR, SP and NBSP.  Used by [trim] and by the class [\s]. *)
Definition is_space (c : ascii) : bool :=
  match c with
  | "009" | "010" | "011" | "012" | "013" | " " | "160" => true
  | _ => false
  end%char.

Fixpoint trimStart (s : string) : string :=
  match s with
  | String c s' => if is_space c then trimStart s' else s
  | "" => ""
  end.

Fixpoint trimEnd (s : string) : string :=
  match s with
  | String c s' =>
      match trimEnd s' with
      | "" => if is_space c then "" else String c ""
      | t => String c t
      end
  | "" => ""
  end.

Definition trim (s : string) : string := trimEnd (trimStart s).

(** [s] is made of white space only. *)
Fixpoint all_space (s : string) : bool :=
  match s with
  | "" => true
  | String c s' => is_space c && all_space s'
  end.

(** A text between double quotes. *)
Definition quoted (s : string) : string :=
  String "034" (s +:+ String "034" "").

Definition is_digit (c : ascii) : bool :=
  match c with
  | "0" | "1" | "2" | "3" | "4" | "5" | "6" | "7" | "8" | "9" => true
  | _ => false
  end%char.

Definition is_upper (c : ascii) : bool :=
  let n := N_of_ascii c in (65 <=? n)%N && (n <=? 90)%N.

(** *** Regular expressions

    A backtracking matcher with the priorities of ECMAScript: leftmost
    start, alternatives in order, greedy repetition, and a repetition never
    iterates on an empty match. *)
Inductive regex :=
| Chr (p : ascii → bool)
| Eps
| Seq (r1 r2 : regex)
| Alt (r1 r2 : regex)
| Star (r : regex)
| Group (i : nat) (r : regex).

Definition captures := list (nat * string).

Fixpoint capture (i : nat) (cs : captures) : option string :=
  match cs with
  | [] => None
  | (j, s) :: cs' => if Nat.eqb i j then Some s else capture i cs'
  end.

Definition consumed (s rest : string) : string :=
  take (String.length s - String.length rest) s.

Fixpoint rmatch (r : regex) (s : string) (cs : captures)
    (k : string → captures → option (string * captures))
    : option (string * captures) :=
  match r with
  | Chr p =>
      match s with
      | String c s' => if p c then k s' cs else None
      | "" => None
      end
  | Eps => k s cs
  | Seq r1 r2 => rmatch r1 s cs (λ s' cs', rmatch r2 s' cs' k)
  | Alt r1 r2 =>
      match rmatch r1 s cs k with
      | Some x => Some x
      | None => rmatch r2 s cs k
      end
  | Star r' =>
      (fix iterate (n : nat) (s : string) (cs : captures) :=
         match n with
         | O => k s cs
         | S n' =>
             match rmatch r' s cs (λ s' cs',
                     if (String.length s' <? String.length s)%nat
                     then iterate n' s' cs' else None) with
             | Some x => Some x
             | None => k s cs
             end
         end) (String.length s) s cs
  | Group i r' => rmatch r' s cs (λ s' cs', k s' ((i, consumed s s') :: cs'))
  end.

Definition match_here (r : regex) (s : string) : option (string * captures) :=
  rmatch r s [] (λ s' cs, Some (s', cs)).

(** One successful match: where it starts, what it matched, what follows
    it, and the captured groups. *)
Record found := Found {
  f_index : nat;
  f_text : string;
  f_rest : string;
  f_groups : captures
}.

Fixpoint search_from (r : regex) (s : string) (i : nat) : option found :=
  match match_here r s with
  | Some (rest, cs) => Some (Found i (consumed s rest) rest cs)
  | None =>
      match s with
      | "" => None
      | String _ s' => search_from r s' (S i)
      end
  end.

(** [s.match(r)] and [r.exec(s)] for a regex without the [g] flag. *)
Definition search (r : regex) (s : string) : option found := search_from r s 0.

(** [r.test(s)], and the truthiness of [s.match(r)]. *)
Definition test (r : regex) (s : string) : bool := bool_decide (is_Some (search r s)).

Fixpoint lit (p : string) : regex :=
  match p with
  | "" => Eps
  | String c p' => Seq (Chr (Ascii.eqb c)) (lit p')
  end.

Fixpoint times (n : nat) (r : regex) : regex :=
  match n with
  | O => Eps
  | S n' => Seq r (times n' r)
  end.

Definition plus (r : regex) : regex := Seq r (Star r).
Definition digit : regex := Chr is_digit.
Definition space : regex := Chr is_space.
Definition any_but (c : ascii) : regex := Chr (λ x, negb (Ascii.eqb x c)).

(** Replacement templates: [$$], [$&], [$`] and [$'] are substituted, any
    other character stands for itself.  (No template of the sources refers
    to a numbered group.) *)
Fixpoint expand (tpl before text after : string) : string :=
  match tpl with
  | String "$" (String "$" t) => String "$" (expand t before text after)
  | String "$" (String "&" t) => text +:+ expand t before text after
  | String "$" (String "`" t) => before +:+ expand t before text after
  | String "$" (String "'" t) => after +:+ expand t before text after
  | String c t => String c (expand t before text after)
  | "" => ""
  end.

(** [s.replace(r, tpl)] for a regex without the [g] flag. *)
Definition replace (r : regex) (tpl s : string) : string :=
  match search r s with
  | None => s
  | Some m =>
      let before := take (f_index m) s in
      before +:+ expand tpl before (f_text m) (f_rest m) +:+ f_rest m
  end.

(** All the matches of a regex with the [g] flag, from left to right: the
    search resumes where the previous match ended, one character further
    after an empty match.  [n] bounds the number of matches; every match
    but the last uses up a character, so a bound above the length of [s]
    is never reached. *)
Fixpoint matches_from (n : nat) (r : regex) (s : string) : list found :=
  match n with
  | O => []
  | S n' =>
      match search r s with
      | None => []
      | Some m =>
          m :: match f_text m, f_rest m with
               | "", "" => []
               | "", String _ rest => matches_from n' r rest
               | _, rest => matches_from n' r rest
               end
      end
  end.

Definition match_all (r : regex) (s : string) : list found :=
  matches_from (S (String.length s)) r s.

(** [s.replace(r, tpl)] for a regex with the [g] flag and a template
    without [$`] and [$']. *)
Fixpoint replace_all_from (n : nat) (r : regex) (tpl s : string) : string :=
  match n with
  | O => s
  | S n' =>
      match search r s with
      | None => s
      | Some m =>
          let before := take (f_index m) s in
          before +:+ expand tpl before (f_text m) (f_rest m) +:+
            match f_text m, f_rest m with
            | "", "" => ""
            | "", String c rest => String c (replace_all_from n' r tpl rest)
            | _, rest => replace_all_from n' r tpl rest
            end
      end
  end.

Definition replace_all (r : regex) (tpl s : string) : string :=
  replace_all_from (S (String.length s)) r tpl s.

End JS.

(** ** Command classifier and audit logger ([logSMSOperation]) *)
Module Classifier.
Import JS.

Inductive category := relay | settings | user | system.

(** The arguments [logSMSOperation] hands to [dataStore.addDeviceLog]. *)
Record LogCall := {
  deviceId : string;
  action : string;
  details : string;
  success : bool;
  cat : category
}.

(** [/\d{4}[A-Z]/] *)
Definition re_password : regex := Seq (times 4 digit) (Chr is_upper).
(** [/GOT(\d{3})/] *)
Definition re_got : regex := Seq (lit "GOT") (Group 1 (times 3 digit)).
(** [/P\d{4}\d{4}#/] *)
Definition re_pwd_change : regex :=
  Seq (lit "P") (Seq (times 4 digit) (Seq (times 4 digit) (lit "#"))).
(** [/A\d{3}#[^#]+#/] *)
Definition re_add_user : regex :=
  Seq (lit "A") (Seq (times 3 digit) (Seq (lit "#") (Seq (plus (any_but "#")) (lit "#")))).
(** [/A\d{3}##/] *)
Definition re_remove_user : regex := Seq (lit "A") (Seq (times 3 digit) (lit "##")).

(** [command.replace(/\d{4}[A-Z]/, '****$&'.slice(4))] *)
Definition maskedCommand (command : string) : string :=
  replace re_password (slice_from 4 "****$&") command.

(** [command.match(/GOT(\d{3})/)?.[1] || 'unknown'] *)
Definition got_time (command : string) : string :=
  match search re_got command ≫= (λ m, capture 1 (f_groups m)) with
  | Some (String c t) => String c t
  | _ => "unknown"
  end.

(** The rule for the relay timing as it is documented, to compare
    [got_time] with: the time is the three digits that follow [GOT].
    [timing_here s] gives them when [s] begins with [GOT] and three
    digits; [documented_timing command] reads the command from left to
    right and gives them for the first place where [GOT] is followed by
    three digits, if there is one. *)
Definition timing_here (s : string) : option string :=
  if starts_with "GOT" s then
    match drop 3 s with
    | String a (String b (String c _)) =>
        if is_digit a && is_digit b && is_digit c
        then Some (String a (String b (String c "")))
        else None
    | _ => None
    end
  else None.

Fixpoint documented_timing (command : string) : option string :=
  match timing_here command with
  | Some time => Some time
  | None =>
      match command with
      | "" => None
      | String _ rest => documented_timing rest
      end
  end.

Definition logSMSOperation (dev command : string) (ok : bool) : LogCall :=
  let masked := maskedCommand command in
  if includes "CC" command then
    Build_LogCall dev "Gate Open Command"
      ("Sent command to activate relay (open gate): " +:+ masked) ok relay
  else if includes "DD" command then
    Build_LogCall dev "Gate Close Command"
      ("Sent command to deactivate relay (close gate): " +:+ masked) ok relay
  else if includes "GOT" command then
    let time := got_time command in
    Build_LogCall dev "Relay Timing Setting"
      ("Set relay timing to "
         +:+ (if String.eqb time "000" then "toggle mode" else time +:+ " seconds")
         +:+ ": " +:+ masked) ok settings
  else if includes "ALL" command then
    Build_LogCall dev "Access Control Setting"
      ("Set access mode to " +:+ quoted "Allow All"
         +:+ " (any caller with password): " +:+ masked)
      ok settings
  else if includes "AUT" command then
    Build_LogCall dev "Access Control Setting"
      ("Set access mode to " +:+ quoted "Authorized Only" +:+ ": " +:+ masked)
      ok settings
  else if includes "TEL" command then
    Build_LogCall dev "Admin Registration"
      ("Registered administrator phone number: " +:+ masked) ok settings
  else if includes "EE" command then
    Build_LogCall dev "Status Check" ("Requested device status: " +:+ masked) ok system
  else if test re_pwd_change command then
    Build_LogCall dev "Password Change" ("Changed device password: " +:+ masked) ok settings
  else if test re_add_user command then
    Build_LogCall dev "User Management" ("Added authorized user: " +:+ masked) ok user
  else if test re_remove_user command then
    Build_LogCall dev "User Management" ("Removed authorized user: " +:+ masked) ok user
  else
    Build_LogCall dev "Unknown Command" command ok relay.

End Classifier.


(** ** What a call does: it returns a value or throws *)
Inductive outcome (A : Type) :=
| Returned (a : A)
| Threw (message : string).
Arguments Returned {A} a.
Arguments Threw {A} message.

(** ** The provider of [DataStoreContext]: [refreshStore] and [deleteDevice]

    The repository behind the provider ([utils/DataStore]) is not among the
    sources; the provider is embedded over an arbitrary repository, given
    by the calls the provider makes on it. *)
Module Provider.
Import Classifier.

Section Provider.
(** The state of the repository and the snapshot [getStore] returns. *)
Context {Repo Data : Type}.
(** [dataStore.getStore()] *)
Variable getStore : Repo → outcome Data.
(** [JSON.stringify] of a snapshot [{devices, users, globalSettings}] *)
Variable stringify : Data → string.
(** [dataStore.deleteDevice(deviceId)] *)
Variable ds_deleteDevice : string → Repo → outcome bool * Repo.
(** [dataStore.addDeviceLog(deviceId, action, details, success, category)] *)
Variable ds_addDeviceLog : LogCall → Repo → outcome unit * Repo.
(** [dataStore.getDeviceById(deviceId)]: is there such a device *)
Variable ds_hasDevice : string → Repo → bool.

(** The repository, the ref [isRefreshing], the React state [store], and
    a count of the calls of [getStore] made so far. *)
Record World := {
  repo : Repo;
  isRefreshing : bool;
  store : Data;
  reads : nat
}.

Definition set_refreshing (b : bool) (w : World) : World :=
  {| repo := repo w; isRefreshing := b; store := store w; reads := reads w |}.

Definition set_repo (r : Repo) (w : World) : World :=
  {| repo := r; isRefreshing := isRefreshing w; store := store w; reads := reads w |}.

(** The [try] block of [refreshStore]: one read of the repository, and
    [setStore] with an updater that keeps the previous state when the
    two snapshots serialise alike.  An exception is caught and logged. *)
Definition refresh_body (w : World) : World :=
  match getStore (repo w) with
  | Returned storeData =>
      {| repo := repo w; isRefreshing := isRefreshing w;
         store := if String.eqb (stringify (store w)) (stringify storeData)
                  then store w else storeData;
         reads := S (reads w) |}
  | Threw _ =>
      {| repo := repo w; isRefreshing := isRefreshing w; store := store w;
         reads := S (reads w) |}
  end.

(** [if (isRefreshing.current) return; isRefreshing.current = true;
     try { ... } catch { ... } finally { isRefreshing.current = false; }] *)
Definition refreshStore (w : World) : World :=
  if isRefreshing w then w
  else set_refreshing false (refresh_body (set_refreshing true w)).

(** A call of [refreshStore] in the course of which other code runs:
    [before] after the flag is set and before the repository is read,
    [after] between the read and the clearing of the flag.  The body has
    no [await], so that no other call can start while it is under way
    except from inside it (from a repository call that calls back, say);
    with nothing running inside, this is [refreshStore]. *)
Definition refreshStore_around (before after : World → World) (w : World) : World :=
  if isRefreshing w then w
  else set_refreshing false (after (refresh_body (before (set_refreshing true w)))).

(** [deleteDevice] of the context value. *)
Definition deleteDevice (deviceId : string) (w : World) : bool * World :=
  match ds_deleteDevice deviceId (repo w) with
  | (Returned true, r1) =>
      let w1 := refreshStore (set_repo r1 w) in
      match ds_addDeviceLog
              (Build_LogCall deviceId "Device Management" "Device deleted" true system)
              (repo w1) with
      | (Returned _, r2) => (true, set_repo r2 w1)
      | (Threw _, r2) => (false, set_repo r2 w1)
      end
  | (Returned false, r1) => (false, set_repo r1 w)
  | (Threw _, r1) => (false, set_repo r1 w)
  end.

(** [DeviceManager.deleteDevice] *)
Definition DeviceManager_deleteDevice (deviceId : string) (r : Repo) : bool * Repo :=
  if String.eqb deviceId "" then (false, r)
  else
    let device := ds_hasDevice deviceId r in
    match ds_deleteDevice deviceId r with
    | (Returned success, r1) => (success && device, r1)
    | (Threw _, r1) => (false, r1)
    end.
End Provider.

Arguments World : clear implicits.
End Provider.

(** ** The entity repository

    [utils/DataStore] is not among the sources.  This module gives the
    provider a repository to run on, reduced to what a cascading delete
    touches: the devices, the log entries and the active device. *)
Module Repository.
Import Classifier.

(** Modelled from the spec: a Device, by its id and name. *)
Record Device := { id : string; name : string }.

(** Modelled from the spec: the devices, the log entries (each with the
    fields handed to [addDeviceLog]) and [GlobalSettings.activeDeviceId]. *)
Record State := {
  devices : list Device;
  logs : list LogCall;
  activeDeviceId : option string
}.

(** Which storage writes of a cascade fail. *)
Record Faults := {
  remove_device_fails : bool;
  remove_logs_fails : bool;
  clear_active_fails : bool
}.

Definition no_faults : Faults := Build_Faults false false false.

Definition hasDevice (deviceId : string) (st : State) : bool :=
  existsb (λ d, String.eqb (id d) deviceId) (devices st).

Definition getStore (st : State) : outcome State := Returned st.

(** Modelled from the spec: [deleteDevice] of the repository
    ([utils/DataStore] is not among the sources).  "Removes the Device
    record, removes all LogEntry records for that device, and - if
    GlobalSettings.activeDeviceId equals id - clears it to null.  Each
    sub-step is attempted independently; failure of a later sub-step does
    not roll back earlier ones.  Returns true only if the primary Device
    removal succeeded." *)
Definition deleteDevice (f : Faults) (deviceId : string) (st : State)
    : outcome bool * State :=
  if negb (hasDevice deviceId st) || remove_device_fails f then (Returned false, st)
  else
    let devices' := filter (λ d, negb (String.eqb (id d) deviceId)) (devices st) in
    let logs' :=
      if remove_logs_fails f then logs st
      else filter (λ l, negb (String.eqb (Classifier.deviceId l) deviceId)) (logs st) in
    let active' :=
      if clear_active_fails f then activeDeviceId st
      else match activeDeviceId st with
           | Some a => if String.eqb a deviceId then None else Some a
           | None => None
           end in
    (Returned true, Build_State devices' logs' active').

(** Modelled from the spec: [addLogEntry] of the repository.  "Fails with
    NotFoundError if deviceId is unknown; otherwise appends an immutable
    LogEntry." *)
Definition addDeviceLog (call : LogCall) (st : State) : outcome unit * State :=
  if hasDevice (Classifier.deviceId call) st
  then (Returned (), Build_State (devices st) (logs st ++ [call]) (activeDeviceId st))
  else (Threw "Device not found", st).

(** A serialisation of the snapshot, standing for [JSON.stringify] in the
    concrete runs below. *)
Definition stringify (st : State) : string :=
  String.concat "," (map (λ d, id d +:+ ":" +:+ name d) (devices st))
    +:+ "|" +:+ default "null" (activeDeviceId st).

(** A repository with two gates, the first one active and with one log
    entry, and a provider that has loaded it. *)
Definition two_gates : State :=
  {| devices := [Build_Device "gate-1" "Home Gate"; Build_Device "gate-2" "Office Door"];
     logs := [Build_LogCall "gate-1" "Gate Open Command" "opened" true relay];
     activeDeviceId := Some "gate-1" |}.

Definition loaded (st : State) : Provider.World State State :=
  {| Provider.repo := st; Provider.isRefreshing := false;
     Provider.store := st; Provider.reads := 0 |}.

(** The provider of [DataStoreContext] over this repository. *)
Definition refreshStore := Provider.refreshStore getStore stringify.
Definition context_deleteDevice (f : Faults) :=
  Provider.deleteDevice getStore stringify (deleteDevice f) addDeviceLog.

End Repository.

(** ** JSON values, [JSON.parse] and [JSON.stringify] *)
Module Json.
Import JS.

(** A number is modelled when it is an integer of magnitude at most 2^53:
    these are exactly representable and are printed in plain decimal. *)
Unset Elimination Schemes.
Inductive json :=
| JNull
| JBool (b : bool)
| JNum (z : Z)
| JStr (s : string)
| JArr (items : list json)
| JObj (props : list (string * json)).
Set Elimination Schemes.

(** Induction on a value, with the hypothesis for every item of an array
    and every property of an object. *)
Fixpoint json_ind (P : json → Prop)
    (Hnull : P JNull) (Hbool : ∀ b, P (JBool b)) (Hnum : ∀ z, P (JNum z))
    (Hstr : ∀ s, P (JStr s))
    (Harr : ∀ items, Forall P items → P (JArr items))
    (Hobj : ∀ props, Forall (λ kv, P kv.2) props → P (JObj props))
    (v : json) : P v :=
  match v with
  | JNull => Hnull
  | JBool b => Hbool b
  | JNum z => Hnum z
  | JStr s => Hstr s
  | JArr items =>
      Harr items
        ((fix all (l : list json) : Forall P l :=
            match l with
            | [] => @List.Forall_nil _ P
            | x :: l' =>
                @List.Forall_cons _ P x l'
                  (json_ind P Hnull Hbool Hnum Hstr Harr Hobj x) (all l')
            end) items)
  | JObj props =>
      Hobj props
        ((fix all (l : list (string * json)) : Forall (λ kv, P kv.2) l :=
            match l with
            | [] => @List.Forall_nil _ (λ kv, P kv.2)
            | kv :: l' =>
                @List.Forall_cons _ (λ kv, P kv.2) kv l'
                  (json_ind P Hnull Hbool Hnum Hstr Harr Hobj kv.2) (all l')
            end) props)
  end.

(** [JSON.parse] returns a value, throws a [SyntaxError], or is given a
    text the model does not cover. *)
Inductive parsed (A : Type) :=
| Ok (a : A)
| SyntaxError
| Unmodelled.
Arguments Ok {A} a.
Arguments SyntaxError {A}.
Arguments Unmodelled {A}.

Definition bind {A B} (x : parsed A) (f : A → parsed B) : parsed B :=
  match x with
  | Ok a => f a
  | SyntaxError => SyntaxError
  | Unmodelled => Unmodelled
  end.

Definition dquote : ascii := "034".
Definition backslash : ascii := "\".

(** *** Parsing *)

Definition is_json_space (c : ascii) : bool :=
  match c with
  | " " | "009" | "010" | "013" => true
  | _ => false
  end%char.

Fixpoint skip_ws (s : string) : string :=
  match s with
  | String c s' => if is_json_space c then skip_ws s' else s
  | "" => ""
  end.

(** The longest run of digits at the start of [s], and what follows it. *)
Fixpoint span_digits (s : string) : string * string :=
  match s with
  | String c s' =>
      if is_digit c then let (ds, rest) := span_digits s' in (String c ds, rest)
      else ("", s)
  | "" => ("", "")
  end.

Definition max_safe : Z := 2 ^ 53.

Definition starts_fraction (s : string) : bool :=
  match s with
  | String c _ => Ascii.eqb c "." || Ascii.eqb c "e" || Ascii.eqb c "E"
  | "" => false
  end.

(** The digits of a number: a single "0", or a run that starts with a
    non-zero digit. *)
Definition parse_digits (s : string) : parsed (Z * string) :=
  match s with
  | String c r =>
      if negb (is_digit c) then SyntaxError
      else
        let (ds, rest) := if Ascii.eqb c "0" then ("0", r) else span_digits s in
        if starts_fraction rest then Unmodelled
        else match DecimalString.NilEmpty.uint_of_string ds with
             | Some u =>
                 let n := Z.of_N (N.of_uint u) in
                 if n <=? max_safe then Ok (n, rest) else Unmodelled
             | None => SyntaxError
             end
  | "" => SyntaxError
  end.

Definition parse_number (s : string) : parsed (json * string) :=
  match s with
  | String c r =>
      if Ascii.eqb c "-" then bind (parse_digits r) (λ '(n, rest), Ok (JNum (- n), rest))
      else bind (parse_digits s) (λ '(n, rest), Ok (JNum n, rest))
  | "" => SyntaxError
  end.

Definition hex_value (c : ascii) : option N :=
  let n := N_of_ascii c in
  if is_digit c then Some (n - 48)%N
  else if (97 <=? n)%N && (n <=? 102)%N then Some (n - 87)%N
  else if (65 <=? n)%N && (n <=? 70)%N then Some (n - 55)%N
  else None.

(** The code unit written [\uXXXX], when it is below U+0100. *)
Definition unicode_escape (h1 h2 h3 h4 : ascii) : parsed ascii :=
  match hex_value h1, hex_value h2, hex_value h3, hex_value h4 with
  | Some a, Some b, Some c, Some d =>
      if (a =? 0)%N && (b =? 0)%N then Ok (ascii_of_N (16 * c + d)) else Unmodelled
  | _, _, _, _ => SyntaxError
  end.

Definition simple_escape (c : ascii) : option ascii :=
  match c with
  | "034" => Some "034"
  | "\" => Some "\"
  | "/" => Some "/"
  | "b" => Some "008"
  | "f" => Some "012"
  | "n" => Some "010"
  | "r" => Some "013"
  | "t" => Some "009"
  | _ => None
  end%char.

(** The characters of a string literal, after its opening quote. *)
Fixpoint parse_chars (s : string) : parsed (string * string) :=
  match s with
  | "" => SyntaxError
  | String c r =>
      if Ascii.eqb c dquote then Ok ("", r)
      else if Ascii.eqb c backslash then
        match r with
        | String "u" (String h1 (String h2 (String h3 (String h4 r')))) =>
            bind (unicode_escape h1 h2 h3 h4) (λ x,
            bind (parse_chars r') (λ '(t, rest), Ok (String x t, rest)))
        | String e r' =>
            match simple_escape e with
            | Some x => bind (parse_chars r') (λ '(t, rest), Ok (String x t, rest))
            | None => SyntaxError
            end
        | "" => SyntaxError
        end
      else if (N_of_ascii c <? 32)%N then SyntaxError
      else bind (parse_chars r) (λ '(t, rest), Ok (String c t, rest))
  end.

Definition parse_literal (word : string) (v : json) (s : string)
    : parsed (json * string) :=
  if starts_with word s then Ok (v, drop (String.length word) s) else SyntaxError.

(** The decimal text of a natural number. *)
Definition print_N (n : N) : string :=
  DecimalString.NilZero.string_of_uint (N.to_uint n).

(** A key made of digits only. *)
Definition index_like (k : string) : bool :=
  negb (String.eqb k "") && String.eqb (span_digits k).2 "".

(** The array indices: the keys that are the decimal text of an integer
    from 0 to 2^32 - 2.  An object lists the properties whose key is an
    array index first, in ascending order of the index, whatever the order
    they were defined in; the other properties follow, in the order they
    were defined in. *)
Definition array_index (k : string) : option N :=
  match DecimalString.NilEmpty.uint_of_string k with
  | Some u =>
      let n := N.of_uint u in
      if String.eqb (print_N n) k && (n <? 2 ^ 32 - 1)%N then Some n else None
  | None => None
  end.

(** A new property with the key [k] goes before an existing one with the
    key [k']. *)
Definition comes_before (k k' : string) : bool :=
  match array_index k, array_index k' with
  | Some n, Some n' => (n <? n')%N
  | Some _, None => true
  | None, _ => false
  end.

(** Defining a property: an existing key keeps its place and takes the
    new value; a new key that is an array index goes before the first key
    that is a greater index or no index; any other new key goes last. *)
Fixpoint obj_set (k : string) (v : json) (props : list (string * json))
    : list (string * json) :=
  match props with
  | [] => [(k, v)]
  | (k', v') :: ps =>
      if String.eqb k' k then (k, v) :: ps
      else if comes_before k k' then (k, v) :: (k', v') :: ps
      else (k', v') :: obj_set k v ps
  end.

Definition obj_of_members (members : list (string * json)) : list (string * json) :=
  fold_left (λ props kv, obj_set kv.1 kv.2 props) members [].

Fixpoint obj_get (k : string) (props : list (string * json)) : option json :=
  match props with
  | [] => None
  | (k', v) :: ps => if String.eqb k' k then Some v else obj_get k ps
  end.

(** Recursive descent; [n] bounds the number of nested calls, and running
    out of it is reported as [Unmodelled], never as a result. *)
Fixpoint parse_value (n : nat) (s : string) {struct n} : parsed (json * string) :=
  match n with
  | O => Unmodelled
  | S n' =>
      match skip_ws s with
      | "" => SyntaxError
      | String c r =>
          if Ascii.eqb c "{" then
            match skip_ws r with
            | "" => SyntaxError
            | String c' r' =>
                if Ascii.eqb c' "}" then Ok (JObj [], r')
                else bind (parse_members n' r) (λ '(ms, rest),
                       Ok (JObj (obj_of_members ms), rest))
            end
          else if Ascii.eqb c "[" then
            match skip_ws r with
            | "" => SyntaxError
            | String c' r' =>
                if Ascii.eqb c' "]" then Ok (JArr [], r')
                else bind (parse_elements n' r) (λ '(vs, rest), Ok (JArr vs, rest))
            end
          else if Ascii.eqb c dquote then
            bind (parse_chars r) (λ '(t, rest), Ok (JStr t, rest))
          else if Ascii.eqb c "t" then parse_literal "true" (JBool true) (String c r)
          else if Ascii.eqb c "f" then parse_literal "false" (JBool false) (String c r)
          else if Ascii.eqb c "n" then parse_literal "null" JNull (String c r)
          else parse_number (String c r)
      end
  end
with parse_elements (n : nat) (s : string) {struct n} : parsed (list json * string) :=
  match n with
  | O => Unmodelled
  | S n' =>
      bind (parse_value n' s) (λ '(v, r),
        match skip_ws r with
        | "" => SyntaxError
        | String c r' =>
            if Ascii.eqb c "," then
              bind (parse_elements n' r') (λ '(vs, rest), Ok (v :: vs, rest))
            else if Ascii.eqb c "]" then Ok ([v], r')
            else SyntaxError
        end)
  end
with parse_members (n : nat) (s : string) {struct n}
    : parsed (list (string * json) * string) :=
  match n with
  | O => Unmodelled
  | S n' =>
      match skip_ws s with
      | "" => SyntaxError
      | String q r =>
          if negb (Ascii.eqb q dquote) then SyntaxError
          else
            bind (parse_chars r) (λ '(k, r1),
              match skip_ws r1 with
              | "" => SyntaxError
              | String c r2 =>
                  if negb (Ascii.eqb c ":") then SyntaxError
                  else
                    bind (parse_value n' r2) (λ '(v, r3),
                      match skip_ws r3 with
                      | "" => SyntaxError
                      | String c' r4 =>
                          if Ascii.eqb c' "," then
                            bind (parse_members n' r4) (λ '(ms, rest),
                              Ok ((k, v) :: ms, rest))
                          else if Ascii.eqb c' "}" then Ok ([(k, v)], r4)
                          else SyntaxError
                      end)
              end)
      end
  end.

(** [JSON.parse(text)] *)
Definition JSON_parse (text : string) : parsed json :=
  bind (parse_value (2 * String.length text + 2) text) (λ '(v, rest),
    match skip_ws rest with
    | "" => Ok v
    | _ => SyntaxError
    end).

(** *** Printing *)

Definition hex_digit (n : N) : ascii :=
  if (n <? 10)%N then ascii_of_N (48 + n) else ascii_of_N (87 + n).

Definition escape_char (c : ascii) : string :=
  match c with
  | "034" => String backslash (String dquote "")
  | "\" => String backslash (String backslash "")
  | "008" => String backslash "b"
  | "012" => String backslash "f"
  | "010" => String backslash "n"
  | "013" => String backslash "r"
  | "009" => String backslash "t"
  | _ =>
      let n := N_of_ascii c in
      if (n <? 32)%N
      then String backslash
             (String "u" (String "0" (String "0"
                (String (hex_digit (n / 16)) (String (hex_digit (n mod 16)) "")))))
      else String c ""
  end%char.

Fixpoint escape (s : string) : string :=
  match s with
  | "" => ""
  | String c s' => escape_char c +:+ escape s'
  end.

(** [JSON.stringify] of a string. *)
Definition quote (s : string) : string :=
  String dquote (escape s +:+ String dquote "").

Definition print_Z (z : Z) : string :=
  if z <? 0 then String "-" (print_N (Z.to_N (- z))) else print_N (Z.to_N z).

(** [JSON.stringify(v)] *)
Fixpoint stringify (v : json) : string :=
  match v with
  | JNull => "null"
  | JBool true => "true"
  | JBool false => "false"
  | JNum z => print_Z z
  | JStr s => quote s
  | JArr items => "[" +:+ String.concat "," (map stringify items) +:+ "]"
  | JObj props =>
      "{" +:+
      String.concat ","
        (map (λ kv, match kv with (k, x) => quote k +:+ ":" +:+ stringify x end) props)
      +:+ "}"
  end.

(** The keys of an object in the order an object keeps them: no key comes
    before a key that is listed earlier. *)
Fixpoint js_ordered (keys : list string) : bool :=
  match keys with
  | [] => true
  | k :: rest => forallb (λ k', negb (comes_before k' k)) rest && js_ordered rest
  end.

(** The values of the model: integers within the safe range, objects
    without repeated keys whose properties are in the order an object
    keeps them. *)
Fixpoint well_formed (v : json) : bool :=
  match v with
  | JNull | JBool _ | JStr _ => true
  | JNum z => (- max_safe <=? z) && (z <=? max_safe)
  | JArr items => forallb well_formed items
  | JObj props =>
      bool_decide (NoDup (map fst props)) && js_ordered (map fst props)
      && forallb (λ kv, match kv with (_, x) => well_formed x end) props
  end.

(** The nesting [parse_value] needs to read back the text of a value. *)
Fixpoint weight (v : json) : nat :=
  match v with
  | JArr items => S (list_sum (map (λ x, S (weight x)) items))
  | JObj props =>
      S (list_sum (map (λ kv, match kv with (_, x) => S (weight x) end) props))
  | _ => 1
  end.

(** What may follow a value inside a text: nothing, or a comma or a
    closing bracket or brace. *)
Definition terminated (rest : string) : Prop :=
  match rest with
  | "" => True
  | String c _ => c = ","%char ∨ c = "]"%char ∨ c = "}"%char
  end.

(** [parse_value] reads a well-formed value back from its text, whatever
    follows it. *)
Definition reads_back (v : json) : Prop :=
  well_formed v = true →
  ∀ n rest, (weight v ≤ n)%nat → terminated rest →
    parse_value n (stringify v +:+ rest) = Ok (v, rest).

(** *** What the restore code asks of a value *)

(** [!!v] *)
Definition truthy (v : json) : bool :=
  match v with
  | JNull => false
  | JBool b => b
  | JNum z => negb (z =? 0)
  | JStr s => negb (String.eqb s "")
  | JArr _ | JObj _ => true
  end.

(** [v === null] *)
Definition is_null (v : json) : bool :=
  match v with
  | JNull => true
  | _ => false
  end.

(** [typeof v === 'object'] *)
Definition typeof_object (v : json) : bool :=
  match v with
  | JNull | JArr _ | JObj _ => true
  | _ => false
  end.

(** [Array.isArray(v)] *)
Definition isArray (v : json) : bool :=
  match v with
  | JArr _ => true
  | _ => false
  end.

(** [v.data], for a [v] that is neither [null] nor [undefined];
    [None] stands for [undefined]. *)
Definition get_data (v : json) : option json :=
  match v with
  | JObj props => obj_get "data" props
  | _ => None
  end.

End Json.

(** ** Backup and restore ([utils/backupRestore.ts]) *)
Module Backup.
Import JS Json.

(** The key-space of [AsyncStorage]. *)
Abbreviation storage := (gmap string string).

(** Which calls of the storage backend throw: the clearing of the existing
    keys ([getAllKeys] or [multiRemove]), and [setItem] for a given key. *)
Record Faults := {
  clear_fails : bool;
  set_fails : string → bool
}.

Definition no_faults : Faults := {| clear_fails := false; set_fails := λ _, false |}.

(** A run of the model ends with what the code does, or meets something
    the model does not cover (see [Json.parsed]). *)
Inductive run (A : Type) :=
| Finished (a : A)
| NotModelled.
Arguments Finished {A} a.
Arguments NotModelled {A}.

(** The errors [restoreFromBackup] throws, by their messages. *)
Definition EmptyBackupError : string := "Backup file appears to be empty".
Definition MalformedBackupError : string :=
  "Could not parse backup file - invalid JSON format".
Definition UnsupportedFormatError : string := "Unsupported backup format".
Definition NoDataError : string := "Backup contains no data to restore".
Definition RestoreFailedError : string := "Failed to restore any items".
(** [Object.entries(null)] *)
Definition TypeError : string := "Cannot convert undefined or null to object".

(** *** [createBackup] *)

(** [obj[key] = x] on an object whose prototype is never consulted
    afterwards.  (Assigning to the key [__proto__] names the prototype and
    defines no property; where the prototype may be read later, the model
    leaves that case out.) *)
Definition assign (key : string) (x : json) (props : run (list (string * json)))
    : run (list (string * json)) :=
  match props with
  | Finished ps => if String.eqb key "__proto__" then NotModelled
                   else Finished (obj_set key x ps)
  | NotModelled => NotModelled
  end.

(** [backupData[key] = x] in [createBackup].  Assigning to the key
    [__proto__] defines no property, and [JSON.stringify] writes the
    properties of the object itself only: the pair is left out of the
    backup. *)
Definition backup_assign (key : string) (x : json) (props : run (list (string * json)))
    : run (list (string * json)) :=
  match props with
  | Finished ps => Finished (if String.eqb key "__proto__" then ps else obj_set key x ps)
  | NotModelled => NotModelled
  end.

(** The body of [keyValuePairs.forEach]. *)
Definition backup_pair (backupData : run (list (string * json)))
    (pair : string * string) : run (list (string * json)) :=
  let (key, value) := pair in
  if String.eqb value "" then backupData
  else match JSON_parse value with
       | Ok x => backup_assign key x backupData
       | SyntaxError => backup_assign key (JStr value) backupData
       | Unmodelled => NotModelled
       end.

(** What [createBackup] makes of the pairs [multiGet] returns, in the
    order it returns them. *)
Definition backup_of (keyValuePairs : list (string * string)) : run string :=
  match fold_left backup_pair keyValuePairs (Finished []) with
  | Finished backupData => Finished (stringify (JObj backupData))
  | NotModelled => NotModelled
  end.

(** [createBackup], with the keys in the order the key-space lists them;
    the storage backend does not say in which order [getAllKeys] returns
    them. *)
Definition createBackup (st : storage) : run string := backup_of (map_to_list st).

(** *** [restoreFromBackup] *)

Definition open_quote : string := String "{" (String dquote "").
Definition open_newline_quote : string := String "{" (String "010" (String dquote "")).
Definition open_space_quote : string := String "{" (String " " (String dquote "")).

(** "Find the valid JSON start". *)
Definition locate_start (processedContent : string) : string :=
  let jsonStartOptions :=
    filter (λ pos, 0 ≤ pos)
      [ indexOf open_quote processedContent;
        indexOf open_newline_quote processedContent;
        indexOf open_space_quote processedContent;
        lastIndexOf open_quote processedContent ] in
  let jsonStart :=
    match jsonStartOptions with
    | [] => -1
    | pos :: rest => fold_left Z.min rest pos
    end in
  if 0 <? jsonStart then substring_from jsonStart processedContent
  else processedContent.

(** The loop over the characters: [i] is the index of the first character
    of [s]; the result is [lastValidPos]. *)
Fixpoint scan_braces (s : string) (i braceCount lastValidPos : Z) : Z :=
  match s with
  | "" => lastValidPos
  | String char s' =>
      let braceCount := if Ascii.eqb char "{" then braceCount + 1 else braceCount in
      if Ascii.eqb char "}" then
        let braceCount := braceCount - 1 in
        scan_braces s' (i + 1) braceCount
          (if braceCount =? 0 then i + 1 else lastValidPos)
      else scan_braces s' (i + 1) braceCount lastValidPos
  end.

(** Opening minus closing braces of a text. *)
Definition brace_delta (c : ascii) : Z :=
  if Ascii.eqb c "{" then 1 else if Ascii.eqb c "}" then -1 else 0.

Fixpoint depth (s : string) : Z :=
  match s with
  | "" => 0
  | String c s' => brace_delta c + depth s'
  end.

(** No brace in a text. *)
Fixpoint brace_free (s : string) : bool :=
  match s with
  | "" => true
  | String c s' => negb (Ascii.eqb c "{") && negb (Ascii.eqb c "}") && brace_free s'
  end.

(** The [p]-th character of [s] is a closing brace that brings the depth,
    [c] before [s], to zero. *)
Definition closes_at_zero (c : Z) (s : string) (p : nat) : Prop :=
  ∃ pre post, s = pre +:+ String "}" post ∧ p = S (String.length pre) ∧
              c + depth (pre +:+ "}") = 0.

(** "Find a balanced closing brace". *)
Definition locate_end (processedContent : string) : string :=
  let lastValidPos := scan_braces processedContent 0 0 0 in
  if (0 <? lastValidPos) && (lastValidPos <? len processedContent)
  then substring 0 lastValidPos processedContent
  else processedContent.

(** The text handed to the parsing step. *)
Definition clean (backupJson : string) : string :=
  locate_end (locate_start (trim backupJson)).

(** [/,\s*}/g] and [/,\s*]/g] *)
Definition re_comma_brace : regex := Seq (lit ",") (Seq (Star space) (lit "}")).
Definition re_comma_bracket : regex := Seq (lit ",") (Seq (Star space) (lit "]")).

(** [.] matches anything but a line terminator. *)
Definition dot : regex :=
  Chr (λ c, negb (Ascii.eqb c "010") && negb (Ascii.eqb c "013")).

(** [Q(?:\\.|[^Q\\])*Q], writing Q for the double quote. *)
Definition re_string : regex :=
  Seq (Chr (Ascii.eqb dquote))
    (Seq (Star (Alt (Seq (Chr (Ascii.eqb backslash)) dot)
                    (Chr (λ c, negb (Ascii.eqb c dquote) && negb (Ascii.eqb c backslash)))))
         (Chr (Ascii.eqb dquote))).

(** [/Q([^Q]+)Q\s*:\s*(Q(?:\\.|[^Q\\])*Q|[0-9]+|true|false|null|\{[^}]*\}|\[[^\]]*\])/g],
    writing Q for the double quote. *)
Definition keyValueRegex : regex :=
  Seq (Chr (Ascii.eqb dquote))
  (Seq (Group 1 (plus (any_but dquote)))
  (Seq (Chr (Ascii.eqb dquote))
  (Seq (Star space)
  (Seq (lit ":")
  (Seq (Star space)
  (Group 2
     (Alt re_string
     (Alt (plus digit)
     (Alt (lit "true")
     (Alt (lit "false")
     (Alt (lit "null")
     (Alt (Seq (lit "{") (Seq (Star (any_but "}")) (lit "}")))
          (Seq (lit "[") (Seq (Star (any_but "]")) (lit "]"))))))))))))))).

(** The body of the [while] loop of the last-resort extraction:
    [extractedData[key] = JSON.parse(value)], a match whose value does not
    parse being skipped. *)
Definition extract_pair (extractedData : run (list (string * json))) (m : found)
    : run (list (string * json)) :=
  match capture 1 (f_groups m), capture 2 (f_groups m) with
  | Some key, Some value =>
      match JSON_parse value with
      | Ok x => assign key x extractedData
      | SyntaxError => extractedData
      | Unmodelled => NotModelled
      end
  | _, _ => extractedData
  end.

(** The parse step: strict parse, then repair of trailing commas, then
    extraction of the pairs that can be found. *)
Definition parse_backup (processedContent : string) : run (outcome json) :=
  match JSON_parse processedContent with
  | Ok parsedData => Finished (Returned parsedData)
  | Unmodelled => NotModelled
  | SyntaxError =>
      let fixedJson :=
        replace_all re_comma_bracket "]"
          (replace_all re_comma_brace "}" processedContent) in
      match JSON_parse fixedJson with
      | Ok parsedData => Finished (Returned parsedData)
      | Unmodelled => NotModelled
      | SyntaxError =>
          match fold_left extract_pair (match_all keyValueRegex processedContent)
                  (Finished []) with
          | Finished [] => Finished (Threw MalformedBackupError)
          | Finished extractedData => Finished (Returned (JObj extractedData))
          | NotModelled => NotModelled
          end
      end
  end.

(** [parsedData && parsedData.data && typeof parsedData.data === 'object'],
    with the value of [parsedData.data] when the test holds. *)
Definition nested_data (parsedData : json) : option json :=
  if truthy parsedData then
    match get_data parsedData with
    | Some data => if truthy data && typeof_object data then Some data else None
    | None => None
    end
  else None.

(** The choice of [dataToStore]. *)
Definition normalize (parsedData : json) : outcome json :=
  match nested_data parsedData with
  | Some data => Returned data
  | None =>
      if typeof_object parsedData && negb (isArray parsedData) then Returned parsedData
      else if isArray parsedData then Returned (JObj [("gsm_devices", parsedData)])
      else Threw UnsupportedFormatError
  end.

Fixpoint indexed {A} (i : N) (l : list A) : list (string * A) :=
  match l with
  | [] => []
  | x :: l' => (print_N i, x) :: indexed (i + 1)%N l'
  end.

Fixpoint chars (s : string) : list json :=
  match s with
  | "" => []
  | String c s' => JStr (String c "") :: chars s'
  end.

(** [Object.entries(v)] *)
Definition entries (v : json) : outcome (list (string * json)) :=
  match v with
  | JNull => Threw TypeError
  | JBool _ | JNum _ => Returned []
  | JStr s => Returned (indexed 0 (chars s))
  | JArr items => Returned (indexed 0 items)
  | JObj props => Returned props
  end.

(** "Clear existing data": a failure is logged and the restore goes on. *)
Definition clear_existing (f : Faults) (st : storage) : storage :=
  if clear_fails f then st else ∅.

(** [typeof value === 'string' ? value : JSON.stringify(value)] *)
Definition stored (value : json) : string :=
  match value with
  | JStr s => s
  | _ => stringify value
  end.

(** "Save each item": the storage and [successCount] after the loop. *)
Fixpoint save_items (f : Faults) (items : list (string * json))
    (st : storage) (successCount : nat) : storage * nat :=
  match items with
  | [] => (st, successCount)
  | (key, value) :: items' =>
      match value with
      | JNull => save_items f items' st successCount
      | _ =>
          let valueToStore := stored value in
          if set_fails f key then save_items f items' st successCount
          else save_items f items' (<[key := valueToStore]> st) (S successCount)
      end
  end.

(** The steps after the parse: what is thrown or returned, and the
    storage left behind. *)
Definition store_parsed (f : Faults) (parsedData : json) (st : storage)
    : outcome bool * storage :=
  match normalize parsedData with
  | Threw e => (Threw e, st)
  | Returned dataToStore =>
      let st1 := clear_existing f st in
      match entries dataToStore with
      | Threw e => (Threw e, st1)
      | Returned [] => (Threw NoDataError, st1)
      | Returned items =>
          let (st2, successCount) := save_items f items st1 0 in
          if Nat.eqb successCount 0 then (Threw RestoreFailedError, st2)
          else (Returned true, st2)
      end
  end.

Definition restoreFromBackup (f : Faults) (backupJson : string) (st : storage)
    : run (outcome bool * storage) :=
  if String.eqb backupJson "" then Finished (Threw EmptyBackupError, st)
  else
    match parse_backup (clean backupJson) with
    | NotModelled => NotModelled
    | Finished (Threw e) => Finished (Threw e, st)
    | Finished (Returned parsedData) => Finished (store_parsed f parsedData st)
    end.

(** *** Values that a backup and a restore give back *)

(** What [createBackup] stores for a value: the parsed value, or the raw
    string when it does not parse. *)
Definition backed_up (value : string) : json :=
  match JSON_parse value with
  | Ok x => x
  | _ => JStr value
  end.

(** Pairs that come back in whatever order the keys are listed and
    whichever writes fail: the value is not empty; it either is no JSON
    text, or is the very text [JSON.stringify] gives for it and is neither
    [null] nor a string literal, nor an object or array under the key
    [data]; key and value have as many opening as closing braces; the key
    is not [__proto__] and not [index_like].  (A stricter test than
    [comes_back] below.) *)
Definition round_trips (key value : string) : bool :=
  negb (String.eqb value "")
  && negb (String.eqb key "__proto__" || index_like key)
  && (depth key =? 0) && (depth value =? 0)
  && match JSON_parse value with
     | SyntaxError => true
     | Ok x =>
         well_formed x && String.eqb (stringify x) value
         && match x with
            | JNull | JStr _ => false
            | JArr _ | JObj _ => negb (String.eqb key "data")
            | JBool _ | JNum _ => true
            end
     | Unmodelled => false
     end.

(** The pairs that a backup and a restore give back as they are: the
    value is not empty; it either is no JSON text, or is the very text
    [JSON.stringify] gives for what it parses to, and parses neither to
    [null] nor to a string, nor to an object or array under the key
    [data]; the key is not [__proto__]. *)
Definition comes_back (key value : string) : bool :=
  negb (String.eqb value "") && negb (String.eqb key "__proto__")
  && match JSON_parse value with
     | SyntaxError => true
     | Ok x =>
         String.eqb (stringify x) value
         && match x with
            | JNull | JStr _ => false
            | JArr _ | JObj _ => negb (String.eqb key "data")
            | JBool _ | JNum _ => true
            end
     | Unmodelled => false
     end.

(** A text that the search for the end leaves whole: counting an opening
    brace up and a closing brace down from zero, the count is zero at the
    end of the text, or it is never zero just after a closing brace. *)
Definition keeps_whole (text : string) : Prop :=
  depth text = 0 ∨ ∀ p, ¬ closes_at_zero 0 text p.

(** A text that begins with one of the three openers the search for the
    start looks for, and a text that holds none of them. *)
Definition begins_with_opener (content : string) : Prop :=
  starts_with open_quote content = true ∨
  starts_with open_newline_quote content = true ∨
  starts_with open_space_quote content = true.

Definition holds_no_opener (content : string) : Prop :=
  ¬ contains open_quote content ∧ ¬ contains open_newline_quote content ∧
  ¬ contains open_space_quote content.

(** What is written for a property of the object to store: nothing for
    [null]. *)
Definition restored (value : json) : option string :=
  match value with
  | JNull => None
  | _ => Some (stored value)
  end.

(** *** Backup texts used below *)

(** [{"a":1}], written with [quoted] for the quotes. *)
Definition backup_a1 : string := "{" +:+ quoted "a" +:+ ":1}".
(** The same followed by a line feed and [EOF marker]. *)
Definition backup_a1_eof : string := backup_a1 +:+ String "010" "EOF marker".
(** [{"a":1} trailing {"b":2} junk] *)
Definition backup_two_objects : string :=
  backup_a1 +:+ " trailing {" +:+ quoted "b" +:+ ":2} junk".
(** [{"data":[7]}] *)
Definition backup_data_array : string := "{" +:+ quoted "data" +:+ ":[7]}".
(** [{"a":null}] *)
Definition backup_null_value : string := "{" +:+ quoted "a" +:+ ":null}".
(** A key-space in the shape the application keeps: a device list, the id
    of the active device as a raw string, and settings. *)
Definition devices_text : string :=
  "[{" +:+ quoted "id" +:+ ":" +:+ quoted "gate-1" +:+ "," +:+ quoted "latchTime"
    +:+ ":" +:+ quoted "000" +:+ "}]".
Definition settings_text : string :=
  "{" +:+ quoted "completedSteps" +:+ ":[1,2]," +:+ quoted "adminNumber" +:+ ":"
    +:+ quoted "0400" +:+ "}".
Definition app_storage : storage :=
  {[ "gsm_devices" := devices_text;
     "active_device_id" := "gate-1";
     "app_settings" := settings_text ]}.
(** A key-space where the active device is stored as the text [null]. *)
Definition no_active_storage : storage :=
  {[ "active_device_id" := "null"; "gsm_devices" := "[]" ]}.
(** A key-space with one key. *)
Definition old_storage : storage := {[ "old" := "x" ]}.
(** A key-space with a key made of digits, whose value is an opening
    brace. *)
Definition digits_storage : storage :=
  {[ "gsm_devices" := devices_text; "active_device_id" := "gate-1"; "10" := "{" ]}.
(** [{ "a":1,"b":null}] followed by [ } -- {end]: an object written with
    a space after its brace, and a tail with braces of its own. *)
Definition backup_spaced_with_tail : string :=
  "{ " +:+ quoted "a" +:+ ":1," +:+ quoted "b" +:+ ":null}" +:+ " } -- {end".
(** A key-space with a device list, an unused key and a value under the
    key [__proto__]. *)
Definition proto_storage : storage :=
  {[ "gsm_devices" := devices_text; "unused" := ""; "__proto__" := "x" ]}.

End Backup.

(** ** More of the string built-ins, as the pages and the file helpers
    use them *)
Module Text.
Import JS.

Fixpoint repeat_char (c : ascii) (n : nat) : string :=
  match n with
  | O => ""
  | S n' => String c (repeat_char c n')
  end.

(** [s.padStart(n, c)] for a filler [c] of one character. *)
Definition padStart (n : nat) (c : ascii) (s : string) : string :=
  repeat_char c (n - String.length s) +:+ s.

(** [s.slice(0, n)] *)
Definition slice_to (n : nat) (s : string) : string := take n s.

(** [/[^0-9]/] *)
Definition non_digit : regex := Chr (λ c, negb (is_digit c)).

(** [/^r$/.test(s)]: the match starts at the first character and the
    continuation accepts at the end of the text only. *)
Definition test_whole (r : regex) (s : string) : bool :=
  bool_decide (is_Some (rmatch r s []
    (λ s' cs, if String.eqb s' "" then Some (s', cs) else None))).

(** The loop of a repetition [r*] followed by [k], as [rmatch] runs it:
    at most [n] iterations, each of which uses up a character. *)
Section Iterate.
Variable r : regex.
Variable k : string → captures → option (string * captures).

Fixpoint iterate (n : nat) (s : string) (cs : captures) : option (string * captures) :=
  match n with
  | O => k s cs
  | S n' =>
      match rmatch r s cs (λ s' cs',
              if (String.length s' <? String.length s)%nat
              then iterate n' s' cs' else None) with
      | Some x => Some x
      | None => k s cs
      end
  end.
End Iterate.

(** Every character of [s] satisfies [p]. *)
Fixpoint all_chars (p : ascii → bool) (s : string) : bool :=
  match s with
  | "" => true
  | String c s' => p c && all_chars p s'
  end.

(** The characters of [s] that satisfy [p], in their order. *)
Fixpoint keep (p : ascii → bool) (s : string) : string :=
  match s with
  | "" => ""
  | String c s' => if p c then String c (keep p s') else keep p s'
  end.

(** [s.split(sep)[0]] for a separator of one character: the text before
    its first occurrence, all of [s] when there is none. *)
Fixpoint split_first (sep : ascii) (s : string) : string :=
  match s with
  | "" => ""
  | String c s' => if Ascii.eqb c sep then "" else String c (split_first sep s')
  end.

(** The characters [encodeURIComponent] leaves as they are: letters,
    digits and [- _ . ! ~ * ' ( )]. *)
Definition unreserved (c : ascii) : bool :=
  let n := N_of_ascii c in
  ((65 <=? n)%N && (n <=? 90)%N) || ((97 <=? n)%N && (n <=? 122)%N) || is_digit c
  || match c with
     | "-" | "_" | "." | "!" | "~" | "*" | "'" | "(" | ")" => true
     | _ => false
     end%char.

Definition upper_hex (n : N) : ascii :=
  if (n <? 10)%N then ascii_of_N (48 + n) else ascii_of_N (55 + n).

(** [%XX] for a byte. *)
Definition percent (b : N) : string :=
  String "%" (String (upper_hex (b / 16)) (String (upper_hex (b mod 16)) "")).

(** The bytes of the UTF-8 encoding of a code unit below U+0100, each
    written [%XX]. *)
Definition encode_char (c : ascii) : string :=
  let n := N_of_ascii c in
  if unreserved c then String c ""
  else if (n <? 128)%N then percent n
  else percent (192 + n / 64) +:+ percent (128 + n mod 64).

Fixpoint encodeURIComponent (s : string) : string :=
  match s with
  | "" => ""
  | String c s' => encode_char c +:+ encodeURIComponent s'
  end.

End Text.

(** ** The device operations of [DataStoreContext] that refresh the cache

    As in [Provider], the repository is given by the calls made on it. *)
Module Operations.
Import Classifier Provider.

(** [relaySettings] of a device. *)
Record RelaySettings := {
  accessControl : string;
  latchTime : string
}.

(** The argument of [addDevice]: a device without its [id].
    [authorizedUsers] may be missing. *)
Record NewDevice := {
  name : string;
  unitNumber : string;
  password : string;
  authorizedUsers : option (list string);
  type : string;
  createdAt : string;
  updatedAt : string;
  relaySettings : RelaySettings;
  isActive : bool
}.

(** [Partial<GlobalSettings>]: the fields of the global settings that an
    update sets. *)
Record SettingsUpdate := {
  set_adminNumber : option string;
  set_activeDeviceId : option (option string);
  set_completedSteps : option (list string)
}.

Definition MissingFieldsError : string := "Missing required device fields".

Section Operations.
Context {Repo Data Device Updates Settings : Type}.
Variable getStore : Repo → outcome Data.
Variable stringify : Data → string.
(** [dataStore.addDevice(deviceToAdd)] *)
Variable ds_addDevice : NewDevice → Repo → outcome Device * Repo.
(** [dataStore.updateDevice(deviceId, updates)]; [None] stands for [null] *)
Variable ds_updateDevice : string → Updates → Repo → outcome (option Device) * Repo.
(** [dataStore.setActiveDevice(deviceId)] *)
Variable ds_setActiveDevice : option string → Repo → outcome bool * Repo.
(** [dataStore.updateGlobalSettings(updates)] *)
Variable ds_updateGlobalSettings : SettingsUpdate → Repo → outcome Settings * Repo.

(** The cache shows the repository: it serialises like the snapshot the
    repository returns. *)
Definition shows (w : World Repo Data) : Prop :=
  ∃ storeData, getStore (repo w) = Returned storeData ∧
               stringify (store w) = stringify storeData.

(** [{...device, authorizedUsers: device.authorizedUsers || []}] *)
Definition deviceToAdd (device : NewDevice) : NewDevice :=
  {| name := name device; unitNumber := unitNumber device; password := password device;
     authorizedUsers := Some (default [] (authorizedUsers device));
     type := type device; createdAt := createdAt device; updatedAt := updatedAt device;
     relaySettings := relaySettings device; isActive := isActive device |}.

(** [!device.name || !device.unitNumber || !device.password] *)
Definition missing_fields (device : NewDevice) : bool :=
  String.eqb (name device) "" || String.eqb (unitNumber device) ""
  || String.eqb (password device) "".

(** [addDevice] of the context value: what the [catch] block gets is
    thrown again. *)
Definition addDevice (device : NewDevice) (w : World Repo Data)
    : outcome Device * World Repo Data :=
  if missing_fields device then (Threw MissingFieldsError, w)
  else
    match ds_addDevice (deviceToAdd device) (repo w) with
    | (Returned newDevice, r1) =>
        (Returned newDevice, refreshStore getStore stringify (set_repo r1 w))
    | (Threw e, r1) => (Threw e, set_repo r1 w)
    end.

(** [updateDevice] of the context value. *)
Definition updateDevice (deviceId : string) (updates : Updates) (w : World Repo Data)
    : outcome (option Device) * World Repo Data :=
  match ds_updateDevice deviceId updates (repo w) with
  | (Returned updatedDevice, r1) =>
      (Returned updatedDevice, refreshStore getStore stringify (set_repo r1 w))
  | (Threw e, r1) => (Threw e, set_repo r1 w)
  end.

(** [setActiveDevice] of the context value. *)
Definition setActiveDevice (deviceId : option string) (w : World Repo Data)
    : outcome bool * World Repo Data :=
  match ds_setActiveDevice deviceId (repo w) with
  | (Returned true, r1) => (Returned true, refreshStore getStore stringify (set_repo r1 w))
  | (Returned false, r1) => (Returned false, set_repo r1 w)
  | (Threw e, r1) => (Threw e, set_repo r1 w)
  end.

(** [updateGlobalSettings] of the context value. *)
Definition updateGlobalSettings (updates : SettingsUpdate) (w : World Repo Data)
    : outcome Settings * World Repo Data :=
  match ds_updateGlobalSettings updates (repo w) with
  | (Returned updatedSettings, r1) =>
      (Returned updatedSettings, refreshStore getStore stringify (set_repo r1 w))
  | (Threw e, r1) => (Threw e, set_repo r1 w)
  end.
End Operations.

End Operations.

(** ** The device forms ([AddDevicePage], [EditDevicePage]) *)
Module AddDevicePage.
Import JS Operations.

(** What the page shows or where it goes: [Alert.alert(title, message)]
    and [router.push({pathname, params: {deviceId}})]. *)
Inductive Effect :=
| Alert (title message : string)
| Push (pathname deviceId : string).

Definition validateForm (deviceName unitNumber : string) : bool * list Effect :=
  if String.eqb (trim deviceName) "" then
    (false, [Alert "Error" "Please enter a name for your device"])
  else if String.eqb (trim unitNumber) "" then
    (false, [Alert "Error" "Please enter the device phone number"])
  else (true, []).

(** The device the page submits; [created] and [updated] are the two
    readings of the clock. *)
Definition submitted (deviceName unitNumber created updated : string) : NewDevice :=
  {| name := deviceName; unitNumber := unitNumber; password := "1234";
     authorizedUsers := Some [];
     type := "Connect4v"; createdAt := created; updatedAt := updated;
     relaySettings := {| accessControl := "AUT"; latchTime := "000" |};
     isActive := true |}.

Section AddDevicePage.
(** The state behind the two contexts, and a device as [addDevice]
    returns it. *)
Context {W Device Settings : Type}.
(** [addDevice] and [updateGlobalSettings] of [useDataStore()] *)
Variable addDevice : NewDevice → W → outcome Device * W.
Variable updateGlobalSettings : SettingsUpdate → W → outcome Settings * W.
(** [refreshDevices] of [useDevices()] *)
Variable refreshDevices : W → outcome unit * W.
(** [newDevice.id] *)
Variable device_id : Device → string.

Definition failed : list Effect := [Alert "Error" "Failed to add device. Please try again."].

Definition handleAddDevice (deviceName unitNumber created updated : string) (w : W)
    : list Effect * W :=
  let (valid, alerts) := validateForm deviceName unitNumber in
  if negb valid then (alerts, w)
  else
    match addDevice (submitted deviceName unitNumber created updated) w with
    | (Threw _, w1) => (failed, w1)
    | (Returned newDevice, w1) =>
        match updateGlobalSettings
                {| set_adminNumber := None;
                   set_activeDeviceId := Some (Some (device_id newDevice));
                   set_completedSteps := None |} w1 with
        | (Threw _, w2) => (failed, w2)
        | (Returned _, w2) =>
            match refreshDevices w2 with
            | (Threw _, w3) => (failed, w3)
            | (Returned _, w3) => ([Push "/step1" (device_id newDevice)], w3)
            end
        end
    end.
End AddDevicePage.

End AddDevicePage.

Module EditDevicePage.
Import JS Text.

Definition PasswordError : string := "Password must be a 4-digit number".

(** [validateForm]: whether the form is accepted, and the message of the
    alert when it is not. *)
Definition validateForm (deviceName unitNumber password : string) : bool * option string :=
  if String.eqb (trim deviceName) "" then
    (false, Some "Please enter a name for your device")
  else if String.eqb (trim unitNumber) "" then
    (false, Some "Please enter the device phone number")
  else if String.eqb (trim password) ""
          || negb (Nat.eqb (String.length password) 4)
          || negb (test_whole (plus digit) password) then
    (false, Some PasswordError)
  else (true, None).

(** [onChangeText] of the password field:
    [text.replace(/[^0-9]/g, '').slice(0, 4)]. *)
Definition onChangeText (text : string) : string :=
  slice_to 4 (replace_all non_digit "" text).

End EditDevicePage.

(** ** Adding a device to the repository *)
Module RepositoryOps.
Import Operations.

(** Modelled from the spec: [addDevice] of the repository
    ([utils/DataStore] is not among the sources), reduced to the fields the
    repository of [Repository] keeps.  "Fails with ValidationError if name,
    unitNumber, or password is missing/empty; otherwise assigns a fresh
    unique id, sets createdAt=updatedAt=now, defaults authorizedUsers to
    empty, persists, and returns the new Device."  [fresh] is the id that
    is assigned. *)
Definition addDevice (fresh : string) (device : NewDevice) (st : Repository.State)
    : outcome Repository.Device * Repository.State :=
  if missing_fields device then (Threw "ValidationError", st)
  else
    let added := Repository.Build_Device fresh (name device) in
    (Returned added,
     Repository.Build_State (Repository.devices st ++ [added]) (Repository.logs st)
       (Repository.activeDeviceId st)).

(** The provider that has loaded the two gates, after the add form has
    been submitted for a third one. *)
Definition garage_added :=
  Operations.addDevice Repository.getStore Repository.stringify (addDevice "gate-3")
    (AddDevicePage.submitted "Garage" "0400333444" "t0" "t1")
    (Repository.loaded Repository.two_gates).

End RepositoryOps.

(** ** The relay settings page ([app/step4.tsx]) *)
Module Step4.
Import JS Text Json Classifier Backup.

(** [Platform.OS], as far as the page tells the systems apart. *)
Inductive Platform := ios | android | other.

(** ['AUT' | 'ALL'] *)
Inductive AccessType := AUT | ALL.

Definition type_text (type : AccessType) : string :=
  match type with
  | AUT => "AUT"
  | ALL => "ALL"
  end.

(** What the page shows or opens. *)
Inductive Effect :=
| Alert (title message : string)
| OpenURL (url : string).

(** The state of the component in one render.  [device] and
    [relaySettings] are objects, given by their properties in order;
    [None] stands for [null]. *)
Record State := {
  device : option (list (string * json));
  unitNumber : string;
  password : string;
  deviceId : option string;
  relaySettings : list (string * json)
}.

Definition set_relaySettings (settings : list (string * json)) (s : State) : State :=
  {| device := device s; unitNumber := unitNumber s; password := password s;
     deviceId := deviceId s; relaySettings := settings |}.

Definition Saved : Effect := Alert "Success" "Relay settings saved".
Definition SaveFailed : Effect := Alert "Error" "Failed to save settings".
Definition MissingDevice : Effect := Alert "Error" "Device information missing".
Definition SmsUnavailable : string := "SMS is not available on this device".

Definition set_unitNumber (unitNumber : string) (s : State) : State :=
  {| device := device s; unitNumber := unitNumber; password := password s;
     deviceId := deviceId s; relaySettings := relaySettings s |}.

Definition set_password (password : string) (s : State) : State :=
  {| device := device s; unitNumber := unitNumber s; password := password;
     deviceId := deviceId s; relaySettings := relaySettings s |}.

(** [loadLegacyData]: each of the three values is taken over when it is
    stored and not empty; a text under [relaySettings] that does not
    parse leaves the settings as they are.  (A text that parses to
    something other than an object is left out: the state would hold a
    value that is no object.) *)
Definition loadLegacyData (st : storage) (s : State) : run State :=
  let s1 :=
    match st !! "unitNumber" with
    | Some (String c t) => set_unitNumber (String c t) s
    | _ => s
    end in
  let s2 :=
    match st !! "password" with
    | Some (String c t) => set_password (String c t) s1
    | _ => s1
    end in
  match st !! "relaySettings" with
  | Some (String c t) =>
      match JSON_parse (String c t) with
      | Ok (JObj props) => Finished (set_relaySettings props s2)
      | Ok _ => NotModelled
      | SyntaxError => Finished s2
      | Unmodelled => NotModelled
      end
  | _ => Finished s2
  end.

(** [completedSteps.includes('step4')] for an element of an array. *)
Definition is_step4 (v : json) : bool :=
  match v with
  | JStr s => String.eqb s "step4"
  | _ => false
  end.

(** [handleLatchTimeChange] *)
Definition handleLatchTimeChange (text : string) (s : State) : State :=
  let filtered := slice_to 3 (replace_all non_digit "" text) in
  set_relaySettings (obj_set "latchTime" (JStr filtered) (relaySettings s)) s.

Section Step4.
Context {Repo : Type}.
Variable OS : Platform.
(** [Linking.canOpenURL] and [Linking.openURL] *)
Variable canOpenURL : string → outcome bool.
Variable openURL : string → outcome unit.
(** [dataStore.addDeviceLog], behind [logSMSOperation] and [addDeviceLog]
    of the context *)
Variable ds_addDeviceLog : LogCall → Repo → outcome unit * Repo.
(** [updateDevice] of [utils/deviceStorage] and [refreshDevices] of the
    device context, by what they do to the key-space *)
Variable updateDevice : list (string * json) → storage → outcome unit * storage.
Variable refreshDevices : storage → outcome unit * storage.
(** Which calls of [AsyncStorage.setItem] throw. *)
Variable f : Faults.

(** [AsyncStorage.setItem(key, value)] inside the [try] block: whether it
    returned, and the key-space after it. *)
Definition setItem (key value : string) (st : storage) : bool * storage :=
  if set_fails f key then (false, st) else (true, <[key := value]> st).

(** The first statement of [saveToLocalStorage]: the device is updated
    when there is one, the settings go to the legacy key otherwise. *)
Definition save_settings (s : State) (st : storage) : bool * storage :=
  match device s with
  | Some props =>
      let updatedDevice := obj_set "relaySettings" (JObj (relaySettings s)) props in
      match updateDevice updatedDevice st with
      | (Returned _, st1) =>
          match refreshDevices st1 with
          | (Returned _, st2) => (true, st2)
          | (Threw _, st2) => (false, st2)
          end
      | (Threw _, st1) => (false, st1)
      end
  | None => setItem "relaySettings" (stringify (JObj (relaySettings s))) st
  end.

(** [savedCompletedSteps ? JSON.parse(savedCompletedSteps) : []] *)
Definition completedSteps (st : storage) : parsed json :=
  match st !! "completedSteps" with
  | Some (String c t) => JSON_parse (String c t)
  | _ => Ok (JArr [])
  end.

(** "Mark step as completed".  A value that is no array has no [push],
    and only a string has [includes] besides. *)
Definition mark_completed (st : storage) : run (bool * storage) :=
  match completedSteps st with
  | Unmodelled => NotModelled
  | SyntaxError => Finished (false, st)
  | Ok (JArr items) =>
      if existsb is_step4 items then Finished (true, st)
      else Finished (setItem "completedSteps"
                       (stringify (JArr (items ++ [JStr "step4"]))) st)
  | Ok (JStr t) => Finished (includes "step4" t, st)
  | Ok _ => Finished (false, st)
  end.

(** [saveToLocalStorage]: the alert shown and the key-space left. *)
Definition saveToLocalStorage (s : State) (st : storage) : run (Effect * storage) :=
  match save_settings s st with
  | (false, st1) => Finished (SaveFailed, st1)
  | (true, st1) =>
      match mark_completed st1 with
      | NotModelled => NotModelled
      | Finished (true, st2) => Finished (Saved, st2)
      | Finished (false, st2) => Finished (SaveFailed, st2)
      end
  end.

(** The address the message composer is opened with. *)
Definition smsUrl (command unitNumber : string) : string :=
  match OS with
  | ios =>
      "sms:" +:+ replace (lit "+") "" unitNumber +:+ "&body="
        +:+ encodeURIComponent command
  | _ => "sms:" +:+ unitNumber +:+ "?body=" +:+ encodeURIComponent command
  end.

(** The [try] block of [sendSMS]. *)
Definition try_send (dev command url : string) (r : Repo)
    : list Effect * outcome unit * Repo :=
  match canOpenURL url with
  | Threw e => ([], Threw e, r)
  | Returned false => ([], Threw SmsUnavailable, r)
  | Returned true =>
      match openURL url with
      | Threw e => ([], Threw e, r)
      | Returned _ =>
          let (logged, r1) := ds_addDeviceLog (logSMSOperation dev command true) r in
          ([OpenURL url], logged, r1)
      end
  end.

(** [sendSMS]: an error of the [try] block is logged and shown; an error
    of that logging is thrown. *)
Definition sendSMS (command : string) (s : State) (r : Repo)
    : list Effect * outcome unit * Repo :=
  match deviceId s with
  | None => ([MissingDevice], Returned (), r)
  | Some dev =>
      if String.eqb dev "" || String.eqb (unitNumber s) "" then
        ([MissingDevice], Returned (), r)
      else
        match try_send dev command (smsUrl command (unitNumber s)) r with
        | (effects, Returned _, r1) => (effects, Returned (), r1)
        | (effects, Threw e, r1) =>
            match ds_addDeviceLog
                    (Build_LogCall dev "SMS Error" ("Failed to send command: " +:+ e)
                       false relay) r1 with
            | (Returned _, r2) =>
                (effects ++ [Alert "Error" ("Failed to send SMS: " +:+ e)], Returned (), r2)
            | (Threw e', r2) => (effects, Threw e', r2)
            end
        end
  end.

(** What a press leaves behind: the state of the next render, what
    [sendSMS] did, and what [saveToLocalStorage] did.  The two calls are
    made from the render the press happened in. *)
Record Press := {
  next : State;
  sent : list Effect * outcome unit * Repo;
  saved : run (Effect * storage)
}.

Definition setAccessControl (type : AccessType) (s : State) (r : Repo) (st : storage)
    : Press :=
  let command :=
    match type with
    | ALL => password s +:+ "ALL#"
    | AUT => password s +:+ "AUT#"
    end in
  {| next := set_relaySettings
               (obj_set "accessControl" (JStr (type_text type)) (relaySettings s)) s;
     sent := sendSMS command s r;
     saved := saveToLocalStorage s st |}.

(** [setLatchTime]; [None] when [relaySettings.latchTime] is no string
    and [padStart] cannot be called. *)
Definition setLatchTime (s : State) (r : Repo) (st : storage) : option Press :=
  match obj_get "latchTime" (relaySettings s) with
  | Some (JStr t) =>
      let latchTime := padStart 3 "0" t in
      Some {| next := s;
              sent := sendSMS (password s +:+ "GOT" +:+ latchTime +:+ "#") s r;
              saved := saveToLocalStorage s st |}
  | _ => None
  end.
End Step4.

(** A page on the legacy path: no device loaded, the settings a new
    device starts with. *)
Definition legacy_page : State :=
  {| device := None; unitNumber := "0400111222"; password := "1234";
     deviceId := Some "gate-1";
     relaySettings := [("accessControl", JStr "AUT"); ("latchTime", JStr "000")] |}.

(** A key-space in which step 1 is marked as completed. *)
Definition one_step_storage : storage :=
  {[ "completedSteps" := "[" +:+ quoted "step1" +:+ "]" ]}.

End Step4.

(** ** Backup files and identifiers ([utils/backupRestore.ts]) *)
Module BackupFiles.
Import JS Text Json Backup.

(** The files of the device, by their path. *)
Abbreviation files := (gmap string string).

Definition SharingUnavailableError : string := "Sharing is not available on this device".
Definition NoFileUriError : string := "Could not retrieve file URI".

(** [`gsm-opener-backup-${dateStr}.json`], with
    [dateStr = today.toISOString().split('T')[0]]. *)
Definition fileName (iso : string) : string :=
  "gsm-opener-backup-" +:+ split_first "T" iso +:+ ".json".

(** [`${FileSystem.documentDirectory}${fileName}`]; a directory that is
    [null] is printed as such. *)
Definition filePath (documentDirectory : option string) (iso : string) : string :=
  default "null" documentDirectory +:+ fileName iso.

Section Files.
(** The message [FileSystem.writeAsStringAsync] throws for a path, if it
    throws, and the one [FileSystem.readAsStringAsync] throws for a path
    without a file. *)
Variable write_error : string → option string.
Variable read_error : string → string.
(** [Sharing.isAvailableAsync()] and what [Sharing.shareAsync] does. *)
Variable isSharingAvailable : outcome bool.
Variable shareAsync : string → outcome unit.

Definition writeAsStringAsync (path contents : string) (fs : files)
    : outcome unit * files :=
  match write_error path with
  | Some e => (Threw e, fs)
  | None => (Returned (), <[path := contents]> fs)
  end.

Definition readAsStringAsync (path : string) (fs : files) : outcome string :=
  match fs !! path with
  | Some contents => Returned contents
  | None => Threw (read_error path)
  end.

(** [saveBackupToFile]; [iso] is [today.toISOString()]. *)
Definition saveBackupToFile (documentDirectory : option string) (iso : string)
    (st : storage) (fs : files) : run (outcome string * files) :=
  match createBackup st with
  | NotModelled => NotModelled
  | Finished backupData =>
      let path := filePath documentDirectory iso in
      match writeAsStringAsync path backupData fs with
      | (Returned _, fs1) => Finished (Returned path, fs1)
      | (Threw e, fs1) => Finished (Threw e, fs1)
      end
  end.

(** [shareBackup]: what it returns or throws, the files, and the paths
    handed to the sharing dialog. *)
Definition shareBackup (documentDirectory : option string) (iso : string)
    (st : storage) (fs : files) : run (outcome unit * files * list string) :=
  match saveBackupToFile documentDirectory iso st fs with
  | NotModelled => NotModelled
  | Finished (Threw e, fs1) => Finished (Threw e, fs1, [])
  | Finished (Returned backupFilePath, fs1) =>
      match isSharingAvailable with
      | Threw e => Finished (Threw e, fs1, [])
      | Returned false => Finished (Threw SharingUnavailableError, fs1, [])
      | Returned true =>
          match shareAsync backupFilePath with
          | Returned _ => Finished (Returned (), fs1, [backupFilePath])
          | Threw e => Finished (Threw e, fs1, [])
          end
      end
  end.

(** What [DocumentPicker.getDocumentAsync] resolves to: [assets] with the
    [uri] of each asset, and the [uri] of the older result shape. *)
Record PickResult := {
  canceled : bool;
  assets : option (list string);
  uri : option string
}.

(** [result.assets?.[0]?.uri || (result as any).uri] *)
Definition fileUri (result : PickResult) : option string :=
  match assets result with
  | Some (String c u :: _) => Some (String c u)
  | _ => uri result
  end.

(** [pickAndRestoreBackup] *)
Definition pickAndRestoreBackup (picked : outcome PickResult) (f : Faults)
    (fs : files) (st : storage) : run (outcome bool * storage) :=
  match picked with
  | Threw e => Finished (Threw e, st)
  | Returned result =>
      if canceled result then Finished (Returned false, st)
      else
        match fileUri result with
        | Some (String c u) =>
            match readAsStringAsync (String c u) fs with
            | Returned fileContent => restoreFromBackup f fileContent st
            | Threw e => Finished (Threw e, st)
            end
        | _ => Finished (Threw NoFileUriError, st)
        end
  end.
End Files.

(** *** [generateSimpleUUID] *)

Definition template : string := "xxxxxxxx-xxxx-4xxx-yxxx-xxxxxxxxxxxx".

(** [v.toString(16)] for [0 <= v < 16]. *)
Definition toString16 (v : Z) : string := String (hex_digit (Z.to_N v)) "".

(** [s.replace(/[xy]/g, function(c) {...})]: the characters [x] and [y]
    are replaced from left to right; [random i] is what the i-th
    evaluation of [Math.random() * 16 | 0] gives, a number from 0 to 15. *)
Fixpoint replace_xy (random : nat → Z) (i : nat) (s : string) : string :=
  match s with
  | "" => ""
  | String c s' =>
      if Ascii.eqb c "x" || Ascii.eqb c "y" then
        let r := random i in
        let v := if Ascii.eqb c "x" then r else Z.lor (Z.land r 3) 8 in
        toString16 v +:+ replace_xy random (S i) s'
      else String c (replace_xy random i s')
  end.

Definition generateSimpleUUID (random : nat → Z) : string :=
  replace_xy random 0 template.

(** A lower-case hexadecimal digit. *)
Definition is_hex (c : ascii) : bool :=
  is_digit c || ((97 <=? N_of_ascii c)%N && (N_of_ascii c <=? 102)%N).

(** A list of devices as the older versions exported it, a bare array:
    [[{"id":"gate-1","name":"Home Gate"}]]. *)
Definition backup_device_list : string :=
  "[{" +:+ quoted "id" +:+ ":" +:+ quoted "gate-1" +:+ "," +:+ quoted "name" +:+ ":"
    +:+ quoted "Home Gate" +:+ "}]".

End BackupFiles.

(** ** The entries a restore writes *)
Module Items.
Import Json Backup.

(** An entry is written when its value is not [null] and [setItem] does
    not throw for its key. *)
Definition written (f : Faults) (kv : string * json) : bool :=
  match kv.2 with
  | JNull => false
  | _ => negb (set_fails f kv.1)
  end.

End Items.

(** * Properties *)

(** ** Strings and regular expressions *)
Module JSFacts.
Import JS.

Lemma app_assoc s t u : (s +:+ t) +:+ u = s +:+ t +:+ u.
Proof. induction s as [|c s IH]; simpl; [done | by rewrite IH]. Qed.

Lemma app_empty_r s : s +:+ "" = s.
Proof. induction s as [|c s IH]; simpl; [done | by rewrite IH]. Qed.

Lemma length_app s t :
  String.length (s +:+ t) = (String.length s + String.length t)%nat.
Proof. induction s as [|c s IH]; simpl; [done | by rewrite IH]. Qed.

Lemma take_drop n s : take n s +:+ drop n s = s.
Proof.
  revert s; induction n as [|n IH]; intros [|c s]; simpl; try done.
  by rewrite IH.
Qed.

Lemma take_app_length p s : take (String.length p) (p +:+ s) = p.
Proof.
  induction p as [|c p IH]; simpl; [by destruct s | by rewrite IH].
Qed.

Lemma drop_app_length p s : drop (String.length p) (p +:+ s) = s.
Proof. induction p as [|c p IH]; simpl; [by destruct s | done]. Qed.

Lemma consumed_app p s : consumed (p +:+ s) s = p.
Proof.
  unfold consumed. rewrite length_app.
  replace (String.length p + String.length s - String.length s)%nat
    with (String.length p) by lia.
  apply take_app_length.
Qed.

Lemma starts_with_spec p s : starts_with p s = true ↔ ∃ t, s = p +:+ t.
Proof.
  revert s; induction p as [|a p IH]; intros s; simpl.
  - split; [by exists s | done].
  - destruct s as [|b s]; [split; [done | by intros [t ?]] |].
    rewrite andb_true_iff, IH. split.
    + intros [Hab [t ->]]. apply Ascii.eqb_eq in Hab as ->. by exists t.
    + intros [t Ht]. injection Ht as -> ->. split; [apply Ascii.eqb_refl | by exists t].
Qed.

Lemma starts_with_app_l p s t :
  starts_with p s = true → starts_with p (s +:+ t) = true.
Proof.
  rewrite !starts_with_spec. intros [u ->]. exists (u +:+ t). by rewrite app_assoc.
Qed.

Lemma starts_with_app_inv p s t :
  (String.length p ≤ String.length s)%nat →
  starts_with p (s +:+ t) = true → starts_with p s = true.
Proof.
  revert s; induction p as [|a p IH]; intros [|b s]; simpl; try done; try lia.
  intros Hlen. rewrite !andb_true_iff. intros [? ?]. split; [done|].
  apply IH; [lia | done].
Qed.

Lemma find_from_contains p s i j : find_from p s i = Some j → contains p s.
Proof.
  revert i; induction s as [|c s IH]; intros i; simpl.
  - destruct (starts_with p "") eqn:E; [|done].
    intros _. apply starts_with_spec in E as [t ->]. by exists "", t.
  - destruct (starts_with p (String c s)) eqn:E.
    + intros _. apply starts_with_spec in E as [t ->]. by exists "", t.
    + intros [pre [post ->]]%IH. by exists (String c pre), post.
Qed.

Lemma contains_find_from p s i : contains p s → is_Some (find_from p s i).
Proof.
  intros (pre & post & ->). revert i.
  induction pre as [|c pre IH]; intros i.
  - assert (starts_with p (p +:+ post) = true) as E
      by (apply starts_with_spec; by exists post).
    simpl. destruct p, post; simpl in *; rewrite ?E; eauto.
  - simpl. destruct (starts_with p _); [eauto | apply IH].
Qed.

Lemma includes_spec p s : includes p s = true ↔ contains p s.
Proof.
  unfold includes. rewrite bool_decide_eq_true. split.
  - intros [j Hj]. by eapply find_from_contains.
  - apply contains_find_from.
Qed.

Lemma includes_false p s : includes p s = false ↔ ¬ contains p s.
Proof.
  rewrite <-includes_spec. by destruct (includes p s).
Qed.

Lemma suffix_of_refl s : suffix_of s s.
Proof. by exists "". Qed.

Lemma suffix_of_trans s1 s2 s3 : suffix_of s1 s2 → suffix_of s2 s3 → suffix_of s1 s3.
Proof. intros [p ->] [q ->]. exists (q +:+ p). by rewrite app_assoc. Qed.

Lemma suffix_of_cons c s : suffix_of s (String c s).
Proof. by exists (String c ""). Qed.

Lemma rmatch_suffix r : ∀ s cs k res,
  rmatch r s cs k = Some res →
  ∃ s' cs', suffix_of s' s ∧ k s' cs' = Some res.
Proof.
  induction r as [p| |r1 IH1 r2 IH2|r1 IH1 r2 IH2|r IH|i r IH];
    intros s cs k res; simpl.
  - destruct s as [|c s]; [done|]. destruct (p c); [|done].
    intros Hk. exists s, cs. split; [apply suffix_of_cons | done].
  - intros Hk. exists s, cs. split; [apply suffix_of_refl | done].
  - intros (s1 & cs1 & Hs1 & H2)%IH1. apply IH2 in H2 as (s2 & cs2 & Hs2 & Hk).
    exists s2, cs2. split; [by eapply suffix_of_trans | done].
  - destruct (rmatch r1 s cs k) eqn:E1.
    + intros [= <-]. by apply IH1 in E1.
    + by intros ?%IH2.
  - generalize (String.length s) as n. intros n. revert s cs.
    induction n as [|n IHn]; intros s cs.
    + intros Hk. exists s, cs. split; [apply suffix_of_refl | done].
    + match goal with |- context [rmatch r s cs ?k'] =>
        destruct (rmatch r s cs k') eqn:E end.
      * intros [= <-]. apply IH in E as (s1 & cs1 & Hs1 & E).
        destruct (_ <? _)%nat; [|done].
        apply IHn in E as (s2 & cs2 & Hs2 & Hk).
        exists s2, cs2. split; [by eapply suffix_of_trans | done].
      * intros Hk. exists s, cs. split; [apply suffix_of_refl | done].
  - intros (s1 & cs1 & Hs1 & Hk)%IH. eauto.
Qed.

Lemma match_here_rest r s rest cs :
  match_here r s = Some (rest, cs) → consumed s rest +:+ rest = s.
Proof.
  intros (s' & cs' & [p ->] & [= <- <-])%rmatch_suffix.
  by rewrite consumed_app.
Qed.

Lemma search_from_split r s i m :
  search_from r s i = Some m →
  ∃ p, String.length p = (f_index m - i)%nat ∧ (i ≤ f_index m)%nat ∧
       s = p +:+ f_text m +:+ f_rest m.
Proof.
  revert i; induction s as [|c s IH]; intros i; simpl.
  - destruct (match_here r "") as [[rest cs]|] eqn:E; [|done].
    intros [= <-]. exists "". split; [simpl; lia|]. split; [simpl; lia|].
    exact (eq_sym (match_here_rest _ _ _ _ E)).
  - destruct (match_here r (String c s)) as [[rest cs]|] eqn:E.
    + intros [= <-]. exists "". split; [simpl; lia|]. split; [simpl; lia|].
      exact (eq_sym (match_here_rest _ _ _ _ E)).
    + intros (p & Hp & Hi & ->)%IH. exists (String c p).
      split; [simpl; lia|]. split; [lia | done].
Qed.

(** Replacing the first match by the template [$&] changes nothing. *)
Lemma replace_whole_match r s : replace r "$&" s = s.
Proof.
  unfold replace, search. destruct (search_from r s 0) as [m|] eqn:E; [|done].
  apply search_from_split in E as (p & Hp & _ & Hs).
  replace (f_index m) with (String.length p) by lia.
  rewrite Hs at 1 2. rewrite take_app_length. simpl.
  rewrite app_empty_r. done.
Qed.

Lemma search_length r s m :
  search r s = Some m →
  (String.length (f_text m) + String.length (f_rest m) ≤ String.length s)%nat.
Proof.
  intros (p & _ & _ & ->)%search_from_split. rewrite !length_app. lia.
Qed.

(** The bound on the number of matches is never reached: any two bounds
    above the length of the text give the same matches, and the same
    replacement. *)
Lemma matches_from_enough r : ∀ n n' s,
  (String.length s < n)%nat → (String.length s < n')%nat →
  matches_from n r s = matches_from n' r s.
Proof.
  induction n as [|n IH]; intros [|n'] s Hn Hn'; try lia.
  cbn [matches_from]. destruct (search r s) as [m|] eqn:E; [|done].
  apply search_length in E. f_equal.
  destruct (f_text m) as [|c t], (f_rest m) as [|c' rest]; try done;
    simpl in E; apply IH; simpl; lia.
Qed.

Lemma replace_all_from_enough r tpl : ∀ n n' s,
  (String.length s < n)%nat → (String.length s < n')%nat →
  replace_all_from n r tpl s = replace_all_from n' r tpl s.
Proof.
  induction n as [|n IH]; intros [|n'] s Hn Hn'; try lia.
  cbn [replace_all_from]. destruct (search r s) as [m|] eqn:E; [|done].
  apply search_length in E. do 2 f_equal.
  destruct (f_text m) as [|c t], (f_rest m) as [|c' rest]; try done;
    simpl in E; [f_equal|..]; apply IH; simpl; lia.
Qed.

End JSFacts.

(** ** The command classifier *)
Module ClassifierFacts.
Import JS JSFacts Classifier.

Local Arguments consumed : simpl never.

(** The template handed to [replace] is ['$&']: the four mask characters
    are exactly what [slice(4)] cuts off, so the "masked" command is the
    command itself. *)
Lemma maskedCommand_id command : maskedCommand command = command.
Proof. unfold maskedCommand. apply replace_whole_match. Qed.

Lemma got_here a b c rest :
  is_digit a = true → is_digit b = true → is_digit c = true →
  match_here re_got ("GOT" +:+ String a (String b (String c rest)))
  = Some (rest, [(1%nat, String a (String b (String c "")))]).
Proof.
  intros Ha Hb Hc. unfold match_here, re_got. simpl. rewrite Ha, Hb, Hc.
  pose proof (consumed_app (String a (String b (String c ""))) rest) as E.
  cbn [String.append] in E. by rewrite E.
Qed.

Lemma got_here_starts s res :
  match_here re_got s = Some res → starts_with "GOT" s = true.
Proof.
  unfold match_here, re_got. simpl.
  destruct s as [|x [|y [|z s]]]; simpl; try done;
    repeat (match goal with |- context [if ?b then _ else _] => destruct b end;
            try done).
Qed.

Lemma contains_cons p c s : contains p s → contains p (String c s).
Proof. intros (pre & post & ->). by exists (String c pre), post. Qed.

Lemma search_got pre a b c post i :
  ¬ contains "GOT" (pre +:+ "GO") →
  is_digit a = true → is_digit b = true → is_digit c = true →
  search_from re_got (pre +:+ "GOT" +:+ String a (String b (String c post))) i
  = Some (Found (i + String.length pre)
            ("GOT" +:+ String a (String b (String c ""))) post
            [(1%nat, String a (String b (String c "")))]).
Proof.
  intros Hfirst Ha Hb Hc. revert i Hfirst.
  induction pre as [|x pre IH]; intros i Hfirst.
  - cbn [String.append search_from String.length].
    change (String "G" (String "O" (String "T" ?s))) with ("GOT" +:+ s).
    cbn [search_from]. rewrite got_here by done. rewrite Nat.add_0_r.
    pose proof (consumed_app ("GOT" +:+ String a (String b (String c ""))) post) as E.
    cbn [String.append] in E |- *. by rewrite E.
  - cbn [String.append search_from String.length].
    match goal with |- context [match_here re_got ?s] =>
      destruct (match_here re_got s) as [res|] eqn:E end.
    + exfalso. apply Hfirst. apply got_here_starts in E.
      assert (String x (pre +:+ "GOT" +:+ String a (String b (String c post)))
              = (String x pre +:+ "GO")
                  +:+ String "T" (String a (String b (String c post)))) as Heq
        by (rewrite app_assoc; reflexivity).
      assert (starts_with "GOT"
                ((String x pre +:+ "GO")
                   +:+ String "T" (String a (String b (String c post)))) = true)
        as E' by (rewrite <-Heq; exact E).
      clear E Heq. rename E' into E. apply starts_with_app_inv in E.
      * apply starts_with_spec in E as [t Ht]. by exists "", t.
      * rewrite length_app. simpl. lia.
    + rewrite IH; [f_equal; f_equal; lia|].
      intros H. apply Hfirst. by apply contains_cons.
Qed.

(** C7. Every command that contains "CC" is logged with the action "Gate
    Open Command" in the category relay, whatever else it contains: the
    "CC" rule is tested first and the rules after it ("DD", "GOT", "ALL",
    "AUT", "TEL", "EE", ...) are not consulted. *)
Theorem cc_rule_wins dev command ok :
  contains "CC" command →
  action (logSMSOperation dev command ok) = "Gate Open Command" ∧
  cat (logSMSOperation dev command ok) = relay ∧
  details (logSMSOperation dev command ok)
  = "Sent command to activate relay (open gate): " +:+ maskedCommand command.
Proof.
  intros H%includes_spec. unfold logSMSOperation. by rewrite H.
Qed.

Lemma cc_rule_wins_witness :
  contains "DD" "1234CCDDGOTALLAUTTELEE#" ∧
  contains "GOT" "1234CCDDGOTALLAUTTELEE#" ∧
  contains "EE" "1234CCDDGOTALLAUTTELEE#" ∧
  action (logSMSOperation "gate-1" "1234CCDDGOTALLAUTTELEE#" true)
  = "Gate Open Command" ∧
  cat (logSMSOperation "gate-1" "1234CCDDGOTALLAUTTELEE#" true) = relay.
Proof.
  split; [by exists "1234CC", "GOTALLAUTTELEE#"|].
  split; [by exists "1234CCDD", "ALLAUTTELEE#"|].
  split; [by exists "1234CCDDGOTALLAUTTEL", "#"|].
  pose proof (cc_rule_wins "gate-1" "1234CCDDGOTALLAUTTELEE#" true) as H.
  destruct H as (Ha & Hc & _); [by exists "1234", "DDGOTALLAUTTELEE#"|].
  split; [exact Ha | exact Hc].
Defined.

(** What the regex [/GOT(\d{3})/] matches at the start of a text. *)
Lemma match_here_got s :
  match_here re_got s
  = match timing_here s with
    | Some time => Some (drop 6 s, [(1%nat, time)])
    | None => None
    end.
Proof.
  unfold timing_here, match_here, re_got.
  destruct s as [|c1 [|c2 [|c3 s]]]; cbn [lit rmatch starts_with drop];
    try (by repeat (match goal with |- context [Ascii.eqb ?a ?b] =>
                      destruct (Ascii.eqb a b) end; cbn [andb])).
  rewrite !(Ascii.eqb_sym "G"), !(Ascii.eqb_sym "O"), !(Ascii.eqb_sym "T").
  destruct (Ascii.eqb c1 "G"); [|done]. destruct (Ascii.eqb c2 "O"); [|done].
  destruct (Ascii.eqb c3 "T"); [|done]. cbn [andb times digit rmatch].
  destruct s as [|a [|b [|c rest]]]; cbn [rmatch];
    try (by repeat (match goal with |- context [is_digit ?a] =>
                      destruct (is_digit a) end)).
  destruct (is_digit a); [|done]. destruct (is_digit b); [|done].
  destruct (is_digit c); [|done]. cbn [andb drop].
  pose proof (consumed_app (String a (String b (String c ""))) rest) as E.
  cbn [String.append] in E. by rewrite E.
Qed.

Lemma timing_here_spec s time :
  timing_here s = Some time →
  ∃ a b c post, is_digit a = true ∧ is_digit b = true ∧ is_digit c = true ∧
                time = String a (String b (String c "")) ∧
                s = "GOT" +:+ String a (String b (String c post)).
Proof.
  unfold timing_here. destruct (starts_with "GOT" s) eqn:Es; [|done].
  apply starts_with_spec in Es as [r ->]. cbn [String.append drop].
  destruct r as [|a [|b [|c post]]]; try done.
  destruct (is_digit a) eqn:Ha; [|done]. destruct (is_digit b) eqn:Hb; [|done].
  destruct (is_digit c) eqn:Hc; [|done]. cbn [andb]. intros [= <-].
  by exists a, b, c, post.
Qed.

Lemma timing_here_digits s time :
  timing_here s = Some time → ∃ a t, time = String a t.
Proof.
  unfold timing_here. destruct (starts_with "GOT" s); [|done].
  destruct (drop 3 s) as [|a [|b [|c rest]]]; try done.
  destruct (is_digit a && is_digit b && is_digit c); [|done].
  intros [= <-]. eauto.
Qed.

Lemma documented_timing_digits command time :
  documented_timing command = Some time → ∃ a t, time = String a t.
Proof.
  induction command as [|x command IH]; cbn [documented_timing].
  - destruct (timing_here "") eqn:E; [|done]. intros [= <-]. by eapply timing_here_digits.
  - destruct (timing_here (String x command)) eqn:E; [|done].
    intros [= <-]. by eapply timing_here_digits.
Qed.

(** The first match of the regex captures what [documented_timing] reads. *)
Lemma search_got_timing command i :
  search_from re_got command i ≫= (λ m, capture 1 (f_groups m)) = documented_timing command.
Proof.
  revert i. induction command as [|x command IH]; intros i;
    cbn [search_from documented_timing]; rewrite match_here_got.
  - by destruct (timing_here "").
  - destruct (timing_here (String x command)); [done|]. apply IH.
Qed.

Lemma got_time_documented command :
  got_time command = default "unknown" (documented_timing command).
Proof.
  unfold got_time, search. rewrite search_got_timing.
  destruct (documented_timing command) as [time|] eqn:E; [|done].
  by apply documented_timing_digits in E as (a & t & ->).
Qed.

(** C8, as the code has it. A command that contains "GOT" and neither
    "CC" nor "DD" is logged with the action "Relay Timing Setting" in the
    category settings.  The time is the three digits of the first place
    where "GOT" is followed by three digits: the detail says "toggle mode"
    when they are "000" and "<digits> seconds" otherwise; when "GOT" is
    nowhere followed by three digits, it says "unknown seconds".  So
    "1234GOT045#" is logged with a detail containing "45 seconds",
    "1234GOT000#" with one containing "toggle mode", and "GOT1GOT045#"
    with the time 045. *)
Theorem got_rule dev ok :
  (∀ command,
     contains "GOT" command → ¬ contains "CC" command → ¬ contains "DD" command →
     action (logSMSOperation dev command ok) = "Relay Timing Setting" ∧
     cat (logSMSOperation dev command ok) = settings ∧
     details (logSMSOperation dev command ok)
     = "Set relay timing to "
         +:+ match documented_timing command with
             | Some time =>
                 if String.eqb time "000" then "toggle mode" else time +:+ " seconds"
             | None => "unknown seconds"
             end
         +:+ ": " +:+ maskedCommand command) ∧
  (∀ pre a b c post,
     is_digit a = true → is_digit b = true → is_digit c = true →
     (∀ pre' a' b' c' post',
        is_digit a' = true → is_digit b' = true → is_digit c' = true →
        pre +:+ "GOT" +:+ String a (String b (String c post))
        = pre' +:+ "GOT" +:+ String a' (String b' (String c' post')) →
        (String.length pre ≤ String.length pre')%nat) →
     documented_timing (pre +:+ "GOT" +:+ String a (String b (String c post)))
     = Some (String a (String b (String c "")))) ∧
  (∀ command,
     (∀ pre a b c post,
        is_digit a = true → is_digit b = true → is_digit c = true →
        command ≠ pre +:+ "GOT" +:+ String a (String b (String c post))) →
     documented_timing command = None) ∧
  contains "45 seconds" (details (logSMSOperation dev "1234GOT045#" ok)) ∧
  contains "toggle mode" (details (logSMSOperation dev "1234GOT000#" ok)) ∧
  documented_timing "GOT1GOT045#" = Some "045" ∧
  documented_timing "1234GOT#" = None.
Proof.
  split; [|split; [|split]].
  - intros command Hgot%includes_spec Hcc%includes_false Hdd%includes_false.
    unfold logSMSOperation. rewrite Hcc, Hdd, Hgot. cbn [action cat details].
    split; [done|]. split; [done|]. rewrite got_time_documented.
    by destruct (documented_timing command).
  - intros pre a b c post Ha Hb Hc. induction pre as [|x pre IH]; intros Hfirst.
    + cbn [String.append documented_timing]. unfold timing_here.
      cbn [starts_with drop]. by rewrite Ha, Hb, Hc.
    + cbn [String.append documented_timing].
      destruct (timing_here (String x (pre +:+ _))) as [time|] eqn:Ehere.
      * apply timing_here_spec in Ehere as (a' & b' & c' & post' & Ha' & Hb' & Hc' & _ & Hs).
        specialize (Hfirst "" a' b' c' post' Ha' Hb' Hc' Hs). simpl in Hfirst. lia.
      * apply IH. intros pre' a' b' c' post' Ha' Hb' Hc' Hs.
        assert (String.length (String x pre) ≤ String.length (String x pre'))%nat as Hle.
        { apply (Hfirst (String x pre') a' b' c' post' Ha' Hb' Hc').
          cbn [String.append]. f_equal. exact Hs. }
        cbn [String.length] in Hle. lia.
  - intros command Hno. induction command as [|x command IH].
    + cbn [documented_timing]. destruct (timing_here "") as [time|] eqn:E; [|done].
      apply timing_here_spec in E as (a & b & c & post & Ha & Hb & Hc & _ & Hs).
      by destruct (Hno "" a b c post).
    + cbn [documented_timing]. destruct (timing_here (String x command)) as [time|] eqn:E.
      * apply timing_here_spec in E as (a & b & c & post & Ha & Hb & Hc & _ & Hs).
        by destruct (Hno "" a b c post).
      * apply IH. intros pre a b c post Ha Hb Hc ->.
        by apply (Hno (String x pre) a b c post).
  - repeat split; try reflexivity; apply includes_spec; reflexivity.
Qed.

Lemma got_rule_witness :
  action (logSMSOperation "gate-1" "1234GOT045#" true) = "Relay Timing Setting" ∧
  cat (logSMSOperation "gate-1" "1234GOT045#" true) = settings ∧
  details (logSMSOperation "gate-1" "1234GOT045#" true)
  = "Set relay timing to 045 seconds: 1234GOT045#".
Proof.
  destruct (got_rule "gate-1" true) as [H _].
  destruct (H "1234GOT045#") as (Ha & Hc & Hd).
  - by exists "1234", "045#".
  - apply includes_false. reflexivity.
  - apply includes_false. reflexivity.
  - split; [exact Ha|]. split; [exact Hc|]. rewrite Hd. reflexivity.
Defined.

(** C8, as stated, fails.  "1234GOT#" contains "GOT" and neither "CC" nor
    "DD", yet no digits follow "GOT": the detail is "Set relay timing to
    unknown seconds: 1234GOT#", which neither states toggle mode nor
    mentions a number of seconds. *)
Lemma got_without_digits_is_unknown :
  contains "GOT" "1234GOT#" ∧ ¬ contains "CC" "1234GOT#" ∧ ¬ contains "DD" "1234GOT#" ∧
  got_time "1234GOT#" = "unknown" ∧
  details (logSMSOperation "gate-1" "1234GOT#" true)
  = "Set relay timing to unknown seconds: 1234GOT#" ∧
  ¬ contains "toggle mode" (details (logSMSOperation "gate-1" "1234GOT#" true)) ∧
  ∀ d, is_digit d = true →
       ¬ contains (String d " seconds") (details (logSMSOperation "gate-1" "1234GOT#" true)).
Proof.
  split; [by exists "1234", "#"|].
  split; [apply includes_false; reflexivity|].
  split; [apply includes_false; reflexivity|].
  split; [reflexivity|]. split; [reflexivity|].
  split; [apply includes_false; reflexivity|].
  intros d Hd. apply includes_false. revert Hd.
  by destruct d as [[] [] [] [] [] [] [] []].
Qed.

(** C1 (the code departs from the claim). The detail logged for "1234CC#"
    still shows the password: it is "Sent command to activate relay (open
    gate): 1234CC#", which contains "1234". *)
Theorem password_stays_in_the_log dev ok :
  details (logSMSOperation dev "1234CC#" ok)
  = "Sent command to activate relay (open gate): 1234CC#" ∧
  contains "1234" (details (logSMSOperation dev "1234CC#" ok)).
Proof.
  split; [reflexivity|]. apply includes_spec. reflexivity.
Qed.

End ClassifierFacts.

(** ** The provider: refresh and cascading delete *)
Module ProviderFacts.
Import Classifier Provider.

Section Provider.
Context {Repo Data : Type}.
Variable getStore : Repo → outcome Data.
Variable stringify : Data → string.
Variable ds_deleteDevice : string → Repo → outcome bool * Repo.
Variable ds_addDeviceLog : LogCall → Repo → outcome unit * Repo.

Abbreviation refreshStore := (refreshStore getStore stringify).
Abbreviation refresh_body := (refresh_body getStore stringify).
Abbreviation deleteDevice :=
  (deleteDevice getStore stringify ds_deleteDevice ds_addDeviceLog).

Lemma refresh_body_reads w : reads (refresh_body w) = S (reads w).
Proof. unfold Provider.refresh_body. by destruct (getStore (repo w)). Qed.

Lemma refresh_body_repo w : repo (refresh_body w) = repo w.
Proof. unfold Provider.refresh_body. by destruct (getStore (repo w)). Qed.

Lemma refresh_body_flag w : isRefreshing (refresh_body w) = isRefreshing w.
Proof. unfold Provider.refresh_body. by destruct (getStore (repo w)). Qed.

Lemma refreshStore_repo w : repo (refreshStore w) = repo w.
Proof.
  unfold Provider.refreshStore. destruct (isRefreshing w); [done|].
  simpl. by rewrite refresh_body_repo.
Qed.

Lemma refreshStore_idle_reads w :
  isRefreshing w = false → reads (refreshStore w) = S (reads w).
Proof.
  intros H. unfold Provider.refreshStore. rewrite H. simpl.
  by rewrite refresh_body_reads.
Qed.


(** The context's [deleteDevice] answers true exactly when the
    repository removed the device and the audit entry written afterwards
    did not throw. *)
Lemma deleteDevice_true_iff deviceId w :
  (deleteDevice deviceId w).1 = true ↔
  ∃ r1 r2 u,
    ds_deleteDevice deviceId (repo w) = (Returned true, r1) ∧
    ds_addDeviceLog
      (Build_LogCall deviceId "Device Management" "Device deleted" true system) r1
    = (Returned u, r2).
Proof.
  unfold Provider.deleteDevice.
  destruct (ds_deleteDevice deviceId (repo w)) as [[[|]|m] r1] eqn:E1; simpl.
  - rewrite refreshStore_repo. simpl.
    destruct (ds_addDeviceLog _ r1) as [[u|m] r2] eqn:E2; simpl.
    + split; [|done]. intros _. by exists r1, r2, u.
    + split; [done|]. intros (r1' & r2' & u & [= <-] & ?). congruence.
  - split; [done|]. by intros (? & ? & ? & ? & ?).
  - split; [done|]. by intros (? & ? & ? & ? & ?).
Qed.

(** When the audit entry throws, the answer is false, and the repository
    is left as the two calls left it: nothing is rolled back. *)
Lemma deleteDevice_audit_log_throws deviceId w r1 r2 m :
  ds_deleteDevice deviceId (repo w) = (Returned true, r1) →
  ds_addDeviceLog
    (Build_LogCall deviceId "Device Management" "Device deleted" true system) r1
  = (Threw m, r2) →
  (deleteDevice deviceId w).1 = false ∧ repo (deleteDevice deviceId w).2 = r2.
Proof.
  intros E1 E2. unfold Provider.deleteDevice. rewrite E1.
  cbn zeta. rewrite refreshStore_repo. simpl. by rewrite E2.
Qed.

(** [DeviceManager.deleteDevice] answers true exactly when the id is not
    empty, the device was known beforehand and the repository removed
    it. *)
Lemma DeviceManager_deleteDevice_true_iff ds_hasDevice deviceId r :
  (DeviceManager_deleteDevice ds_deleteDevice ds_hasDevice deviceId r).1 = true ↔
  deviceId ≠ "" ∧ ds_hasDevice deviceId r = true ∧
  ∃ r1, ds_deleteDevice deviceId r = (Returned true, r1).
Proof.
  unfold DeviceManager_deleteDevice.
  destruct (String.eqb_spec deviceId "") as [->|Hne]; simpl.
  - split; [done | by intros [? _]].
  - destruct (ds_deleteDevice deviceId r) as [[b|m] r1]; simpl.
    + rewrite andb_true_iff. split.
      * intros [-> ?]. eauto.
      * intros (_ & ? & r1' & [= -> _]). done.
    + split; [done|]. by intros (_ & _ & ? & ?).
Qed.
End Provider.


(** C6 (the code departs from the claim). Deleting "gate-1" from a
    repository that holds it: the repository removes the device, its log
    entries and the active-device reference and answers true; the audit
    entry "Device deleted" is then refused for the id of a device that no
    longer exists, and the context's [deleteDevice] answers false, with the
    device gone. *)
Theorem delete_reports_failure_after_removal :
  let w := Repository.loaded Repository.two_gates in
  let after := Repository.context_deleteDevice Repository.no_faults "gate-1" w in
  (Repository.deleteDevice Repository.no_faults "gate-1" Repository.two_gates).1
  = Returned true ∧
  after.1 = false ∧
  Repository.hasDevice "gate-1" (repo after.2) = false ∧
  Repository.logs (repo after.2) = [] ∧
  Repository.activeDeviceId (repo after.2) = None.
Proof. repeat split. Qed.

End ProviderFacts.

(** ** [JSON.parse] reads back what [JSON.stringify] writes *)
Module JsonFacts.
Import JS JSFacts Json.

Local Arguments parse_chars : simpl never.

(** *** Strings *)

Lemma parse_chars_escape_char c t :
  parse_chars (escape_char c +:+ t)
  = bind (parse_chars t) (λ '(s, rest), Ok (String c s, rest)).
Proof. destruct c as [[] [] [] [] [] [] [] []]; reflexivity. Qed.

Lemma parse_chars_escape s rest :
  parse_chars (escape s +:+ String dquote rest) = Ok (s, rest).
Proof.
  induction s as [|c s IH]; [reflexivity|].
  cbn [escape]. rewrite app_assoc, parse_chars_escape_char, IH. reflexivity.
Qed.

Lemma parse_chars_quote s rest :
  parse_chars (escape s +:+ String dquote "" +:+ rest) = Ok (s, rest).
Proof. apply parse_chars_escape. Qed.

(** *** Numbers *)

Lemma nzhead_head d :
  match Decimal.nzhead d with
  | Decimal.D0 _ => False
  | _ => True
  end.
Proof. induction d; simpl; auto. Qed.

Lemma pos_to_uint_head p :
  match Pos.to_uint p with
  | Decimal.Nil | Decimal.D0 _ => False
  | _ => True
  end.
Proof.
  pose proof (DecimalPos.Unsigned.to_of (Pos.to_uint p)) as H.
  rewrite DecimalPos.Unsigned.of_to in H. simpl in H.
  pose proof (DecimalPos.Unsigned.to_uint_nonzero p) as Hnz.
  pose proof (nzhead_head (Pos.to_uint p)) as Hhead.
  generalize dependent (Pos.to_uint p). intros d H Hnz Hhead.
  unfold Decimal.unorm in H.
  destruct (Decimal.nzhead d); subst d; done.
Qed.

Lemma span_digits_uint u rest :
  match rest with String c _ => is_digit c = false | "" => True end →
  span_digits (DecimalString.NilEmpty.string_of_uint u +:+ rest)
  = (DecimalString.NilEmpty.string_of_uint u, rest).
Proof.
  intros Hrest. induction u; cbn [DecimalString.NilEmpty.string_of_uint String.append];
    try (cbn [span_digits is_digit]; rewrite IHu; reflexivity).
  destruct rest as [|c rest]; [reflexivity|]. cbn [span_digits]. by rewrite Hrest.
Qed.

Lemma terminated_no_digit rest :
  terminated rest →
  match rest with String c _ => is_digit c = false | "" => True end.
Proof. destruct rest as [|c rest]; [done|]. by intros [->|[->| ->]]. Qed.

Lemma terminated_no_fraction rest : terminated rest → starts_fraction rest = false.
Proof. destruct rest as [|c rest]; [done|]. by intros [->|[->| ->]]. Qed.

Lemma parse_digits_print n rest :
  terminated rest → Z.of_N n ≤ max_safe →
  parse_digits (print_N n +:+ rest) = Ok (Z.of_N n, rest).
Proof.
  intros Hrest Hsafe. unfold print_N. destruct n as [|p].
  - cbn. rewrite terminated_no_fraction by done. reflexivity.
  - change (N.to_uint (N.pos p)) with (Pos.to_uint p).
    pose proof (pos_to_uint_head p) as Hhead.
    pose proof (DecimalString.NilEmpty.usu (Pos.to_uint p)) as Husu.
    pose proof (DecimalN.Unsigned.of_to (N.pos p)) as Hof.
    change (N.to_uint (N.pos p)) with (Pos.to_uint p) in Hof.
    pose proof (span_digits_uint (Pos.to_uint p) rest (terminated_no_digit _ Hrest))
      as Hspan.
    assert (DecimalString.NilZero.string_of_uint (Pos.to_uint p)
            = DecimalString.NilEmpty.string_of_uint (Pos.to_uint p)) as ->
      by (by destruct (Pos.to_uint p)).
    destruct (Pos.to_uint p) as [|u|u|u|u|u|u|u|u|u|u]; try done.
    all: cbn [DecimalString.NilEmpty.string_of_uint String.append] in *.
    all: unfold parse_digits.
    all: cbn [is_digit negb Ascii.eqb Bool.eqb].
    all: rewrite Hspan, terminated_no_fraction by done.
    all: rewrite Husu, Hof.
    all: by destruct (Z.leb_spec (Z.of_N (N.pos p)) max_safe); [|lia].
Qed.

Lemma print_N_first n :
  ∃ c r, print_N n = String c r ∧ is_digit c = true.
Proof.
  unfold print_N. destruct n as [|p]; [by exists "0"%char, ""|].
  change (N.to_uint (N.pos p)) with (Pos.to_uint p).
  pose proof (pos_to_uint_head p) as Hhead.
  destruct (Pos.to_uint p); try done; simpl; eauto.
Qed.

Lemma parse_number_print z rest :
  terminated rest → - max_safe ≤ z ≤ max_safe →
  parse_number (print_Z z +:+ rest) = Ok (JNum z, rest).
Proof.
  intros Hrest Hsafe. unfold print_Z. destruct (Z.ltb_spec z 0).
  - cbn [String.append parse_number]. change (Ascii.eqb "-" "-") with true. cbv iota.
    rewrite parse_digits_print by (done || lia). cbn. f_equal. f_equal. f_equal. lia.
  - destruct (print_N_first (Z.to_N z)) as (c & r & Hc & Hd).
    pose proof (parse_digits_print (Z.to_N z) rest Hrest ltac:(lia)) as Hp.
    rewrite Hc in *. cbn [String.append parse_number] in *.
    assert (Ascii.eqb c "-" = false) as ->
      by (destruct c as [[] [] [] [] [] [] [] []]; done).
    rewrite Hp. cbn. f_equal. f_equal. f_equal. lia.
Qed.

(** *** Values *)

Lemma parse_value_number n c r :
  is_digit c = true ∨ c = "-"%char →
  parse_value (S n) (String c r) = parse_number (String c r).
Proof.
  intros [H| ->]; [|reflexivity].
  destruct c as [[] [] [] [] [] [] [] []]; try discriminate H; reflexivity.
Qed.

Lemma print_Z_first z :
  ∃ c r, print_Z z = String c r ∧ (is_digit c = true ∨ c = "-"%char).
Proof.
  unfold print_Z. destruct (z <? 0); [by eexists _, _; eauto|].
  destruct (print_N_first (Z.to_N z)) as (c & r & -> & Hc). eauto.
Qed.

(** The first character of the text of a value is no white space and no
    closing bracket. *)
Lemma stringify_first v :
  ∃ c r, stringify v = String c r ∧ is_json_space c = false ∧
         Ascii.eqb c "]" = false.
Proof.
  destruct v as [|[]|z|s|items|props]; try by (eexists _, _; eauto).
  destruct (print_Z_first z) as (c & r & Hz & [Hc| ->]); simpl; rewrite Hz.
  - exists c, r. by destruct c as [[] [] [] [] [] [] [] []].
  - by exists "-"%char, r.
Qed.

Lemma skip_ws_first c r : is_json_space c = false → skip_ws (String c r) = String c r.
Proof. intros H. simpl. by rewrite H. Qed.

Lemma parse_value_array n c r :
  is_json_space c = false → Ascii.eqb c "]" = false →
  parse_value (S n) (String "[" (String c r))
  = bind (parse_elements n (String c r)) (λ '(vs, rest), Ok (JArr vs, rest)).
Proof.
  intros Hs Hc. cbn [parse_value]. change (skip_ws (String "[" ?s)) with (String "[" s).
  cbv iota. change (Ascii.eqb "[" "{") with false. change (Ascii.eqb "[" "[") with true.
  cbv iota. by rewrite skip_ws_first, Hc.
Qed.

Lemma parse_value_object n r :
  parse_value (S n) (String "{" (String dquote r))
  = bind (parse_members n (String dquote r)) (λ '(ms, rest),
      Ok (JObj (obj_of_members ms), rest)).
Proof. reflexivity. Qed.

Lemma terminated_comma r : terminated (String "," r).
Proof. by left. Qed.
Lemma terminated_bracket r : terminated (String "]" r).
Proof. right. by left. Qed.
Lemma terminated_brace r : terminated (String "}" r).
Proof. right. by right. Qed.

Lemma parse_elements_items items : ∀ n rest,
  items ≠ [] → Forall reads_back items → forallb well_formed items = true →
  (list_sum (map (λ x, S (weight x)) items) ≤ n)%nat →
  parse_elements n (String.concat "," (map stringify items) +:+ String "]" rest)
  = Ok (items, rest).
Proof.
  induction items as [|x items IH]; intros n rest Hne Hall Hwf Hn; [done|].
  apply Forall_cons in Hall as [Hx Hall].
  cbn [forallb] in Hwf. apply andb_true_iff in Hwf as [Hwx Hwf].
  cbn [map list_sum fold_right] in Hn. destruct n as [|n]; [lia|].
  destruct items as [|y items].
  - cbn [map String.concat parse_elements].
    rewrite (Hx Hwx n (String "]" rest)) by (lia || apply terminated_bracket).
    reflexivity.
  - cbn [map String.concat parse_elements].
    change (String.concat "," (stringify y :: map stringify items))
      with (String.concat "," (map stringify (y :: items))).
    rewrite !app_assoc.
    rewrite (Hx Hwx n) by (lia || apply terminated_comma).
    cbn [bind String.append skip_ws is_json_space]. cbv iota.
    change (Ascii.eqb "," ",") with true. cbv iota.
    rewrite IH; [done | done | done | done |].
    cbn [map list_sum fold_right] in *. lia.
Qed.

Lemma concat_cons_app a l tail :
  l ≠ [] →
  String.concat "," (a :: l) +:+ tail
  = a +:+ String "," (String.concat "," l +:+ tail).
Proof.
  destruct l as [|b l]; [done|]. intros _. cbn [String.concat].
  rewrite !app_assoc. reflexivity.
Qed.

Lemma member_text k x tail :
  (quote k +:+ ":" +:+ stringify x) +:+ tail
  = String dquote (escape k +:+ String dquote (String ":" (stringify x +:+ tail))).
Proof.
  unfold quote. cbn [String.append]. f_equal. rewrite !app_assoc. reflexivity.
Qed.

Lemma parse_members_step n k x c tail :
  parse_value n (stringify x +:+ String c tail) = Ok (x, String c tail) →
  is_json_space c = false →
  parse_members (S n) ((quote k +:+ ":" +:+ stringify x) +:+ String c tail)
  = if Ascii.eqb c ","
    then bind (parse_members n tail) (λ '(ms, rest), Ok ((k, x) :: ms, rest))
    else if Ascii.eqb c "}" then Ok ([(k, x)], tail) else SyntaxError.
Proof.
  intros Hv Hc. rewrite member_text. cbn [parse_members].
  change (skip_ws (String dquote ?s)) with (String dquote s). cbv iota.
  change (Ascii.eqb dquote dquote) with true. cbn [negb]. cbv iota.
  rewrite parse_chars_escape. cbn [bind].
  change (skip_ws (String ":" ?s)) with (String ":" s). cbv iota.
  change (Ascii.eqb ":" ":") with true. cbn [negb]. cbv iota.
  rewrite Hv. cbn [bind]. by rewrite skip_ws_first.
Qed.

Lemma parse_members_props props : ∀ n rest,
  props ≠ [] → Forall (λ kv, reads_back kv.2) props →
  forallb (λ kv, match kv with (_, x) => well_formed x end) props = true →
  (list_sum (map (λ kv, match kv with (_, x) => S (weight x) end) props) ≤ n)%nat →
  parse_members n
    (String.concat ","
       (map (λ kv, match kv with (k, x) => quote k +:+ ":" +:+ stringify x end) props)
     +:+ String "}" rest)
  = Ok (props, rest).
Proof.
  induction props as [|[k x] props IH]; intros n rest Hne Hall Hwf Hn; [done|].
  apply Forall_cons in Hall as [Hx Hall]. cbn [snd] in Hx.
  cbn [forallb] in Hwf. apply andb_true_iff in Hwf as [Hwx Hwf].
  cbn [map list_sum fold_right] in Hn. destruct n as [|n]; [lia|].
  destruct props as [|[k' y] props].
  - cbn [map String.concat].
    rewrite parse_members_step; [done| |done].
    apply (Hx Hwx); [lia | apply terminated_brace].
  - remember ((k', y) :: props) as more eqn:Hmore.
    cbn [map]. rewrite concat_cons_app by (subst more; done).
    rewrite parse_members_step; [| |done].
    + change (Ascii.eqb "," ",") with true. cbv iota.
      rewrite IH; [done | by subst more | done | done | unfold list_sum in *; lia].
    + apply (Hx Hwx); [lia | apply terminated_comma].
Qed.

(** *** The order of the properties *)

Lemma uint_of_string_digits k u :
  DecimalString.NilEmpty.uint_of_string k = Some u → String.eqb (span_digits k).2 "" = true.
Proof.
  revert u. induction k as [|c k IH]; intros u; [done|].
  cbn [DecimalString.NilEmpty.uint_of_string span_digits].
  destruct (DecimalString.NilEmpty.uint_of_string k) as [u'|] eqn:E; [|done].
  specialize (IH u' eq_refl). destruct (span_digits k) as [ds rest]. cbn [snd] in *.
  destruct (is_digit c) eqn:Hc; [done|]. intros H. exfalso. revert Hc H.
  by destruct c as [[] [] [] [] [] [] [] []].
Qed.

Lemma not_index_like k : index_like k = false → array_index k = None.
Proof.
  unfold index_like, array_index. intros H.
  destruct (DecimalString.NilEmpty.uint_of_string k) as [u|] eqn:E; [|done].
  apply uint_of_string_digits in E. rewrite E, andb_true_r in H.
  apply negb_false_iff, String.eqb_eq in H as ->.
  destruct (print_N_first (N.of_uint u)) as (c & r & -> & _). reflexivity.
Qed.

Lemma not_index_comes_late k k' : array_index k = None → comes_before k k' = false.
Proof. unfold comes_before. by intros ->. Qed.

Lemma obj_set_last k v props :
  k ∉ map fst props →
  forallb (λ k', negb (comes_before k k')) (map fst props) = true →
  obj_set k v props = props ++ [(k, v)].
Proof.
  induction props as [|[k' v'] props IH]; [done|].
  cbn [map fst forallb]. intros Hk [Hlate Hall]%andb_true_iff.
  apply not_elem_of_cons in Hk as [Hne Hk]. apply negb_true_iff in Hlate.
  cbn [obj_set]. destruct (String.eqb_spec k' k) as [->|_]; [done|].
  by rewrite Hlate, IH.
Qed.

Lemma obj_set_fresh k v props :
  array_index k = None → k ∉ map fst props → obj_set k v props = props ++ [(k, v)].
Proof.
  intros Hk Hfresh. apply obj_set_last; [done|].
  apply forallb_forall. intros k' _. by rewrite not_index_comes_late.
Qed.

Lemma js_ordered_app_cons l k r :
  js_ordered (l ++ k :: r) = true →
  forallb (λ k', negb (comes_before k k')) l = true ∧ js_ordered (l ++ [k]) = true.
Proof.
  induction l as [|a l IH]; [done|]. cbn [app js_ordered forallb].
  intros [Ha Hl]%andb_true_iff. destruct (IH Hl) as [H1 H2].
  rewrite forallb_app in Ha. apply andb_true_iff in Ha as [Ha1 Ha2].
  cbn [forallb] in Ha2. apply andb_true_iff in Ha2 as [Hk _].
  split; [by rewrite Hk, H1|].
  rewrite forallb_app. cbn [forallb]. by rewrite Ha1, Hk, H2.
Qed.

Lemma fold_obj_set members : ∀ acc,
  NoDup (map fst acc ++ map fst members) →
  js_ordered (map fst acc ++ map fst members) = true →
  fold_left (λ props kv, obj_set kv.1 kv.2 props) members acc = acc ++ members.
Proof.
  induction members as [|[k v] members IH]; intros acc Hnd Hord.
  - by rewrite app_nil_r.
  - cbn [fold_left fst snd]. cbn [map fst] in Hnd, Hord.
    rewrite obj_set_last.
    + rewrite IH; [by rewrite <-List.app_assoc | |].
      * rewrite map_app. cbn [map fst]. by rewrite <-List.app_assoc.
      * rewrite map_app. cbn [map fst]. by rewrite <-List.app_assoc.
    + apply NoDup_app in Hnd as (_ & Hnd & _). intros Hin.
      apply (Hnd k Hin). by left.
    + by apply js_ordered_app_cons in Hord as [? _].
Qed.

Lemma obj_of_members_ordered members :
  NoDup (map fst members) → js_ordered (map fst members) = true →
  obj_of_members members = members.
Proof. intros H1 H2. unfold obj_of_members. by rewrite fold_obj_set. Qed.

(** Every well-formed value is read back from its text, whatever follows
    it. *)
Lemma stringify_reads_back v : reads_back v.
Proof.
  induction v as [|b|z|s|items IH|props IH] using json_ind;
    intros Hwf n rest Hn Hrest;
    (destruct n as [|n]; [simpl in Hn; lia|]).
  - reflexivity.
  - by destruct b.
  - cbn [stringify].
    destruct (print_Z_first z) as (c & r & Hz & Hc).
    pose proof (parse_number_print z rest Hrest) as Hnum.
    rewrite Hz in *. cbn [String.append] in *.
    rewrite parse_value_number by done. apply Hnum.
    cbn [well_formed] in Hwf. apply andb_true_iff in Hwf as [?%Z.leb_le ?%Z.leb_le].
    lia.
  - cbn [stringify]. unfold quote. cbn [String.append parse_value].
    change (skip_ws (String dquote ?t)) with (String dquote t). cbv iota.
    change (Ascii.eqb dquote "{") with false. change (Ascii.eqb dquote "[") with false.
    change (Ascii.eqb dquote dquote) with true. cbv iota.
    rewrite app_assoc. cbn [String.append]. by rewrite parse_chars_escape.
  - destruct items as [|x items]; [reflexivity|].
    cbn [stringify well_formed weight] in *.
    destruct (stringify_first x) as (c & r & Hx & Hspace & Hclose).
    assert (∃ r', String.concat "," (map stringify (x :: items)) = String c r')
      as [r' Hhead].
    { cbn [map String.concat]. rewrite Hx. destruct (map stringify items); eauto. }
    cbn [String.append]. rewrite app_assoc. rewrite Hhead. cbn [String.append].
    rewrite parse_value_array by done.
    change (String c (r' +:+ String "]" rest))
      with (String c r' +:+ String "]" rest).
    rewrite <-Hhead. rewrite parse_elements_items; [done | done | done | done |].
    unfold list_sum in *. lia.
  - destruct props as [|[k x] props]; [reflexivity|].
    cbn [stringify well_formed weight] in *.
    apply andb_true_iff in Hwf as [[Hnd%bool_decide_eq_true Hord]%andb_true_iff Hwf].
    set (member := λ kv : string * json,
                     match kv with (k0, x0) => quote k0 +:+ ":" +:+ stringify x0 end).
    assert (∃ r', String.concat "," (map member ((k, x) :: props))
                  = String dquote r') as [r' Hhead].
    { clear. destruct props as [|kv props]; cbn [map String.concat];
        unfold member, quote; cbn [String.append]; eauto. }
    cbn [String.append]. rewrite app_assoc.
    fold member. rewrite Hhead. cbn [String.append].
    rewrite parse_value_object.
    change (String dquote (r' +:+ String "}" rest))
      with (String dquote r' +:+ String "}" rest).
    rewrite <-Hhead. unfold member.
    rewrite parse_members_props; [| done | done | done | unfold list_sum in *; lia].
    cbn [bind]. by rewrite obj_of_members_ordered.
Qed.

Lemma length_concat_weight (items : list json) :
  Forall (λ x, (weight x ≤ 2 * String.length (stringify x))%nat) items →
  (list_sum (map (λ x, S (weight x)) items)
   ≤ 2 * String.length (String.concat "," (map stringify items)) + 1)%nat.
Proof.
  induction 1 as [|x items Hx _ IH]; [simpl; lia|].
  destruct items as [|y items].
  - simpl in *. lia.
  - remember (y :: items) as more. cbn [map list_sum fold_right].
    replace (String.concat "," (stringify x :: map stringify more))
      with (stringify x +:+ String "," (String.concat "," (map stringify more)))
      by (subst more; reflexivity).
    rewrite length_app. cbn [String.length]. unfold list_sum in *. lia.
Qed.

Lemma length_concat_weight_props (props : list (string * json)) :
  Forall (λ kv, (weight kv.2 ≤ 2 * String.length (stringify kv.2))%nat) props →
  (list_sum (map (λ kv, match kv with (_, x) => S (weight x) end) props)
   ≤ 2 * String.length
           (String.concat ","
              (map (λ kv, match kv with (k, x) => quote k +:+ ":" +:+ stringify x end)
                 props)) + 1)%nat.
Proof.
  induction 1 as [|[k x] props Hx _ IH]; [simpl; lia|]. cbn [snd] in Hx.
  destruct props as [|y props].
  - cbn [map list_sum fold_right String.concat]. rewrite !length_app. lia.
  - remember (y :: props) as more. cbn [map list_sum fold_right].
    match goal with |- context [String.concat "," (?a :: map ?f more)] =>
      replace (String.concat "," (a :: map f more))
        with (a +:+ String "," (String.concat "," (map f more)))
        by (subst more; reflexivity) end.
    rewrite !length_app. cbn [String.length]. rewrite ?length_app.
    unfold list_sum in *. lia.
Qed.

Lemma weight_le_length v : (weight v ≤ 2 * String.length (stringify v))%nat.
Proof.
  induction v as [|b|z|s|items IH|props IH] using json_ind.
  - simpl. lia.
  - destruct b; simpl; lia.
  - destruct (print_Z_first z) as (c & r & Hz & _). simpl. rewrite Hz. simpl. lia.
  - simpl. lia.
  - pose proof (length_concat_weight items IH) as H.
    cbn [weight stringify String.append String.length]. rewrite length_app.
    cbn [String.length]. lia.
  - pose proof (length_concat_weight_props props IH) as H.
    cbn [weight stringify]. rewrite !length_app.
    cbn [String.length]. lia.
Qed.

(** [JSON.parse(JSON.stringify(v))] is [v]. *)
Lemma JSON_parse_stringify v : well_formed v = true → JSON_parse (stringify v) = Ok v.
Proof.
  intros Hwf. unfold JSON_parse.
  pose proof (stringify_reads_back v Hwf
                (2 * String.length (stringify v) + 2)%nat "") as H.
  rewrite app_empty_r in H. rewrite H; [done| |done].
  pose proof (weight_le_length v). lia.
Qed.

End JsonFacts.

(** ** Restore: guard, shape of the parsed data, null entries *)
Module RestoreFacts.
Import JS JSFacts Json Backup.

Lemma trimStart_all_space s : all_space s = true → trimStart s = "".
Proof.
  induction s as [|c s IH]; simpl; [done|].
  intros [Hc Hs]%andb_true_iff. rewrite Hc. by apply IH.
Qed.

Lemma trim_all_space s : all_space s = true → trim s = "".
Proof. intros H. unfold trim. by rewrite trimStart_all_space. Qed.

Lemma parse_backup_empty : parse_backup (clean "") = Finished (Threw MalformedBackupError).
Proof. vm_compute. reflexivity. Qed.

(** C3, as the code has it. A backup text made of white space only is
    rejected and the key-space is left as it was: the empty text by the
    guard, with the error "Backup file appears to be empty"; a non-empty
    blank text passes the guard and is rejected by the parse step, with the
    error "Could not parse backup file - invalid JSON format". *)
Theorem blank_backup_is_rejected f backupJson st :
  all_space backupJson = true →
  restoreFromBackup f backupJson st
  = Finished (Threw (if String.eqb backupJson "" then EmptyBackupError
                     else MalformedBackupError), st).
Proof.
  intros Hblank. unfold restoreFromBackup.
  destruct (String.eqb backupJson "") eqn:E; [done|].
  unfold clean. rewrite trim_all_space by done.
  change (locate_end (locate_start "")) with (clean "").
  by rewrite parse_backup_empty.
Qed.

Lemma blank_backup_is_rejected_witness :
  restoreFromBackup no_faults "   " old_storage
  = Finished (Threw MalformedBackupError, old_storage) ∧
  restoreFromBackup no_faults "" old_storage
  = Finished (Threw EmptyBackupError, old_storage).
Proof.
  split.
  - apply (blank_backup_is_rejected no_faults "   " old_storage). reflexivity.
  - apply (blank_backup_is_rejected no_faults "" old_storage). reflexivity.
Defined.

(** C3, as stated, fails: three spaces are white space only, and the
    restore does not fail with the empty-backup error. *)
Lemma blank_backup_is_not_called_empty :
  all_space "   " = true ∧
  restoreFromBackup no_faults "   " old_storage
  ≠ Finished (Threw EmptyBackupError, old_storage).
Proof.
  split; [reflexivity|].
  assert (restoreFromBackup no_faults "   " old_storage
          = Finished (Threw MalformedBackupError, old_storage)) as ->
    by (vm_compute; reflexivity).
  intros [=].
Qed.

(** The choice of the key-space, case by case. *)
Lemma normalize_nested props data :
  obj_get "data" props = Some data →
  typeof_object data = true → data ≠ JNull →
  normalize (JObj props) = Returned data.
Proof.
  intros Hget Hobj Hnull. unfold normalize, nested_data. simpl. rewrite Hget.
  by destruct data.
Qed.

Lemma normalize_direct props :
  (∀ data, obj_get "data" props = Some data →
           typeof_object data = false ∨ data = JNull) →
  normalize (JObj props) = Returned (JObj props).
Proof.
  intros H. unfold normalize, nested_data. simpl.
  destruct (obj_get "data" props) as [data|] eqn:E; [|done].
  destruct (H data eq_refl) as [Hd| ->]; [|done].
  by rewrite Hd, andb_false_r.
Qed.

Lemma normalize_array items :
  normalize (JArr items) = Returned (JObj [("gsm_devices", JArr items)]).
Proof. reflexivity. Qed.

Lemma normalize_primitive v :
  typeof_object v = false → normalize v = Threw UnsupportedFormatError.
Proof. by destruct v as [|[]|z|s| |]; try done; unfold normalize, nested_data;
         simpl; destruct (negb _). Qed.

Lemma normalize_null : normalize JNull = Returned JNull.
Proof. reflexivity. Qed.

(** C5 (the code departs from the claim). A [data] field that is an array
    passes the test [typeof parsedData.data === 'object'] and is taken as
    the key-space: restoring [{"data":[7]}] writes "7" under the key "0"
    and nothing under "data".  And the parsed value [null] passes the test
    of the second case: the key-space is cleared and [Object.entries]
    throws a TypeError, where the claim has UnsupportedFormatError. *)
Theorem data_array_becomes_key_space :
  JSON_parse backup_data_array = Ok (JObj [("data", JArr [JNum 7])]) ∧
  normalize (JObj [("data", JArr [JNum 7])]) = Returned (JArr [JNum 7]) ∧
  restoreFromBackup no_faults backup_data_array old_storage
  = Finished (Returned true, {[ "0" := "7" ]}) ∧
  normalize JNull = Returned JNull ∧
  restoreFromBackup no_faults "null" old_storage = Finished (Threw TypeError, ∅).
Proof. repeat split; vm_compute; reflexivity. Qed.

Lemma save_items_app f items1 items2 st n :
  save_items f (items1 ++ items2) st n
  = save_items f items2 (save_items f items1 st n).1 (save_items f items1 st n).2.
Proof.
  revert st n; induction items1 as [|[key value] items1 IH]; intros st n; simpl.
  - done.
  - destruct value; try done; destruct (set_fails f key); apply IH.
Qed.

Lemma save_items_all_null f items st n :
  Forall (λ kv, kv.2 = JNull) items → save_items f items st n = (st, n).
Proof.
  induction 1 as [|[key value] items Hnull _ IH]; simpl in *; [done|].
  by rewrite Hnull.
Qed.

Lemma parse_backup_null_value :
  parse_backup (clean backup_null_value) = Finished (Returned (JObj [("a", JNull)])).
Proof. vm_compute. reflexivity. Qed.

(** C10. In the write loop an entry whose value is null is passed over:
    with or without it the loop ends with the same storage and the same
    count of successes.  So when the key-space to store has entries and
    all their values are null, the restore fails with "Failed to restore
    any items" (the existing keys having been cleared); [{"a":null}] is
    such a backup. *)
Theorem null_entries_are_skipped f :
  (∀ items1 key items2 st n,
     save_items f (items1 ++ (key, JNull) :: items2) st n
     = save_items f (items1 ++ items2) st n) ∧
  (∀ parsedData dataToStore items st,
     normalize parsedData = Returned dataToStore →
     entries dataToStore = Returned items →
     items ≠ [] → Forall (λ kv, kv.2 = JNull) items →
     store_parsed f parsedData st
     = (Threw RestoreFailedError, clear_existing f st)) ∧
  (∀ st, restoreFromBackup f backup_null_value st
         = Finished (Threw RestoreFailedError, clear_existing f st)).
Proof.
  assert (∀ parsedData dataToStore items st,
     normalize parsedData = Returned dataToStore →
     entries dataToStore = Returned items →
     items ≠ [] → Forall (λ kv, kv.2 = JNull) items →
     store_parsed f parsedData st
     = (Threw RestoreFailedError, clear_existing f st)) as Hall.
  { intros parsedData dataToStore items st Hn He Hne Hnull.
    unfold store_parsed. rewrite Hn, He.
    destruct items as [|kv items]; [done|].
    by rewrite save_items_all_null. }
  split; [|split].
  - intros items1 key items2 st n. by rewrite !save_items_app.
  - exact Hall.
  - intros st. unfold restoreFromBackup.
    change (String.eqb backup_null_value "") with false. cbv iota.
    rewrite parse_backup_null_value. cbv beta iota.
    rewrite (Hall _ (JObj [("a", JNull)]) [("a", JNull)]).
    + reflexivity.
    + reflexivity.
    + reflexivity.
    + done.
    + by constructor.
Qed.

Lemma null_entries_are_skipped_witness :
  store_parsed no_faults (JObj [("a", JNull); ("b", JNull)]) old_storage
  = (Threw RestoreFailedError, ∅).
Proof.
  destruct (null_entries_are_skipped no_faults) as (_ & H & _).
  apply (H (JObj [("a", JNull); ("b", JNull)]) (JObj [("a", JNull); ("b", JNull)])
           [("a", JNull); ("b", JNull)] old_storage).
  - reflexivity.
  - reflexivity.
  - discriminate.
  - repeat constructor.
Defined.

End RestoreFacts.

(** ** Restore: where the text handed to the parser ends *)
Module LocateFacts.
Import JS JSFacts Json Backup.

Lemma depth_app s t : depth (s +:+ t) = depth s + depth t.
Proof. induction s as [|c s IH]; simpl; [done | rewrite IH; lia]. Qed.

Lemma len_app s t : len (s +:+ t) = len s + len t.
Proof. unfold len. rewrite length_app. lia. Qed.

Lemma scan_braces_cons ch s i c l :
  scan_braces (String ch s) i c l
  = scan_braces s (i + 1) (c + brace_delta ch)
      (if Ascii.eqb ch "}" && (c + brace_delta ch =? 0) then i + 1 else l).
Proof.
  cbn [scan_braces]. unfold brace_delta.
  destruct (Ascii.eqb ch "}") eqn:Eclose.
  - apply Ascii.eqb_eq in Eclose as ->.
    change (Ascii.eqb "}" "{") with false. cbv iota.
    by replace (c + -1) with (c - 1) by lia.
  - destruct (Ascii.eqb ch "{"); simpl; by rewrite ?Z.add_0_r.
Qed.

Lemma scan_braces_app s t i c l :
  scan_braces (s +:+ t) i c l
  = scan_braces t (i + len s) (c + depth s) (scan_braces s i c l).
Proof.
  revert i c l; induction s as [|ch s IH]; intros i c l.
  - simpl. unfold len. simpl. by rewrite !Z.add_0_r.
  - cbn [String.append]. rewrite !scan_braces_cons, IH.
    cbn [depth]. unfold len. cbn [String.length]. f_equal; lia.
Qed.

Lemma scan_braces_brace_free t i c l : brace_free t = true → scan_braces t i c l = l.
Proof.
  revert i c; induction t as [|ch t IH]; intros i c; [done|].
  cbn [brace_free]. intros [[Ho Hc]%andb_true_iff Ht]%andb_true_iff.
  rewrite scan_braces_cons. apply negb_true_iff in Hc. rewrite Hc. by apply IH.
Qed.

Lemma closes_at_zero_cons c ch s p :
  closes_at_zero c (String ch s) p ↔
  (p = 1%nat ∧ ch = "}"%char ∧ c + brace_delta ch = 0) ∨
  (∃ p', p = S p' ∧ closes_at_zero (c + brace_delta ch) s p').
Proof.
  split.
  - intros ([|x pre] & post & Hs & -> & Hd).
    + left. simpl in Hs. injection Hs as -> ->. simpl in Hd. split; [done|].
      split; [done | lia].
    + right. simpl in Hs. injection Hs as -> ->. exists (S (String.length pre)).
      split; [done|]. exists pre, post. split; [done|]. split; [done|].
      cbn [String.append depth] in Hd. lia.
  - intros [(-> & -> & Hc)|(p' & -> & pre & post & -> & -> & Hd)].
    + exists "", s. split; [done|]. split; [done|]. simpl. lia.
    + exists (String ch pre), post. split; [done|]. split; [done|].
      cbn [String.append depth]. lia.
Qed.

Lemma closes_at_zero_nil c p : ¬ closes_at_zero c "" p.
Proof. intros ([|x pre] & post & Hs & _); discriminate. Qed.

(** [lastValidPos] is the offset just after the last closing brace at which
    the depth is zero, and is left as it was when there is none. *)
Lemma scan_braces_spec s : ∀ i c l,
  (scan_braces s i c l = l ∧ ∀ p, ¬ closes_at_zero c s p) ∨
  (∃ p, scan_braces s i c l = i + Z.of_nat p ∧ closes_at_zero c s p ∧
        ∀ p', closes_at_zero c s p' → (p' ≤ p)%nat).
Proof.
  induction s as [|ch s IH]; intros i c l.
  - left. split; [done|]. apply closes_at_zero_nil.
  - rewrite scan_braces_cons.
    destruct (IH (i + 1) (c + brace_delta ch)
                (if Ascii.eqb ch "}" && (c + brace_delta ch =? 0) then i + 1 else l))
      as [[Hscan Hnone]|(p & Hscan & Hp & Hmax)].
    + rewrite Hscan.
      destruct (Ascii.eqb ch "}" && (c + brace_delta ch =? 0)) eqn:Ehere.
      * apply andb_true_iff in Ehere as [->%Ascii.eqb_eq Hz%Z.eqb_eq].
        right. exists 1%nat. split; [lia|]. split.
        -- apply closes_at_zero_cons. by left.
        -- intros p' [(-> & _)|(q & -> & Hq)]%closes_at_zero_cons; [done|].
           by destruct (Hnone q).
      * left. split; [done|].
        intros p' [(_ & -> & Hz)|(q & -> & Hq)]%closes_at_zero_cons.
        -- apply Z.eqb_eq in Hz. rewrite Hz in Ehere. done.
        -- by destruct (Hnone q).
    + right. exists (S p). split; [rewrite Hscan; lia|]. split.
      * apply closes_at_zero_cons. right. by exists p.
      * intros p' [(-> & _)|(q & -> & Hq)]%closes_at_zero_cons; [lia|].
        assert (q ≤ p)%nat; [by apply Hmax | lia].
Qed.

Lemma scan_braces_balanced body i c l :
  c + depth (body +:+ "}") = 0 →
  scan_braces (body +:+ "}") i c l = i + len (body +:+ "}").
Proof.
  intros Hd. rewrite scan_braces_app, scan_braces_cons. rewrite depth_app in Hd.
  cbn [depth] in Hd. change (Ascii.eqb "}" "}") with true.
  replace (c + depth body + brace_delta "}" =? 0) with true
    by (symmetry; apply Z.eqb_eq; lia).
  simpl. rewrite len_app. unfold len. simpl. lia.
Qed.

Lemma trimEnd_nonspace c t : is_space c = false → trimEnd (String c t) = String c (trimEnd t).
Proof. intros H. simpl. rewrite H. by destruct (trimEnd t). Qed.

Lemma trimEnd_app_nonspace body c t :
  is_space c = false →
  trimEnd (body +:+ String c t) = body +:+ String c (trimEnd t).
Proof.
  intros H. induction body as [|b body IH].
  - by apply trimEnd_nonspace.
  - cbn [String.append trimEnd]. rewrite IH. by destruct body.
Qed.

Lemma brace_free_trimEnd t : brace_free t = true → brace_free (trimEnd t) = true.
Proof.
  induction t as [|c t IH]; simpl; [done|].
  intros [Hc Ht]%andb_true_iff. specialize (IH Ht).
  destruct (trimEnd t); [destruct (is_space c)|]; simpl in *; by rewrite ?Hc, ?IH.
Qed.

Lemma fold_left_min_le l a : fold_left Z.min l a ≤ a.
Proof.
  revert a; induction l as [|x l IH]; intros a; simpl; [lia|].
  specialize (IH (Z.min a x)). lia.
Qed.

Lemma locate_start_at_open_quote content :
  starts_with open_quote content = true → locate_start content = content.
Proof.
  intros H. unfold locate_start.
  assert (indexOf open_quote content = 0) as ->.
  { unfold indexOf. destruct content; simpl in *; by rewrite ?H. }
  rewrite filter_cons_True by done.
  match goal with |- context [fold_left Z.min ?l 0] =>
    pose proof (fold_left_min_le l 0) as Hle end.
  destruct (Z.ltb_spec 0 (fold_left Z.min
    (filter (λ pos, 0 ≤ pos)
       [indexOf open_newline_quote content; indexOf open_space_quote content;
        lastIndexOf open_quote content]) 0)); [lia | done].
Qed.


End LocateFacts.

(** ** Backup followed by restore *)
Module RoundTripFacts.
Import JS JSFacts Json JsonFacts Backup RestoreFacts LocateFacts.

Lemma depth_escape_char c : depth (escape_char c) = brace_delta c.
Proof. destruct c as [[] [] [] [] [] [] [] []]; reflexivity. Qed.

Lemma depth_escape s : depth (escape s) = depth s.
Proof.
  induction s as [|c s IH]; [done|].
  cbn [escape depth]. by rewrite depth_app, depth_escape_char, IH.
Qed.

Lemma depth_quote s : depth (quote s) = depth s.
Proof.
  unfold quote. cbn [depth]. rewrite depth_app, depth_escape.
  change (depth (String dquote "")) with 0. change (brace_delta dquote) with 0. lia.
Qed.

(** What [round_trips] says of a pair. *)
Lemma round_trips_inv key value :
  round_trips key value = true →
  value ≠ "" ∧ String.eqb key "__proto__" || index_like key = false ∧
  depth key = 0 ∧
  JSON_parse value ≠ Unmodelled ∧
  well_formed (backed_up value) = true ∧
  backed_up value ≠ JNull ∧
  stored (backed_up value) = value ∧
  depth (stringify (backed_up value)) = 0 ∧
  (key = "data" → typeof_object (backed_up value) = false).
Proof.
  unfold round_trips, backed_up.
  intros [[[[Hv%negb_true_iff Hk%negb_true_iff]%andb_true_iff
             Hdk%Z.eqb_eq]%andb_true_iff Hdv%Z.eqb_eq]%andb_true_iff Hj]%andb_true_iff.
  apply String.eqb_neq in Hv.
  split; [done|]. split; [done|]. split; [done|].
  destruct (JSON_parse value) as [x| |]; [| |done].
  - apply andb_true_iff in Hj as [[Hwf Hs%String.eqb_eq]%andb_true_iff Hx].
    split; [done|]. split; [done|]. split; [by destruct x|].
    split; [by destruct x|]. split; [by rewrite Hs|].
    intros ->. by destruct x.
  - split; [done|]. split; [done|]. split; [done|]. split; [done|].
    split; [cbn [stringify]; by rewrite depth_quote | done].
Qed.

Abbreviation backed_pair := (λ kv : string * string, (kv.1, backed_up kv.2)).
Abbreviation pair_round_trips := (λ kv : string * string, round_trips kv.1 kv.2 = true).

Lemma fold_backup_pair kvs : ∀ acc,
  NoDup (map fst acc ++ map fst kvs) → Forall pair_round_trips kvs →
  fold_left backup_pair kvs (Finished acc) = Finished (acc ++ map backed_pair kvs).
Proof.
  induction kvs as [|[key value] kvs IH]; intros acc Hnd Hall.
  - cbn. by rewrite app_nil_r.
  - apply Forall_cons in Hall as [Hkv Hall]. cbn [fst snd] in Hkv.
    apply round_trips_inv in Hkv as (Hv & Hk & _ & Hmod & _).
    cbn [fold_left map fst snd] in *.
    assert (backup_pair (Finished acc) (key, value)
            = Finished (acc ++ [(key, backed_up value)])) as ->.
    { unfold backup_pair, backed_up, backup_assign.
      apply String.eqb_neq in Hv. rewrite Hv.
      assert (key ∉ map fst acc) as Hfresh.
      { apply NoDup_app in Hnd as (_ & Hnd & _). intros Hin.
        apply (Hnd key Hin). by left. }
      apply orb_false_iff in Hk as [Hproto Hk%not_index_like].
      destruct (JSON_parse value); [| |done];
        by rewrite Hproto, obj_set_fresh. }
    rewrite IH; [by rewrite <-List.app_assoc | | done].
    rewrite map_app. cbn [map fst]. by rewrite <-List.app_assoc.
Qed.

Abbreviation member :=
  (λ kv : string * json, match kv with (k, x) => quote k +:+ ":" +:+ stringify x end).

Lemma depth_members props :
  Forall (λ kv : string * json, depth kv.1 = 0 ∧ depth (stringify kv.2) = 0) props →
  depth (String.concat "," (map member props)) = 0.
Proof.
  induction 1 as [|[k x] props [Hk Hx] _ IH]; [done|]. cbn [fst snd] in *.
  assert (depth (quote k +:+ ":" +:+ stringify x) = 0) as Hm.
  { rewrite !depth_app, depth_quote, Hk, Hx. reflexivity. }
  destruct props as [|kv props]; [done|].
  remember (kv :: props) as more. cbn [map].
  replace (String.concat "," ((quote k +:+ ":" +:+ stringify x) :: map member more))
    with ((quote k +:+ ":" +:+ stringify x)
            +:+ String "," (String.concat "," (map member more)))
    by (subst more; reflexivity).
  rewrite depth_app, Hm. cbn [depth]. rewrite IH. reflexivity.
Qed.

Lemma obj_get_elem_of k x props : obj_get k props = Some x → (k, x) ∈ props.
Proof.
  induction props as [|[k' x'] props IH]; [done|]. cbn [obj_get].
  destruct (String.eqb_spec k' k) as [->|_].
  - intros [= ->]. by left.
  - intros H. right. by apply IH.
Qed.


End RoundTripFacts.

(** ** The input filters and the form checks *)
Module TextFacts.
Import JS JSFacts Text.

Lemma rmatch_star r s cs k :
  rmatch (Star r) s cs k = iterate r k (String.length s) s cs.
Proof. reflexivity. Qed.

Lemma rmatch_seq r1 r2 s cs k :
  rmatch (Seq r1 r2) s cs k = rmatch r1 s cs (λ s' cs', rmatch r2 s' cs' k).
Proof. reflexivity. Qed.

Lemma rmatch_chr p c s cs k :
  rmatch (Chr p) (String c s) cs k = if p c then k s cs else None.
Proof. reflexivity. Qed.

Lemma all_chars_app p s t : all_chars p (s +:+ t) = all_chars p s && all_chars p t.
Proof. induction s as [|c s IH]; simpl; [done|]. by rewrite IH, andb_assoc. Qed.

Lemma all_chars_impl (p q : ascii → bool) s :
  (∀ c, p c = true → q c = true) → all_chars p s = true → all_chars q s = true.
Proof.
  intros Hpq. induction s as [|c s IH]; simpl; [done|].
  intros [Hc Hs]%andb_true_iff. by rewrite (Hpq _ Hc), IH.
Qed.

Lemma keep_app p s t : keep p (s +:+ t) = keep p s +:+ keep p t.
Proof. induction s as [|c s IH]; simpl; [done|]. destruct (p c); simpl; by rewrite IH. Qed.

Lemma keep_ext (p q : ascii → bool) s : (∀ c, p c = q c) → keep p s = keep q s.
Proof. intros Hpq. induction s as [|c s IH]; simpl; [done|]. by rewrite Hpq, IH. Qed.

Lemma all_chars_keep p s : all_chars p (keep p s) = true.
Proof.
  induction s as [|c s IH]; simpl; [done|].
  destruct (p c) eqn:E; simpl; [by rewrite E|done].
Qed.

Lemma keep_all p s : all_chars p s = true → keep p s = s.
Proof.
  induction s as [|c s IH]; simpl; [done|].
  intros [-> Hs]%andb_true_iff. by rewrite IH.
Qed.

Lemma all_chars_take p n s : all_chars p s = true → all_chars p (take n s) = true.
Proof.
  revert n; induction s as [|c s IH]; intros [|n]; simpl; try done.
  intros [-> Hs]%andb_true_iff. by apply IH.
Qed.

Lemma length_take n s : String.length (take n s) = (n `min` String.length s)%nat.
Proof. revert n; induction s as [|c s IH]; intros [|n]; simpl; try done. by rewrite IH. Qed.

Lemma take_all n s : (String.length s ≤ n)%nat → take n s = s.
Proof.
  revert n; induction s as [|c s IH]; intros [|n]; simpl; try done; [lia|].
  intros Hn. rewrite IH; [done|lia].
Qed.

(** *** The first character of a class, and the removal of a class *)

Lemma search_from_chr_none p s i :
  all_chars (λ c, negb (p c)) s = true → search_from (Chr p) s i = None.
Proof.
  revert i; induction s as [|c s IH]; intros i; simpl; [done|].
  intros [Hc Hs]%andb_true_iff. apply negb_true_iff in Hc.
  unfold match_here. simpl. rewrite Hc. by apply IH.
Qed.

Lemma search_from_chr_some p pre c rest i :
  all_chars (λ c, negb (p c)) pre = true → p c = true →
  search_from (Chr p) (pre +:+ String c rest) i
  = Some (Found (i + String.length pre) (String c "") rest []).
Proof.
  revert i; induction pre as [|x pre IH]; intros i Hpre Hc.
  - cbn [String.append search_from]. unfold match_here. cbn [rmatch]. rewrite Hc.
    f_equal. f_equal; [simpl; lia|].
    change (String c rest) with (String c "" +:+ rest). apply consumed_app.
  - simpl in Hpre. apply andb_true_iff in Hpre as [Hx Hpre]. apply negb_true_iff in Hx.
    cbn [String.append search_from]. unfold match_here at 1. cbn [rmatch]. rewrite Hx.
    rewrite IH by done. do 2 f_equal. simpl. lia.
Qed.

(** A text is a run outside the class, followed by nothing or by a
    character of the class. *)
Lemma split_at_class p s :
  all_chars (λ c, negb (p c)) s = true ∨
  ∃ pre c rest, s = pre +:+ String c rest ∧
                all_chars (λ c, negb (p c)) pre = true ∧ p c = true.
Proof.
  induction s as [|x s IH]; [by left|].
  destruct (p x) eqn:Hx.
  - right. exists "", x, s. by repeat split.
  - destruct IH as [Hs|(pre & c & rest & -> & Hpre & Hc)].
    + left. simpl. by rewrite Hx, Hs.
    + right. exists (String x pre), c, rest. simpl. by rewrite Hx.
Qed.

(** [s.replace(/[class]/g, '')] keeps the characters outside the class. *)
Lemma replace_all_from_chr p : ∀ n s,
  (String.length s < n)%nat →
  replace_all_from n (Chr p) "" s = keep (λ c, negb (p c)) s.
Proof.
  induction n as [|n IH]; intros s Hn; [lia|].
  cbn [replace_all_from]. unfold search.
  destruct (split_at_class p s) as [Hs|(pre & c & rest & -> & Hpre & Hc)].
  - rewrite search_from_chr_none by done. symmetry. by apply keep_all.
  - rewrite search_from_chr_some by done. cbn [f_index f_text f_rest expand].
    rewrite Nat.add_0_l, take_app_length. cbn [String.append].
    rewrite keep_app, (keep_all _ pre) by done. cbn [keep]. rewrite Hc. cbn [negb].
    f_equal. apply IH. rewrite length_app in Hn. simpl in Hn. lia.
Qed.

Lemma replace_all_non_digit s : replace_all non_digit "" s = keep is_digit s.
Proof.
  unfold replace_all, non_digit. rewrite replace_all_from_chr by lia.
  apply keep_ext. intros c. apply negb_involutive.
Qed.

(** *** [/^\d+$/] *)

Lemma iterate_chr_end p : ∀ n s cs,
  (String.length s ≤ n)%nat →
  iterate (Chr p) (λ s' cs', if String.eqb s' "" then Some (s', cs') else None) n s cs
  = if all_chars p s then Some ("", cs) else None.
Proof.
  induction n as [|n IH]; intros [|c s] cs Hn; try done; [simpl in Hn; lia|].
  cbn [iterate rmatch all_chars]. destruct (p c); [|done].
  assert ((String.length s <? String.length (String c s))%nat = true) as ->
    by (apply Nat.ltb_lt; simpl; lia).
  rewrite IH by (simpl in Hn; lia). by destruct (all_chars p s).
Qed.

Lemma test_whole_digits s :
  test_whole (plus digit) s = negb (String.eqb s "") && all_chars is_digit s.
Proof.
  unfold test_whole, plus, digit. destruct s as [|c s]; [done|].
  rewrite rmatch_seq, rmatch_chr. cbn [all_chars].
  change (String.eqb (String c s) "") with false.
  cbn [negb andb]. destruct (is_digit c); [|done].
  rewrite rmatch_star, iterate_chr_end by done.
  by destruct (all_chars is_digit s).
Qed.

(** *** [padStart] *)

Lemma length_repeat_char c n : String.length (repeat_char c n) = n.
Proof. induction n as [|n IH]; simpl; [done|]. by rewrite IH. Qed.

Lemma all_chars_repeat_char p c n : p c = true → all_chars p (repeat_char c n) = true.
Proof. intros Hc. induction n as [|n IH]; simpl; [done|]. by rewrite Hc, IH. Qed.

Lemma length_padStart n c s :
  String.length (padStart n c s) = (n `max` String.length s)%nat.
Proof. unfold padStart. rewrite length_app, length_repeat_char. lia. Qed.

Lemma all_chars_padStart p n c s :
  p c = true → all_chars p s = true → all_chars p (padStart n c s) = true.
Proof.
  intros Hc Hs. unfold padStart. by rewrite all_chars_app, all_chars_repeat_char, Hs.
Qed.

(** A text of three characters. *)
Lemma length_three s :
  String.length s = 3%nat → ∃ a b c, s = String a (String b (String c "")).
Proof.
  destruct s as [|a [|b [|c [|d s]]]]; try done. intros _. by exists a, b, c.
Qed.

(** *** [encodeURIComponent] *)

Lemma encodeURIComponent_app s t :
  encodeURIComponent (s +:+ t) = encodeURIComponent s +:+ encodeURIComponent t.
Proof. induction s as [|c s IH]; simpl; [done|]. by rewrite IH, app_assoc. Qed.

Lemma encodeURIComponent_unreserved s :
  all_chars unreserved s = true → encodeURIComponent s = s.
Proof.
  induction s as [|c s IH]; simpl; [done|].
  intros [Hc Hs]%andb_true_iff. unfold encode_char. rewrite Hc, IH by done. done.
Qed.

End TextFacts.

(** ** The cache of the provider *)
Module OperationsFacts.
Import JS JSFacts Text TextFacts Classifier Provider Operations.

Section Operations.
Context {Repo Data Device Updates Settings : Type}.
Variable getStore : Repo → outcome Data.
Variable stringify : Data → string.
Variable ds_addDevice : NewDevice → Repo → outcome Device * Repo.
Variable ds_updateDevice : string → Updates → Repo → outcome (option Device) * Repo.
Variable ds_setActiveDevice : option string → Repo → outcome bool * Repo.
Variable ds_updateGlobalSettings : SettingsUpdate → Repo → outcome Settings * Repo.
Variable ds_deleteDevice : string → Repo → outcome bool * Repo.
Variable ds_addDeviceLog : LogCall → Repo → outcome unit * Repo.

Abbreviation refreshStore := (refreshStore getStore stringify).
Abbreviation addDevice := (addDevice getStore stringify ds_addDevice).
Abbreviation updateDevice := (@updateDevice _ _ Device _ getStore stringify ds_updateDevice).
Abbreviation setActiveDevice := (setActiveDevice getStore stringify ds_setActiveDevice).
Abbreviation updateGlobalSettings :=
  (@updateGlobalSettings _ _ Settings getStore stringify ds_updateGlobalSettings).
Abbreviation deleteDevice :=
  (deleteDevice getStore stringify ds_deleteDevice ds_addDeviceLog).

Lemma refreshStore_flag w : isRefreshing (refreshStore w) = isRefreshing w.
Proof.
  unfold Provider.refreshStore. destruct (isRefreshing w) eqn:E; [done|].
  reflexivity.
Qed.

Lemma refreshStore_returned w storeData :
  isRefreshing w = false → getStore (repo w) = Returned storeData →
  store (refreshStore w)
  = if String.eqb (stringify (store w)) (stringify storeData) then store w else storeData.
Proof.
  intros Hidle Hget. unfold Provider.refreshStore, refresh_body. rewrite Hidle.
  cbn. by rewrite Hget.
Qed.

Lemma refreshStore_shows w storeData :
  isRefreshing w = false → getStore (repo w) = Returned storeData →
  stringify (store (refreshStore w)) = stringify storeData.
Proof.
  intros Hidle Hget. rewrite (refreshStore_returned _ _ Hidle Hget).
  by destruct (String.eqb_spec (stringify (store w)) (stringify storeData)).
Qed.

Lemma refreshStore_idle_flag w :
  isRefreshing w = false → isRefreshing (refreshStore w) = false.
Proof. intros H. by rewrite refreshStore_flag. Qed.

(** X1. [refreshStore] leaves the flag [isRefreshing] as it found it, so a
    refresh that started idle ends idle even when [getStore] throws.  When
    [getStore] returns a snapshot, the cache afterwards serialises like
    that snapshot: it is the very object it was when it already did, and
    the snapshot otherwise.  When [getStore] throws, the cache is kept. *)
Theorem refresh_publishes_snapshot w :
  isRefreshing (refreshStore w) = isRefreshing w ∧
  (isRefreshing w = false →
   match getStore (repo w) with
   | Returned storeData =>
       stringify (store (refreshStore w)) = stringify storeData ∧
       (stringify (store w) = stringify storeData → store (refreshStore w) = store w) ∧
       (stringify (store w) ≠ stringify storeData → store (refreshStore w) = storeData)
   | Threw _ => store (refreshStore w) = store w
   end).
Proof.
  split; [apply refreshStore_flag|]. intros Hidle.
  destruct (getStore (repo w)) as [storeData|e] eqn:Hget.
  - split; [by apply refreshStore_shows|].
    rewrite (refreshStore_returned _ _ Hidle Hget).
    destruct (String.eqb_spec (stringify (store w)) (stringify storeData)); by split.
  - unfold Provider.refreshStore, refresh_body. rewrite Hidle. cbn. by rewrite Hget.
Qed.

(** X2. A second [refreshStore] right after a first one changes nothing
    but the count of reads: the cache, the repository and the flag are
    those the first refresh left. *)
Theorem refresh_twice_is_refresh_once w :
  store (refreshStore (refreshStore w)) = store (refreshStore w) ∧
  repo (refreshStore (refreshStore w)) = repo (refreshStore w) ∧
  isRefreshing (refreshStore (refreshStore w)) = isRefreshing (refreshStore w).
Proof.
  split; [|split; [by rewrite !ProviderFacts.refreshStore_repo | by rewrite !refreshStore_flag]].
  destruct (isRefreshing w) eqn:Hflag.
  - unfold Provider.refreshStore at 2 3. rewrite Hflag.
    unfold Provider.refreshStore. by rewrite Hflag.
  - set (w1 := refreshStore w).
    assert (isRefreshing w1 = false) as Hidle by (by apply refreshStore_idle_flag).
    assert (repo w1 = repo w) as Hrepo by apply ProviderFacts.refreshStore_repo.
    destruct (getStore (repo w)) as [storeData|e] eqn:Hget.
    + rewrite (refreshStore_returned w1 storeData) by (by rewrite ?Hrepo).
      assert (stringify (store w1) = stringify storeData) as ->
        by (by apply refreshStore_shows).
      by rewrite String.eqb_refl.
    + unfold Provider.refreshStore at 1, refresh_body. rewrite Hidle. cbn.
      by rewrite Hrepo, Hget.
Qed.

(** X3. An operation of the context that changes the repository and
    returns leaves a cache that shows the repository: after [addDevice],
    [updateDevice], [updateGlobalSettings], or a [setActiveDevice] that
    returned true, the cache serialises like the snapshot the repository
    now returns (no refresh being in flight when the operation starts). *)
Theorem successful_operations_publish w w' :
  isRefreshing w = false → (∃ storeData, getStore (repo w') = Returned storeData) →
  (∀ device newDevice, addDevice device w = (Returned newDevice, w') → shows getStore stringify w') ∧
  (∀ deviceId updates updatedDevice,
     updateDevice deviceId updates w = (Returned updatedDevice, w') →
     shows getStore stringify w') ∧
  (∀ updates updatedSettings,
     updateGlobalSettings updates w = (Returned updatedSettings, w') →
     shows getStore stringify w') ∧
  (∀ deviceId, setActiveDevice deviceId w = (Returned true, w') →
     shows getStore stringify w').
Proof.
  intros Hidle [storeData Hget].
  assert (∀ r1, w' = refreshStore (set_repo r1 w) → shows getStore stringify w') as Hshow.
  { intros r1 ->. exists storeData. split; [done|].
    rewrite ProviderFacts.refreshStore_repo in Hget. by apply refreshStore_shows. }
  repeat split.
  - intros device newDevice. unfold Operations.addDevice.
    destruct (missing_fields device); [done|].
    destruct (ds_addDevice _ _) as [[d|e] r1]; [|done]. intros [= _ <-]. by eapply Hshow.
  - intros deviceId updates updatedDevice. unfold Operations.updateDevice.
    destruct (ds_updateDevice _ _ _) as [[d|e] r1]; [|done]. intros [= _ <-]. by eapply Hshow.
  - intros updates updatedSettings. unfold Operations.updateGlobalSettings.
    destruct (ds_updateGlobalSettings _ _) as [[d|e] r1]; [|done].
    intros [= _ <-]. by eapply Hshow.
  - intros deviceId. unfold Operations.setActiveDevice.
    destruct (ds_setActiveDevice _ _) as [[[]|e] r1]; [|done..].
    intros [= <-]. by eapply Hshow.
Qed.

(** X4. [addDevice] of the context returns a device only for a name, a
    unit number and a password that are not empty, and the device it
    returns is the one the repository returned for the same fields with a
    list of authorized users.  When it throws, the repository has not been
    read again; when a required field is missing, the repository has not
    been called and the error names the missing fields. *)
Theorem add_device_checks_required_fields device w :
  (∀ newDevice w', addDevice device w = (Returned newDevice, w') →
     name device ≠ "" ∧ unitNumber device ≠ "" ∧ password device ≠ "" ∧
     authorizedUsers (deviceToAdd device) ≠ None ∧
     ∃ r1, ds_addDevice (deviceToAdd device) (repo w) = (Returned newDevice, r1) ∧
           repo w' = r1) ∧
  (∀ e w', addDevice device w = (Threw e, w') → reads w' = reads w ∧ store w' = store w) ∧
  (name device = "" ∨ unitNumber device = "" ∨ password device = "" →
   addDevice device w = (Threw MissingFieldsError, w)).
Proof.
  unfold Operations.addDevice, missing_fields.
  destruct (String.eqb_spec (name device) "") as [Hn|Hn];
    [|destruct (String.eqb_spec (unitNumber device) "") as [Hu|Hu];
      [|destruct (String.eqb_spec (password device) "") as [Hp|Hp]]];
    cbn [orb];
    try (split; [done|split; [by intros ? ? [= _ <-]|done]]).
  destruct (ds_addDevice _ _) as [[d|e'] r1].
  - split; [|split]; [|done|by intros [?|[?|?]]].
    intros newDevice w' [= <- <-]. repeat split; try done.
    exists r1. split; [done|]. apply ProviderFacts.refreshStore_repo.
  - split; [done|]. split; [by intros ? ? [= _ <-]|by intros [?|[?|?]]].
Qed.

End Operations.

(** The provider over the repository of [Repository], with an
    [addDevice] that gives the new device the id [gate-3]. *)
Lemma refresh_publishes_snapshot_witness :
  let w := Repository.loaded Repository.two_gates in
  isRefreshing w = false ∧
  Repository.stringify (store (Repository.refreshStore w))
  = Repository.stringify Repository.two_gates.
Proof.
  split; [reflexivity|].
  pose proof (refresh_publishes_snapshot Repository.getStore Repository.stringify
                (Repository.loaded Repository.two_gates)) as [_ H].
  specialize (H eq_refl). cbn in H. apply H.
Defined.

(** The provider over the repository of [Repository]: adding a third
    gate changes the repository, and the cache, which showed the two gates,
    shows the three of them afterwards. *)
Lemma successful_operations_publish_witness :
  RepositoryOps.garage_added.1 = Returned (Repository.Build_Device "gate-3" "Garage") ∧
  length (Repository.devices (repo RepositoryOps.garage_added.2)) = 3%nat ∧
  Repository.stringify (store RepositoryOps.garage_added.2)
  ≠ Repository.stringify (store (Repository.loaded Repository.two_gates)) ∧
  shows Repository.getStore Repository.stringify RepositoryOps.garage_added.2.
Proof.
  split; [reflexivity|]. split; [reflexivity|]. split; [by vm_compute|].
  apply (proj1 (successful_operations_publish (Updates := unit) (Settings := unit)
                  Repository.getStore Repository.stringify
                  (RepositoryOps.addDevice "gate-3")
                  (λ _ _ st, (Returned None, st))
                  (λ _ st, (Returned true, st))
                  (λ _ st, (Returned (), st))
                  (Repository.loaded Repository.two_gates)
                  RepositoryOps.garage_added.2
                  eq_refl (ex_intro _ _ eq_refl))
           (AddDevicePage.submitted "Garage" "0400333444" "t0" "t1")
           (Repository.Build_Device "gate-3" "Garage")).
  reflexivity.
Defined.

End OperationsFacts.

(** ** The device forms *)
Module FormFacts.
Import JS JSFacts Text TextFacts Provider Operations LocateFacts.

Lemma digit_not_space c : is_digit c = true → is_space c = false.
Proof. destruct c as [[] [] [] [] [] [] [] []]; done. Qed.

Lemma trim_not_blank c s : is_space c = false → trim (String c s) ≠ "".
Proof.
  intros Hc. unfold trim. cbn [trimStart]. rewrite Hc.
  by rewrite trimEnd_nonspace.
Qed.

Lemma onChangeText_keeps text :
  EditDevicePage.onChangeText text = take 4 (keep is_digit text).
Proof.
  unfold EditDevicePage.onChangeText, slice_to. by rewrite replace_all_non_digit.
Qed.

(** X5. The password field of the edit form keeps the first four digits
    of what is typed and nothing else: the filtered text is made of
    digits, is at most four characters long, and filtering it again
    changes nothing.  A text of at most four digits is kept as typed. *)
Theorem password_field_keeps_four_digits text :
  EditDevicePage.onChangeText text = take 4 (keep is_digit text) ∧
  all_chars is_digit (EditDevicePage.onChangeText text) = true ∧
  (String.length (EditDevicePage.onChangeText text) ≤ 4)%nat ∧
  EditDevicePage.onChangeText (EditDevicePage.onChangeText text)
  = EditDevicePage.onChangeText text ∧
  (all_chars is_digit text = true → (String.length text ≤ 4)%nat →
   EditDevicePage.onChangeText text = text).
Proof.
  rewrite !onChangeText_keeps.
  assert (all_chars is_digit (take 4 (keep is_digit text)) = true) as Hdigits
    by apply all_chars_take, all_chars_keep.
  assert (String.length (take 4 (keep is_digit text)) ≤ 4)%nat as Hlen
    by (rewrite length_take; lia).
  repeat split; try done.
  - rewrite keep_all by done. by apply take_all.
  - intros Hd Hl. rewrite keep_all by done. by apply take_all.
Qed.

Lemma password_field_keeps_four_digits_witness :
  EditDevicePage.onChangeText "12a3-456" = "1234" ∧
  EditDevicePage.onChangeText "0420" = "0420".
Proof.
  split.
  - rewrite (proj1 (password_field_keeps_four_digits "12a3-456")). reflexivity.
  - apply (password_field_keeps_four_digits "0420"); [reflexivity | simpl; lia].
Defined.

(** The three checks on the password come to one: exactly four digits. *)
Lemma password_check password :
  String.eqb (trim password) "" || negb (Nat.eqb (String.length password) 4)
  || negb (test_whole (plus digit) password)
  = negb (Nat.eqb (String.length password) 4 && all_chars is_digit password).
Proof.
  rewrite test_whole_digits.
  destruct (Nat.eqb_spec (String.length password) 4) as [Hl|Hl];
    [|by rewrite orb_true_r].
  cbn [negb orb andb]. rewrite orb_false_r.
  destruct password as [|c s]; [done|].
  change (String.eqb (String c s) "") with false. cbn [negb andb].
  destruct (all_chars is_digit (String c s)) eqn:Hd; [|by rewrite orb_true_r].
  rewrite orb_false_r. apply String.eqb_neq, trim_not_blank, digit_not_space.
  simpl in Hd. by apply andb_true_iff in Hd as [? _].
Qed.

(** X6. The edit form is accepted exactly when the name and the unit
    number hold something other than white space and the password is
    made of exactly four digits; the alert of a refused form names the
    first check that failed. *)
Theorem edit_form_accepts_iff deviceName unitNumber password :
  ((EditDevicePage.validateForm deviceName unitNumber password).1 = true ↔
   trim deviceName ≠ "" ∧ trim unitNumber ≠ "" ∧
   String.length password = 4%nat ∧ all_chars is_digit password = true) ∧
  ((EditDevicePage.validateForm deviceName unitNumber password).2
   = Some EditDevicePage.PasswordError ↔
   trim deviceName ≠ "" ∧ trim unitNumber ≠ "" ∧
   ¬ (String.length password = 4%nat ∧ all_chars is_digit password = true)).
Proof.
  unfold EditDevicePage.validateForm. rewrite password_check.
  destruct (String.eqb_spec (trim deviceName) "") as [Hn|Hn];
    [cbn; split; split; try done; by intros (? & _)|].
  destruct (String.eqb_spec (trim unitNumber) "") as [Hu|Hu];
    [cbn; split; split; try done; by intros (_ & ? & _)|].
  destruct (Nat.eqb_spec (String.length password) 4) as [Hl|Hl];
    destruct (all_chars is_digit password) eqn:Hd; cbn; split; split; try done.
  - by intros (_ & _ & H); destruct H.
  - by intros (_ & _ & _ & ?).
  - intros _. repeat split; try done. by intros [_ ?].
  - by intros (_ & _ & ? & _).
  - intros _. repeat split; try done. by intros [? _].
  - by intros (_ & _ & ? & _).
  - intros _. repeat split; try done. by intros [? _].
Qed.

(** X7. Whatever is typed into the password field of the edit form, the
    form accepts the filtered password exactly when the name and the unit
    number are not blank and the typed text holds at least four digits. *)
Theorem typed_password_is_accepted_iff deviceName unitNumber text :
  (EditDevicePage.validateForm deviceName unitNumber
     (EditDevicePage.onChangeText text)).1 = true ↔
  trim deviceName ≠ "" ∧ trim unitNumber ≠ "" ∧
  (4 ≤ String.length (keep is_digit text))%nat.
Proof.
  unfold EditDevicePage.validateForm. rewrite password_check, onChangeText_keeps.
  rewrite all_chars_take by apply all_chars_keep. rewrite andb_true_r, length_take.
  destruct (String.eqb_spec (trim deviceName) "") as [Hn|Hn];
    [cbn; split; [done|by intros (? & _)]|].
  destruct (String.eqb_spec (trim unitNumber) "") as [Hu|Hu];
    [cbn; split; [done|by intros (_ & ? & _)]|].
  destruct (Nat.eqb_spec (4 `min` String.length (keep is_digit text)) 4) as [Hl|Hl]; cbn.
  - split; [|done]. intros _. repeat split; try done. lia.
  - split; [done|]. intros (_ & _ & ?). lia.
Qed.

Section AddDevicePage.
Context {Repo Data Device Settings : Type}.
Variable getStore : Repo → outcome Data.
Variable stringify : Data → string.
Variable ds_addDevice : NewDevice → Repo → outcome Device * Repo.
Variable updateGlobalSettings :
  SettingsUpdate → World Repo Data → outcome Settings * World Repo Data.
Variable refreshDevices : World Repo Data → outcome unit * World Repo Data.
Variable device_id : Device → string.

Abbreviation addDevice := (addDevice getStore stringify ds_addDevice).
Abbreviation handleAddDevice :=
  (AddDevicePage.handleAddDevice addDevice updateGlobalSettings refreshDevices device_id).

(** X8. The add form and the context agree on what a device needs.  A
    form that is refused shows its alert and calls nothing.  A form that
    is accepted submits a device that passes the check of the required
    fields, so the repository is called with exactly the submitted
    device; and the page goes to step 1 only with the id of the device
    the repository returned. *)
Theorem add_form_reaches_the_repository deviceName unitNumber created updated w :
  let device := AddDevicePage.submitted deviceName unitNumber created updated in
  ((AddDevicePage.validateForm deviceName unitNumber).1 = false →
   handleAddDevice deviceName unitNumber created updated w
   = ((AddDevicePage.validateForm deviceName unitNumber).2, w)) ∧
  ((AddDevicePage.validateForm deviceName unitNumber).1 = true →
   missing_fields device = false ∧ deviceToAdd device = device ∧
   addDevice device w
   = match ds_addDevice device (repo w) with
     | (Returned newDevice, r1) =>
         (Returned newDevice, refreshStore getStore stringify (set_repo r1 w))
     | (Threw e, r1) => (Threw e, set_repo r1 w)
     end) ∧
  (∀ pathname id w',
     handleAddDevice deviceName unitNumber created updated w = ([AddDevicePage.Push pathname id], w') →
     pathname = "/step1" ∧
     ∃ newDevice r1, ds_addDevice device (repo w) = (Returned newDevice, r1) ∧
                     id = device_id newDevice).
Proof.
  intros device.
  assert ((AddDevicePage.validateForm deviceName unitNumber).1 = true →
          missing_fields device = false) as Hvalid.
  { unfold AddDevicePage.validateForm, missing_fields. subst device.
    cbn [Operations.name Operations.unitNumber Operations.password AddDevicePage.submitted].
    destruct (String.eqb_spec (trim deviceName) "") as [|Hn]; [done|].
    destruct (String.eqb_spec (trim unitNumber) "") as [|Hu]; [done|]. intros _.
    destruct deviceName; [done|]. destruct unitNumber; [done|]. reflexivity. }
  split; [|split].
  - unfold AddDevicePage.handleAddDevice.
    destruct (AddDevicePage.validateForm deviceName unitNumber) as [[] alerts]; done.
  - intros Hv. split; [by apply Hvalid|]. split; [done|].
    unfold Operations.addDevice. rewrite (Hvalid Hv). done.
  - intros pathname id w'. unfold AddDevicePage.handleAddDevice.
    destruct (AddDevicePage.validateForm deviceName unitNumber) as [[] alerts] eqn:Ev;
      cbn [negb]; cycle 1.
    { unfold AddDevicePage.validateForm in Ev.
      destruct (String.eqb _ _); [by injection Ev as <-|].
      destruct (String.eqb _ _); [by injection Ev as <-|]. done. }
    fold device. unfold Operations.addDevice. rewrite Hvalid by done.
    change (deviceToAdd device) with device.
    destruct (ds_addDevice device (repo w)) as [[newDevice|e] r1]; [|done].
    destruct (updateGlobalSettings _ _) as [[?|?] w2]; [|done].
    destruct (refreshDevices w2) as [[?|?] w3]; [|done].
    intros [= <- <- _]. split; [done|]. by exists newDevice, r1.
Qed.
End AddDevicePage.

Lemma edit_form_accepts_iff_witness :
  (EditDevicePage.validateForm "Home Gate" "0400111222" "1234").1 = true ∧
  (EditDevicePage.validateForm "Home Gate" "0400111222" "12a4").2
  = Some EditDevicePage.PasswordError.
Proof.
  split.
  - apply (edit_form_accepts_iff "Home Gate" "0400111222" "1234"). by repeat split.
  - apply (edit_form_accepts_iff "Home Gate" "0400111222" "12a4").
    repeat split; try done. by intros [_ ?].
Defined.

End FormFacts.

(** ** What [JSON.parse] returns is a value of the model *)
Module JsonWfFacts.
Import JS JSFacts Json JsonFacts.

Abbreviation member_ok :=
  (λ kv : string * json, match kv with (_, x) => well_formed x end).

Lemma obj_set_keys_subset k v props x :
  x ∈ map fst (obj_set k v props) → x = k ∨ x ∈ map fst props.
Proof.
  induction props as [|[k' v'] props IH]; cbn [obj_set map fst].
  - intros ->%list_elem_of_singleton. by left.
  - destruct (String.eqb_spec k' k) as [->|Hne]; [|destruct (comes_before k k')];
      cbn [map fst].
    + intros [->|?]%elem_of_cons; [by left | right; by right].
    + intros [->|?]%elem_of_cons; [by left | by right].
    + intros [->|[->|?]%IH]%elem_of_cons; [right; by left | by left | right; by right].
Qed.

(** Defining a property keeps the keys distinct and in the order an
    object keeps them. *)
Lemma obj_set_keys k v props :
  NoDup (map fst props) → js_ordered (map fst props) = true →
  NoDup (map fst (obj_set k v props)) ∧ js_ordered (map fst (obj_set k v props)) = true.
Proof.
  induction props as [|[k' v'] props IH]; cbn [obj_set map fst].
  - intros _ _. split; [apply NoDup_singleton | done].
  - intros [Hk Hnd]%NoDup_cons. cbn [js_ordered].
    intros [Hlate Hord]%andb_true_iff.
    assert (∀ x, x ∈ map fst props → comes_before x k' = false) as Hlate'.
    { intros x Hx%list_elem_of_In. rewrite forallb_forall in Hlate.
      by apply negb_true_iff, Hlate. }
    destruct (String.eqb_spec k' k) as [->|Hne].
    { cbn [map fst js_ordered]. split; [by apply NoDup_cons|]. by rewrite Hlate, Hord. }
    destruct (comes_before k k') eqn:Hbefore; cbn [map fst js_ordered].
    + split.
      * apply NoDup_cons. split; [|by apply NoDup_cons].
        intros [->|Hin]%elem_of_cons; [done|].
        apply Hlate' in Hin. congruence.
      * rewrite Hlate, Hord, !andb_true_r. cbn [forallb]. apply andb_true_iff. split.
        -- apply negb_true_iff. unfold comes_before in *.
           destruct (array_index k) as [n|]; [|done].
           destruct (array_index k') as [n'|]; [|done].
           apply N.ltb_lt in Hbefore. apply N.ltb_ge. lia.
        -- apply forallb_forall. intros x Hx%list_elem_of_In. apply negb_true_iff.
           apply Hlate' in Hx. unfold comes_before in *.
           destruct (array_index x) as [nx|]; [|done].
           destruct (array_index k) as [n|]; [|done].
           destruct (array_index k') as [n'|]; [|done].
           apply N.ltb_lt in Hbefore. apply N.ltb_ge in Hx. apply N.ltb_ge. lia.
    + destruct (IH Hnd Hord) as [IH1 IH2]. split.
      * apply NoDup_cons. split; [|done].
        intros [->|?]%obj_set_keys_subset; done.
      * rewrite IH2, andb_true_r. apply forallb_forall. intros x Hx%list_elem_of_In.
        apply negb_true_iff.
        apply obj_set_keys_subset in Hx as [->|Hx]; [done | by apply Hlate'].
Qed.

Lemma obj_set_members (Q : string * json → bool) k v props :
  Q (k, v) = true → forallb Q props = true → forallb Q (obj_set k v props) = true.
Proof.
  intros Hkv. induction props as [|[k' v'] props IH]; cbn [obj_set forallb].
  - by rewrite Hkv.
  - intros [H1 H2]%andb_true_iff.
    destruct (String.eqb k' k); [|destruct (comes_before k k')]; cbn [forallb].
    + by rewrite Hkv, H2.
    + by rewrite Hkv, H1, H2.
    + by rewrite H1, IH.
Qed.

(** A new property is added to those there are. *)
Lemma obj_set_perm k v props :
  k ∉ map fst props → obj_set k v props ≡ₚ (k, v) :: props.
Proof.
  induction props as [|[k' v'] props IH]; [done|]. cbn [map fst obj_set].
  intros [Hne Hk]%not_elem_of_cons.
  destruct (String.eqb_spec k' k) as [->|_]; [done|].
  destruct (comes_before k k'); [done|].
  rewrite IH by done. apply perm_swap.
Qed.

Lemma obj_set_well_formed k v props :
  well_formed v = true →
  well_formed (JObj props) = true → well_formed (JObj (obj_set k v props)) = true.
Proof.
  intros Hv. cbn [well_formed].
  intros [[Hnd%bool_decide_eq_true Hord]%andb_true_iff Hall]%andb_true_iff.
  destruct (obj_set_keys k v props Hnd Hord) as [H1 H2].
  apply andb_true_iff. split; [apply andb_true_iff; split|].
  - by apply bool_decide_eq_true.
  - done.
  - by apply obj_set_members.
Qed.

(** Keys none of which is made of digits are in order as they are. *)
Lemma js_ordered_no_index keys :
  Forall (λ k, index_like k = false) keys → js_ordered keys = true.
Proof.
  induction 1 as [|k keys Hk Hall IH]; [done|]. cbn [js_ordered].
  rewrite IH, andb_true_r. apply forallb_forall. intros k' Hin%list_elem_of_In.
  rewrite Forall_forall in Hall. apply negb_true_iff, not_index_comes_late.
  by apply not_index_like, Hall.
Qed.

Lemma well_formed_no_index props :
  NoDup (map fst props) →
  Forall (λ kv : string * json, index_like kv.1 = false ∧ well_formed kv.2 = true) props →
  well_formed (JObj props) = true.
Proof.
  intros Hnd Hall. cbn [well_formed].
  apply andb_true_iff. split; [apply andb_true_iff; split|].
  - by apply bool_decide_eq_true.
  - apply js_ordered_no_index, Forall_map. eapply Forall_impl; [exact Hall|].
    by intros kv [? _].
  - apply forallb_forall. intros [k x] Hin%list_elem_of_In.
    rewrite Forall_forall in Hall. by destruct (Hall _ Hin) as [_ ?].
Qed.

Lemma obj_of_members_well_formed ms :
  forallb member_ok ms = true → well_formed (JObj (obj_of_members ms)) = true.
Proof.
  unfold obj_of_members.
  assert (∀ acc, well_formed (JObj acc) = true → forallb member_ok ms = true →
                 well_formed (JObj (fold_left (λ props kv, obj_set kv.1 kv.2 props) ms acc))
                 = true) as H.
  { induction ms as [|[k v] ms IH]; intros acc Hacc Hms; [done|].
    cbn [forallb] in Hms. apply andb_true_iff in Hms as [Hkv Hms].
    cbn [fold_left fst snd]. apply IH; [|done]. by apply obj_set_well_formed. }
  by apply H.
Qed.

Lemma parse_digits_range s n rest : parse_digits s = Ok (n, rest) → 0 ≤ n ≤ max_safe.
Proof.
  unfold parse_digits. destruct s as [|c r]; [done|].
  destruct (negb (is_digit c)); [done|].
  destruct (if Ascii.eqb c "0" then _ else _) as [ds rest'].
  destruct (starts_fraction rest'); [done|].
  destruct (DecimalString.NilEmpty.uint_of_string ds) as [u|]; [|done].
  destruct (Z.leb_spec (Z.of_N (N.of_uint u)) max_safe); [|done].
  intros [= <- _]. lia.
Qed.

Lemma parse_number_well_formed s v rest :
  parse_number s = Ok (v, rest) → well_formed v = true.
Proof.
  unfold parse_number. destruct s as [|c r]; [done|].
  destruct (Ascii.eqb c "-").
  - destruct (parse_digits r) as [[n rest']| |] eqn:E; [|done..]. cbn [bind].
    intros [= <- _]. apply parse_digits_range in E. cbn [well_formed].
    apply andb_true_iff. split; apply Z.leb_le; lia.
  - destruct (parse_digits (String c r)) as [[n rest']| |] eqn:E; [|done..]. cbn [bind].
    intros [= <- _]. apply parse_digits_range in E. cbn [well_formed].
    assert (0 ≤ max_safe) by done.
    apply andb_true_iff. split; apply Z.leb_le; lia.
Qed.

Lemma parse_literal_well_formed word v s x rest :
  well_formed v = true → parse_literal word v s = Ok (x, rest) → well_formed x = true.
Proof.
  intros Hv. unfold parse_literal. destruct (starts_with word s); [|done].
  by intros [= <- _].
Qed.

Lemma parse_well_formed n :
  (∀ s v rest, parse_value n s = Ok (v, rest) → well_formed v = true) ∧
  (∀ s vs rest, parse_elements n s = Ok (vs, rest) → forallb well_formed vs = true) ∧
  (∀ s ms rest, parse_members n s = Ok (ms, rest) → forallb member_ok ms = true).
Proof.
  induction n as [|n (IHv & IHe & IHm)]; [done|]. split; [|split].
  - intros s v rest. cbn [parse_value].
    destruct (skip_ws s) as [|c r]; [done|].
    destruct (Ascii.eqb c "{").
    { destruct (skip_ws r) as [|c' r']; [done|].
      destruct (Ascii.eqb c' "}"); [by intros [= <- _]|].
      destruct (parse_members n r) as [[ms rest']| |] eqn:E; [|done..]. cbn [bind].
      intros [= <- _]. apply obj_of_members_well_formed. by eapply IHm. }
    destruct (Ascii.eqb c "[").
    { destruct (skip_ws r) as [|c' r']; [done|].
      destruct (Ascii.eqb c' "]"); [by intros [= <- _]|].
      destruct (parse_elements n r) as [[vs rest']| |] eqn:E; [|done..]. cbn [bind].
      intros [= <- _]. cbn [well_formed]. by eapply IHe. }
    destruct (Ascii.eqb c dquote).
    { destruct (parse_chars r) as [[t rest']| |]; [|done..]. cbn [bind].
      by intros [= <- _]. }
    destruct (Ascii.eqb c "t"); [by apply parse_literal_well_formed|].
    destruct (Ascii.eqb c "f"); [by apply parse_literal_well_formed|].
    destruct (Ascii.eqb c "n"); [by apply parse_literal_well_formed|].
    apply parse_number_well_formed.
  - intros s vs rest. cbn [parse_elements].
    destruct (parse_value n s) as [[v r]| |] eqn:Ev; [|done..]. cbn [bind].
    destruct (skip_ws r) as [|c r']; [done|].
    destruct (Ascii.eqb c ",").
    { destruct (parse_elements n r') as [[vs' rest']| |] eqn:Ee; [|done..]. cbn [bind].
      intros [= <- _]. cbn [forallb]. by rewrite (IHv _ _ _ Ev), (IHe _ _ _ Ee). }
    destruct (Ascii.eqb c "]"); [|done].
    intros [= <- _]. cbn [forallb]. by rewrite (IHv _ _ _ Ev).
  - intros s ms rest. cbn [parse_members].
    destruct (skip_ws s) as [|q r]; [done|].
    destruct (negb (Ascii.eqb q dquote)); [done|].
    destruct (parse_chars r) as [[k r1]| |]; [|done..]. cbn [bind].
    destruct (skip_ws r1) as [|c r2]; [done|].
    destruct (negb (Ascii.eqb c ":")); [done|].
    destruct (parse_value n r2) as [[v r3]| |] eqn:Ev; [|done..]. cbn [bind].
    destruct (skip_ws r3) as [|c' r4]; [done|].
    destruct (Ascii.eqb c' ",").
    { destruct (parse_members n r4) as [[ms' rest']| |] eqn:Em; [|done..]. cbn [bind].
      intros [= <- _]. cbn [forallb]. by rewrite (IHv _ _ _ Ev), (IHm _ _ _ Em). }
    destruct (Ascii.eqb c' "}"); [|done].
    intros [= <- _]. cbn [forallb]. by rewrite (IHv _ _ _ Ev).
Qed.

(** Every value [JSON.parse] returns is well formed. *)
Lemma JSON_parse_well_formed text v : JSON_parse text = Ok v → well_formed v = true.
Proof.
  unfold JSON_parse.
  destruct (parse_value _ text) as [[x rest]| |] eqn:E; [|done..]. cbn [bind].
  destruct (skip_ws rest); [|done]. intros [= <-].
  by eapply (proj1 (parse_well_formed _)).
Qed.

End JsonWfFacts.

(** ** More on the command classifier *)
Module CommandFacts.
Import JS JSFacts Text TextFacts Classifier ClassifierFacts.

Local Arguments consumed : simpl never.

(** A text cannot hold a pattern with a character none of its own
    characters is. *)
Lemma no_pattern (P : ascii → bool) pat s :
  all_chars P s = true → all_chars P pat = false → includes pat s = false.
Proof.
  intros Hs Hpat. apply includes_false. intros (pre & post & ->).
  rewrite !all_chars_app in Hs. apply andb_true_iff in Hs as [_ Hs].
  apply andb_true_iff in Hs as [Hs _]. congruence.
Qed.

Lemma not_upper_differs L c :
  is_upper L = true → negb (is_upper c) = true → Ascii.eqb L c = false.
Proof.
  intros HL Hc. destruct (Ascii.eqb_spec L c) as [<-|]; [|done].
  by rewrite HL in Hc.
Qed.

Lemma digit_not_upper c : is_digit c = true → negb (is_upper c) = true.
Proof. destruct c as [[] [] [] [] [] [] [] []]; done. Qed.

(** A match somewhere makes [test] true; no match anywhere, when the
    first character of the pattern occurs nowhere. *)
Lemma search_from_some_later r pre s i :
  is_Some (match_here r s) → is_Some (search_from r (pre +:+ s) i).
Proof.
  intros [[rest cs] Hs]. revert i. induction pre as [|c pre IH]; intros i.
  - cbn [String.append]. destruct s; cbn [search_from]; rewrite Hs; by eexists.
  - cbn [String.append search_from]. destruct (match_here r (String c (pre +:+ s))) as [[??]|]; [by eexists|apply IH].
Qed.

Lemma test_later r pre s : is_Some (match_here r s) → test r (pre +:+ s) = true.
Proof.
  intros H. unfold test, search. apply bool_decide_eq_true.
  by apply search_from_some_later.
Qed.

Lemma search_from_skip r (P : ascii → bool) pre s i :
  (∀ c t, P c = true → match_here r (String c t) = None) →
  all_chars P pre = true →
  search_from r (pre +:+ s) i = search_from r s (i + String.length pre).
Proof.
  intros Hr. revert i. induction pre as [|c pre IH]; intros i Hpre.
  - cbn [String.append String.length]. by rewrite Nat.add_0_r.
  - cbn [all_chars] in Hpre. apply andb_true_iff in Hpre as [Hc Hpre].
    cbn [String.append search_from String.length]. rewrite (Hr _ _ Hc), IH by done.
    f_equal. lia.
Qed.

Lemma search_from_never r (P : ascii → bool) s i :
  (∀ c t, P c = true → match_here r (String c t) = None) →
  match_here r "" = None →
  all_chars P s = true → search_from r s i = None.
Proof.
  intros Hr H0 Hs. rewrite <-(app_empty_r s), (search_from_skip r P) by done.
  cbn [search_from]. by rewrite H0.
Qed.

Lemma test_never r (P : ascii → bool) s :
  (∀ c t, P c = true → match_here r (String c t) = None) →
  match_here r "" = None →
  all_chars P s = true → test r s = false.
Proof.
  intros Hr H0 Hs. unfold test, search. rewrite (search_from_never r P) by done.
  apply bool_decide_eq_false. by intros [? ?].
Qed.

(** The three shapes start with a letter. *)
Lemma pwd_change_first c t :
  Ascii.eqb "P" c = false → match_here re_pwd_change (String c t) = None.
Proof. intros H. unfold match_here, re_pwd_change. cbn [rmatch lit]. by rewrite H. Qed.

Lemma add_user_first c t :
  Ascii.eqb "A" c = false → match_here re_add_user (String c t) = None.
Proof. intros H. unfold match_here, re_add_user. cbn [rmatch lit]. by rewrite H. Qed.

Lemma remove_user_first c t :
  Ascii.eqb "A" c = false → match_here re_remove_user (String c t) = None.
Proof. intros H. unfold match_here, re_remove_user. cbn [rmatch lit]. by rewrite H. Qed.

Lemma suffix_of_app a s t : suffix_of s t → suffix_of s (a +:+ t).
Proof. intros [p ->]. exists (a +:+ p). by rewrite app_assoc. Qed.

(** X9. The password is never masked: whatever the command, the detail
    of the log entry ends with the command as it was sent, and the entry
    carries the device id and the success flag it was given. *)
Theorem command_is_logged_verbatim dev command ok :
  (∃ prefix, details (logSMSOperation dev command ok) = prefix +:+ command) ∧
  deviceId (logSMSOperation dev command ok) = dev ∧
  success (logSMSOperation dev command ok) = ok.
Proof.
  unfold logSMSOperation. rewrite maskedCommand_id.
  repeat match goal with |- context [if ?b then _ else _] =>
    lazymatch b with
    | String.eqb _ _ => fail
    | _ => destruct b
    end end; cbn [details deviceId success];
  (split; [|done]).
  all: repeat apply suffix_of_app; apply suffix_of_refl.
Qed.

(** X11. Every rule of the classifier asks for an upper-case letter: a
    command without one is logged as an unknown command of category
    relay, with the command itself as the detail. *)
Theorem command_without_capitals_is_unknown dev command ok :
  all_chars (λ c, negb (is_upper c)) command = true →
  logSMSOperation dev command ok = Build_LogCall dev "Unknown Command" command ok relay.
Proof.
  intros Hlow. unfold logSMSOperation.
  rewrite !(no_pattern _ _ _ Hlow) by reflexivity.
  rewrite (test_never re_pwd_change _ command
             (λ c t H, pwd_change_first c t (not_upper_differs "P" c eq_refl H))
             eq_refl Hlow).
  rewrite (test_never re_add_user _ command
             (λ c t H, add_user_first c t (not_upper_differs "A" c eq_refl H))
             eq_refl Hlow).
  by rewrite (test_never re_remove_user _ command
                (λ c t H, remove_user_first c t (not_upper_differs "A" c eq_refl H))
                eq_refl Hlow).
Qed.

Lemma command_without_capitals_is_unknown_witness :
  logSMSOperation "gate-1" "1234#status" false
  = Build_LogCall "gate-1" "Unknown Command" "1234#status" false relay.
Proof.
  apply (command_without_capitals_is_unknown "gate-1" "1234#status" false).
  reflexivity.
Defined.

(** X12. The category of a log entry follows from its action: user
    management is of category user, a status check of category system,
    the gate commands and the unknown command of category relay, and the
    four kinds of setting of category settings. *)
Theorem category_follows_action dev command ok :
  let entry := logSMSOperation dev command ok in
  (cat entry = user ↔ action entry = "User Management") ∧
  (cat entry = system ↔ action entry = "Status Check") ∧
  (cat entry = relay ↔
   action entry = "Gate Open Command" ∨ action entry = "Gate Close Command" ∨
   action entry = "Unknown Command") ∧
  (cat entry = settings ↔
   action entry = "Relay Timing Setting" ∨ action entry = "Access Control Setting" ∨
   action entry = "Admin Registration" ∨ action entry = "Password Change").
Proof.
  unfold logSMSOperation.
  repeat match goal with |- context [if ?b then _ else _] =>
    lazymatch b with
    | String.eqb _ _ => fail
    | _ => destruct b
    end end; cbn [cat action]; repeat split; try done; intros H;
    repeat (destruct H as [H|H]; try done); tauto.
Qed.

(** *** The three rules that look at the shape of a command *)

Lemma rmatch_eps s cs k : rmatch Eps s cs k = k s cs.
Proof. reflexivity. Qed.

(** A repetition of [[^x]] runs up to the first [x]. *)
Lemma iterate_any_but x k rest cs res u : ∀ n,
  (String.length u ≤ n)%nat →
  all_chars (λ c, negb (Ascii.eqb c x)) u = true →
  k (String x rest) cs = Some res →
  iterate (any_but x) k n (u +:+ String x rest) cs = Some res.
Proof.
  induction u as [|c u IH]; intros n Hn Hu Hk.
  - cbn [String.append]. destruct n as [|n]; [done|].
    cbn [iterate]. unfold any_but at 1. rewrite rmatch_chr, Ascii.eqb_refl. done.
  - cbn [all_chars] in Hu. apply andb_true_iff in Hu as [Hc Hu].
    cbn [String.append]. destruct n as [|n]; [simpl in Hn; lia|].
    cbn [iterate]. unfold any_but at 1. rewrite rmatch_chr, Hc.
    assert ((String.length (u +:+ String x rest)
             <? String.length (String c (u +:+ String x rest)))%nat = true) as ->
      by (apply Nat.ltb_lt; simpl; lia).
    rewrite IH; [done| simpl in Hn; lia | done | done].
Qed.

Lemma length_four s :
  String.length s = 4%nat → ∃ a b c d, s = String a (String b (String c (String d ""))).
Proof.
  destruct s as [|a [|b [|c [|d [|e s]]]]]; try done. intros _. by exists a, b, c, d.
Qed.

Ltac rstep :=
  first [rewrite rmatch_seq | rewrite rmatch_chr | rewrite rmatch_eps]; cbv beta.

Lemma pwd_change_here a b c d e f g h rest :
  is_digit a = true → is_digit b = true → is_digit c = true → is_digit d = true →
  is_digit e = true → is_digit f = true → is_digit g = true → is_digit h = true →
  is_Some (match_here re_pwd_change
    (String "P" (String a (String b (String c (String d
       (String e (String f (String g (String h (String "#" rest))))))))))).
Proof.
  intros Ha Hb Hc Hd He Hf Hg Hh.
  unfold match_here, re_pwd_change, digit. cbn [rmatch lit times].
  rewrite Ha, Hb, Hc, Hd, He, Hf, Hg, Hh. by eexists.
Qed.

Lemma add_user_here a b c p phone rest :
  is_digit a = true → is_digit b = true → is_digit c = true →
  all_chars (λ c, negb (Ascii.eqb c "#")) (String p phone) = true →
  is_Some (match_here re_add_user
    (String "A" (String a (String b (String c (String "#"
       (String p (phone +:+ String "#" rest)))))))).
Proof.
  intros Ha Hb Hc Hphone. cbn [all_chars] in Hphone.
  apply andb_true_iff in Hphone as [Hp Hphone].
  unfold match_here, re_add_user, plus, digit. cbn [lit times].
  repeat rstep. cbn [Ascii.eqb Bool.eqb]. cbv iota. rewrite Ha. repeat rstep.
  rewrite Hb. repeat rstep. rewrite Hc. repeat rstep.
  unfold any_but at 1. rewrite rmatch_chr, Hp, rmatch_star.
  erewrite iterate_any_but; [by eexists| rewrite length_app; lia | done | done].
Qed.

Lemma add_user_not_here a b c rest :
  match_here re_add_user (String "A" (String a (String b (String c (String "#"
       (String "#" rest)))))) = None.
Proof.
  unfold match_here, re_add_user, plus, digit, any_but. cbn [lit times].
  repeat rstep. cbn [Ascii.eqb Bool.eqb]. cbv iota.
  destruct (is_digit a); [|done]. repeat rstep.
  destruct (is_digit b); [|done]. repeat rstep.
  destruct (is_digit c); [|done]. repeat rstep. done.
Qed.

Lemma remove_user_here a b c rest :
  is_digit a = true → is_digit b = true → is_digit c = true →
  is_Some (match_here re_remove_user
    (String "A" (String a (String b (String c (String "#" (String "#" rest))))))).
Proof.
  intros Ha Hb Hc. unfold match_here, re_remove_user, digit. cbn [rmatch lit times].
  rewrite Ha, Hb, Hc. by eexists.
Qed.

(** The characters of the commands that manage users and passwords. *)
Abbreviation command_char :=
  (λ c : ascii, is_digit c || Ascii.eqb c "#" || Ascii.eqb c "+" || Ascii.eqb c "A"
                || Ascii.eqb c "P").

Lemma digit_command_char c : is_digit c = true → command_char c = true.
Proof. intros H. cbv beta. by rewrite H. Qed.

Lemma phone_command_char c :
  is_digit c || Ascii.eqb c "+" = true → command_char c = true.
Proof.
  intros [H|H]%orb_true_iff; cbv beta; rewrite H; [done|]. by rewrite !orb_true_r.
Qed.

Lemma phone_not_hash c :
  is_digit c || Ascii.eqb c "+" = true → negb (Ascii.eqb c "#") = true.
Proof. destruct c as [[] [] [] [] [] [] [] []]; done. Qed.

Lemma digit_not_letter L c :
  is_upper L = true → is_digit c = true → Ascii.eqb L c = false.
Proof. intros HL Hc. apply not_upper_differs; [done|]. by apply digit_not_upper. Qed.

(** None of the seven markers is made of such characters. *)
Lemma no_marker command :
  all_chars command_char command = true →
  includes "CC" command = false ∧ includes "DD" command = false ∧
  includes "GOT" command = false ∧ includes "ALL" command = false ∧
  includes "AUT" command = false ∧ includes "TEL" command = false ∧
  includes "EE" command = false.
Proof. intros H. repeat split; by apply (no_pattern _ _ _ H). Qed.

(** X13. The rules that look at the shape of a command.  With a password,
    a serial number and a phone number made of digits (the phone number
    may hold plus signs), the command that changes the password is logged
    as a password change of category settings, the one that adds a user
    and the one that removes a user as user management of category user,
    each with its own description. *)
Theorem shape_rules dev ok pwd :
  all_chars is_digit pwd = true →
  (∀ new again,
     all_chars is_digit new = true → String.length new = 4%nat →
     all_chars is_digit again = true → String.length again = 4%nat →
     let command := pwd +:+ "P" +:+ new +:+ again +:+ "#" in
     logSMSOperation dev command ok
     = Build_LogCall dev "Password Change" ("Changed device password: " +:+ command)
         ok settings) ∧
  (∀ serial phone,
     all_chars is_digit serial = true → String.length serial = 3%nat →
     phone ≠ "" → all_chars (λ c, is_digit c || Ascii.eqb c "+") phone = true →
     let command := pwd +:+ "A" +:+ serial +:+ "#" +:+ phone +:+ "#" in
     logSMSOperation dev command ok
     = Build_LogCall dev "User Management" ("Added authorized user: " +:+ command)
         ok user) ∧
  (∀ serial,
     all_chars is_digit serial = true → String.length serial = 3%nat →
     let command := pwd +:+ "A" +:+ serial +:+ "##" in
     logSMSOperation dev command ok
     = Build_LogCall dev "User Management" ("Removed authorized user: " +:+ command)
         ok user).
Proof.
  intros Hpwd.
  assert (∀ s, all_chars is_digit s = true → all_chars command_char s = true) as Hdc
    by (intros s; apply all_chars_impl, digit_command_char).
  assert (∀ s, all_chars is_digit s = true →
               all_chars (λ c, negb (Ascii.eqb "P" c)) s = true) as HdP.
  { intros s. apply all_chars_impl. intros x Hx. by rewrite (digit_not_letter "P" x). }
  assert (∀ command, all_chars command_char command = true →
            logSMSOperation dev command ok
            = if test re_pwd_change command then
                Build_LogCall dev "Password Change"
                  ("Changed device password: " +:+ command) ok settings
              else if test re_add_user command then
                Build_LogCall dev "User Management"
                  ("Added authorized user: " +:+ command) ok user
              else if test re_remove_user command then
                Build_LogCall dev "User Management"
                  ("Removed authorized user: " +:+ command) ok user
              else Build_LogCall dev "Unknown Command" command ok relay) as Hrules.
  { intros command Hchars.
    destruct (no_marker _ Hchars) as (H1 & H2 & H3 & H4 & H5 & H6 & H7).
    unfold logSMSOperation. by rewrite maskedCommand_id, H1, H2, H3, H4, H5, H6, H7. }
  assert (∀ command, all_chars (λ c, negb (Ascii.eqb "P" c)) command = true →
                     test re_pwd_change command = false) as HnoP.
  { intros command. apply test_never; [|reflexivity].
    intros x t Hx. apply pwd_change_first. by apply negb_true_iff. }
  split; [|split].
  - intros new again Hnew Hlnew Hagain Hlagain command.
    rewrite Hrules; cycle 1.
    { unfold command. rewrite !all_chars_app, (Hdc pwd), (Hdc new), (Hdc again) by done.
      reflexivity. }
    apply length_four in Hlnew as (a & b & c & d & ->).
    apply length_four in Hlagain as (e & f & g & h & ->).
    cbn [all_chars] in Hnew, Hagain.
    apply andb_true_iff in Hnew as [Ha [Hb [Hc [Hd _]%andb_true_iff]%andb_true_iff]%andb_true_iff].
    apply andb_true_iff in Hagain as [He [Hf [Hg [Hh _]%andb_true_iff]%andb_true_iff]%andb_true_iff].
    assert (test re_pwd_change command = true) as ->; [|done].
    unfold command. apply test_later. cbn [String.append]. by apply pwd_change_here.
  - intros serial phone Hserial Hlserial Hphone Hphone_chars command.
    rewrite Hrules; cycle 1.
    { unfold command. rewrite !all_chars_app, (Hdc pwd), (Hdc serial) by done.
      rewrite (all_chars_impl _ _ _ phone_command_char Hphone_chars). reflexivity. }
    rewrite HnoP; cycle 1.
    { unfold command. rewrite !all_chars_app, (HdP pwd), (HdP serial) by done.
      assert (all_chars (λ c, negb (Ascii.eqb "P" c)) phone = true) as ->; [|done].
      eapply all_chars_impl; [|exact Hphone_chars].
      intros x Hx. clear -Hx. by destruct x as [[] [] [] [] [] [] [] []]. }
    apply length_three in Hlserial as (a & b & c & ->).
    cbn [all_chars] in Hserial.
    apply andb_true_iff in Hserial as [Ha [Hb [Hc _]%andb_true_iff]%andb_true_iff].
    destruct phone as [|p phone]; [done|].
    assert (test re_add_user command = true) as ->; [|done].
    unfold command. apply test_later. cbn [String.append].
    apply add_user_here; try done.
    eapply all_chars_impl; [|exact Hphone_chars]. apply phone_not_hash.
  - intros serial Hserial Hlserial command.
    rewrite Hrules; cycle 1.
    { unfold command. rewrite !all_chars_app, (Hdc pwd), (Hdc serial) by done.
      reflexivity. }
    rewrite HnoP; cycle 1.
    { unfold command. rewrite !all_chars_app, (HdP pwd), (HdP serial) by done.
      reflexivity. }
    apply length_three in Hlserial as (a & b & c & ->).
    cbn [all_chars] in Hserial.
    apply andb_true_iff in Hserial as [Ha [Hb [Hc _]%andb_true_iff]%andb_true_iff].
    assert (test re_add_user command = false) as ->.
    { unfold test, search, command. apply bool_decide_eq_false. intros [m Hm].
      rewrite (search_from_skip re_add_user is_digit) in Hm; [| |done]; cycle 1.
      { intros x t Hx. apply add_user_first. by apply digit_not_letter. }
      cbn [String.append search_from] in Hm.
      rewrite add_user_not_here in Hm.
      rewrite (add_user_first a), (add_user_first b), (add_user_first c) in Hm
        by (by apply digit_not_letter).
      rewrite !add_user_first in Hm by done.
      done. }
    assert (test re_remove_user command = true) as ->; [|done].
    unfold command. apply test_later. cbn [String.append]. by apply remove_user_here.
Qed.

Lemma shape_rules_witness :
  logSMSOperation "gate-1" "1234A001#+61400111222#" true
  = Build_LogCall "gate-1" "User Management"
      "Added authorized user: 1234A001#+61400111222#" true user.
Proof.
  apply (proj1 (proj2 (shape_rules "gate-1" true "1234" eq_refl)) "001" "+61400111222");
    [reflexivity | reflexivity | done | reflexivity].
Defined.

End CommandFacts.

(** ** The relay settings page *)
Module Step4Facts.
Import JS JSFacts Text TextFacts Json JsonFacts JsonWfFacts Classifier ClassifierFacts
  CommandFacts Backup Step4.

Local Arguments consumed : simpl never.

Lemma avoids L s :
  is_upper L = true → all_chars (λ c, negb (is_upper c)) s = true →
  all_chars (λ c, negb (Ascii.eqb L c)) s = true.
Proof.
  intros HL. apply all_chars_impl. intros c Hc. by rewrite (not_upper_differs L c).
Qed.

Lemma obj_get_set k v props : obj_get k (obj_set k v props) = Some v.
Proof.
  induction props as [|[k' v'] props IH]; cbn [obj_set obj_get].
  - by rewrite String.eqb_refl.
  - destruct (String.eqb k' k) eqn:E; [|destruct (comes_before k k')]; cbn [obj_get];
      rewrite ?String.eqb_refl, ?E; done.
Qed.

Lemma stringify_inj v1 v2 :
  well_formed v1 = true → well_formed v2 = true →
  stringify v1 = stringify v2 → v1 = v2.
Proof.
  intros H1%JSON_parse_stringify H2%JSON_parse_stringify E.
  rewrite E in H1. congruence.
Qed.

Lemma stringify_array_not_empty items : ∃ c t, stringify (JArr items) = String c t.
Proof. by exists "["%char, (String.concat "," (map stringify items) +:+ "]"). Qed.

(** [s.replace(c, '')] for a pattern of one character removes its first
    occurrence. *)
Lemma search_from_lit1 c s i :
  search_from (lit (String c "")) s i = search_from (Chr (Ascii.eqb c)) s i.
Proof.
  revert i. induction s as [|x s IH]; intros i; [done|].
  cbn [search_from]. rewrite IH. reflexivity.
Qed.

Lemma replace_first_char c pre post :
  all_chars (λ x, negb (Ascii.eqb c x)) pre = true →
  replace (lit (String c "")) "" (pre +:+ String c post) = pre +:+ post.
Proof.
  intros Hpre. unfold replace, search.
  rewrite search_from_lit1, search_from_chr_some by (done || apply Ascii.eqb_refl).
  cbn [f_index f_text f_rest expand]. by rewrite Nat.add_0_l, take_app_length.
Qed.

Lemma replace_no_char c s :
  all_chars (λ x, negb (Ascii.eqb c x)) s = true →
  replace (lit (String c "")) "" s = s.
Proof.
  intros Hs. unfold replace, search. by rewrite search_from_lit1, search_from_chr_none.
Qed.

Section Page.
Context {Repo : Type}.
Variable OS : Platform.
Variable canOpenURL : string → outcome bool.
Variable openURL : string → outcome unit.
Variable ds_addDeviceLog : LogCall → Repo → outcome unit * Repo.
Variable updateDevice : list (string * json) → storage → outcome unit * storage.
Variable refreshDevices : storage → outcome unit * storage.
Variable f : Faults.

Abbreviation sendSMS := (sendSMS OS canOpenURL openURL ds_addDeviceLog).
Abbreviation saveToLocalStorage := (saveToLocalStorage updateDevice refreshDevices f).
Abbreviation mark_completed := (mark_completed f).
Abbreviation setAccessControl :=
  (setAccessControl OS canOpenURL openURL ds_addDeviceLog updateDevice refreshDevices f).
Abbreviation setLatchTime :=
  (setLatchTime OS canOpenURL openURL ds_addDeviceLog updateDevice refreshDevices f).

(** X14. Choosing an access mode sends the password followed by the
    mode and [#], and puts the mode into the state of the next render.
    For a password without upper-case letters the command is logged as an
    access control setting of category settings, described as "Allow All"
    or "Authorized Only" after the mode. *)
Theorem access_mode_command_is_classified type s :
  let command := password s +:+ type_text type +:+ "#" in
  (∀ r st, sent (setAccessControl type s r st) = sendSMS command s r) ∧
  (∀ r st, obj_get "accessControl" (relaySettings (next (setAccessControl type s r st)))
           = Some (JStr (type_text type))) ∧
  (all_chars (λ c, negb (is_upper c)) (password s) = true →
   ∀ dev ok,
     logSMSOperation dev command ok
     = Build_LogCall dev "Access Control Setting"
         (match type with
          | ALL => "Set access mode to " +:+ quoted "Allow All"
                     +:+ " (any caller with password): " +:+ command
          | AUT => "Set access mode to " +:+ quoted "Authorized Only" +:+ ": " +:+ command
          end) ok settings).
Proof.
  intros command. split; [by destruct type|]. split.
  { intros r st. cbn [setAccessControl Step4.setAccessControl next relaySettings set_relaySettings].
    apply obj_get_set. }
  intros Hpwd dev ok. unfold logSMSOperation. rewrite maskedCommand_id.
  assert (∀ L pat, is_upper L = true →
            all_chars (λ c, negb (Ascii.eqb L c)) (type_text type +:+ "#") = true →
            all_chars (λ c, negb (Ascii.eqb L c)) pat = false →
            includes pat command = false) as Hno.
  { intros L pat HL Htail Hpat. apply (no_pattern (λ c, negb (Ascii.eqb L c))); [|done].
    unfold command. by rewrite all_chars_app, avoids, Htail. }
  rewrite (Hno "C"%char "CC"), (Hno "D"%char "DD"), (Hno "G"%char "GOT")
    by (by destruct type).
  destruct type.
  - rewrite (Hno "L"%char "ALL") by done.
    assert (includes "AUT" command = true) as ->; [|done].
    apply includes_spec. by exists (password s), "#".
  - assert (includes "ALL" command = true) as ->; [|done].
    apply includes_spec. by exists (password s), "#".
Qed.

(** X15. The latch time field and the command it leads to.  Whatever is
    typed, the field keeps the first three digits, and [setLatchTime] pads
    them with zeros to exactly three digits and sends the password
    followed by [GOT], the three digits and [#].  For a password without
    upper-case letters that command is logged as a relay timing setting
    of category settings, as toggle mode for [000] and as that many
    seconds otherwise. *)
Theorem latch_time_command_is_classified text s :
  let s1 := handleLatchTimeChange text s in
  let time := padStart 3 "0" (take 3 (keep is_digit text)) in
  let command := password s +:+ "GOT" +:+ time +:+ "#" in
  String.length time = 3%nat ∧ all_chars is_digit time = true ∧
  (∀ r st, setLatchTime s1 r st
           = Some {| next := s1; sent := sendSMS command s1 r;
                     saved := saveToLocalStorage s1 st |}) ∧
  (all_chars (λ c, negb (is_upper c)) (password s) = true →
   ∀ dev ok,
     logSMSOperation dev command ok
     = Build_LogCall dev "Relay Timing Setting"
         ("Set relay timing to "
            +:+ (if String.eqb time "000" then "toggle mode" else time +:+ " seconds")
            +:+ ": " +:+ command) ok settings).
Proof.
  intros s1 time command.
  assert (String.length time = 3%nat) as Hlen.
  { unfold time. rewrite length_padStart, length_take. lia. }
  assert (all_chars is_digit time = true) as Hdigits.
  { unfold time. apply all_chars_padStart; [done|]. apply all_chars_take, all_chars_keep. }
  split; [done|]. split; [done|]. split.
  { intros r st. unfold Step4.setLatchTime, s1, handleLatchTimeChange.
    cbn [relaySettings set_relaySettings]. rewrite obj_get_set.
    unfold slice_to. by rewrite replace_all_non_digit. }
  intros Hpwd dev ok. unfold command.
  destruct (length_three _ Hlen) as (a & b & c & Htime). rewrite Htime in *.
  cbn [all_chars] in Hdigits.
  apply andb_true_iff in Hdigits as [Ha [Hb [Hc _]%andb_true_iff]%andb_true_iff].
  set (cmd := password s +:+ "GOT" +:+ String a (String b (String c "")) +:+ "#").
  assert (∀ L pat, is_upper L = true → Ascii.eqb L "G" = false →
            Ascii.eqb L "O" = false → Ascii.eqb L "T" = false →
            all_chars (λ c, negb (Ascii.eqb L c)) pat = false →
            includes pat cmd = false) as Hno.
  { intros L pat HL HG HO HT Hpat.
    apply (no_pattern (λ c, negb (Ascii.eqb L c))); [|done].
    unfold cmd. rewrite all_chars_app, avoids by done. cbn [String.append all_chars].
    rewrite HG, HO, HT, !(digit_not_letter L) by done.
    by destruct (Ascii.eqb_spec L "#") as [->|]. }
  assert (search re_got cmd
          = Some (Found (0 + String.length (password s))
                    ("GOT" +:+ String a (String b (String c ""))) "#"
                    [(1%nat, String a (String b (String c "")))])) as Hsearch.
  { unfold search, cmd. cbn [String.append]. apply search_got; try done.
    apply includes_false. apply (no_pattern (λ c, negb (Ascii.eqb "T" c))); [|done].
    by rewrite all_chars_app, avoids. }
  unfold logSMSOperation. rewrite maskedCommand_id.
  rewrite (Hno "C"%char "CC"), (Hno "D"%char "DD") by done.
  assert (includes "GOT" cmd = true) as ->.
  { apply includes_spec. by exists (password s), (String a (String b (String c "")) +:+ "#"). }
  unfold got_time. rewrite Hsearch. cbn [mbind option_bind f_groups capture Nat.eqb].
  done.
Qed.

Lemma mark_completed_other_keys st marked st' :
  mark_completed st = Finished (marked, st') →
  ∀ k, k ≠ "completedSteps" → st' !! k = st !! k.
Proof.
  unfold Step4.mark_completed, setItem.
  destruct (completedSteps st) as [[| | | |items|]| |]; try by intros [= _ <-].
  destruct (existsb is_step4 items); [by intros [= _ <-]|].
  destruct (set_fails f "completedSteps"); intros [= _ <-]; [done|].
  intros k Hk. by rewrite lookup_insert_ne.
Qed.

Lemma loadLegacyData_settings st s0 props :
  well_formed (JObj props) = true →
  st !! "relaySettings" = Some (stringify (JObj props)) →
  ∃ s1, loadLegacyData st s0 = Finished s1 ∧ relaySettings s1 = props.
Proof.
  intros Hwf Hstored. unfold loadLegacyData. rewrite Hstored.
  assert (∃ c t, stringify (JObj props) = String c t) as (c & t & Etext)
    by (by eexists _, _).
  rewrite Etext, <-Etext, JSON_parse_stringify by done. by eexists.
Qed.

(** X16. The access mode is saved one press late.  On the legacy path
    (no device loaded) a press on an access mode writes, under the key
    [relaySettings], the settings of the render the press happened in,
    while the mode that was pressed goes to the state of the next render:
    when the mode changes, what is stored is not what the page shows
    next, and a page that loads the legacy data afterwards shows the
    settings from before the press. *)
Theorem access_mode_is_saved_one_press_late type s r st alert st' :
  device s = None → set_fails f "relaySettings" = false →
  well_formed (JObj (relaySettings s)) = true →
  saved (setAccessControl type s r st) = Finished (alert, st') →
  st' !! "relaySettings" = Some (stringify (JObj (relaySettings s))) ∧
  (obj_get "accessControl" (relaySettings s) ≠ Some (JStr (type_text type)) →
   st' !! "relaySettings"
   ≠ Some (stringify (JObj (relaySettings (next (setAccessControl type s r st)))))) ∧
  (∀ s0, ∃ s1, loadLegacyData st' s0 = Finished s1 ∧
               relaySettings s1 = relaySettings s).
Proof.
  intros Hdevice Hset Hwf. cbn [saved Step4.setAccessControl next].
  unfold Step4.saveToLocalStorage, save_settings, setItem. rewrite Hdevice, Hset.
  destruct (Step4.mark_completed f _) as [[marked st2]|] eqn:E; [|done].
  assert (st2 !! "relaySettings" = Some (stringify (JObj (relaySettings s)))) as Hkept.
  { rewrite (mark_completed_other_keys _ _ _ E) by done. by rewrite lookup_insert_eq. }
  intros Hst. assert (st' = st2) as -> by (by destruct marked; injection Hst).
  split; [done|]. split; [|by intros s0; apply loadLegacyData_settings].
  intros Hchange. rewrite Hkept. intros Heq.
  cbn [relaySettings set_relaySettings] in Heq.
  set (settings' := obj_set "accessControl" (JStr (type_text type)) (relaySettings s)).
  assert (JObj (relaySettings s) = JObj settings') as Hsame.
  { apply stringify_inj; [done|by apply obj_set_well_formed|].
    fold settings' in Heq. congruence. }
  apply Hchange. replace (relaySettings s) with settings' by congruence.
  apply obj_get_set.
Qed.

Lemma mark_completed_cases st st' :
  mark_completed st = Finished (true, st') →
  (st' = st ∧
   ((∃ t, completedSteps st = Ok (JStr t) ∧ includes "step4" t = true) ∨
    (∃ items, completedSteps st = Ok (JArr items) ∧ existsb is_step4 items = true))) ∨
  (∃ items, completedSteps st = Ok (JArr items) ∧ existsb is_step4 items = false ∧
            st' = <["completedSteps" := stringify (JArr (items ++ [JStr "step4"]))]> st).
Proof.
  unfold Step4.mark_completed, setItem.
  destruct (completedSteps st) as [[| | |t|items|]| |] eqn:Esteps; try done.
  - intros H. left. split; [congruence|]. left. exists t. split; [done|]. congruence.
  - destruct (existsb is_step4 items) eqn:Ehas.
    + intros H. left. split; [congruence|]. right. by exists items.
    + destruct (set_fails f "completedSteps"); [done|].
      intros H. right. exists items. repeat split; [done|congruence].
Qed.

Lemma completedSteps_well_formed st v : completedSteps st = Ok v → well_formed v = true.
Proof.
  unfold completedSteps. destruct (st !! "completedSteps") as [[|c t]|].
  - by intros [= <-].
  - apply JSON_parse_well_formed.
  - by intros [= <-].
Qed.

Lemma completedSteps_stored items st :
  well_formed (JArr items) = true →
  completedSteps (<["completedSteps" := stringify (JArr items)]> st) = Ok (JArr items).
Proof.
  intros Hwf. unfold completedSteps. rewrite lookup_insert_eq.
  destruct (stringify_array_not_empty items) as (c & t & Etext).
  by rewrite Etext, <-Etext, JSON_parse_stringify.
Qed.

Lemma pushed_well_formed items :
  well_formed (JArr items) = true → well_formed (JArr (items ++ [JStr "step4"])) = true.
Proof.
  cbn [well_formed]. intros H. rewrite forallb_app, H. reflexivity.
Qed.

Lemma mark_completed_again st st' :
  mark_completed st = Finished (true, st') → mark_completed st' = Finished (true, st').
Proof.
  intros Hmark.
  destruct (mark_completed_cases _ _ Hmark)
    as [[-> _]|(items & Esteps & Ehas & ->)]; [done|].
  apply completedSteps_well_formed, pushed_well_formed in Esteps.
  unfold Step4.mark_completed. rewrite completedSteps_stored by done.
  rewrite existsb_app. cbn [existsb is_step4 String.eqb]. by rewrite orb_true_r.
Qed.

(** X17. Step 4 is marked as completed once.  When the marking succeeds,
    only the key [completedSteps] may have changed, a second marking
    succeeds and changes nothing, and a list of steps that was stored
    before is kept: the list stored afterwards is that list, followed by
    [step4] when it did not hold it. *)
Theorem step4_is_marked_once st st' :
  mark_completed st = Finished (true, st') →
  mark_completed st' = Finished (true, st') ∧
  (∀ k, k ≠ "completedSteps" → st' !! k = st !! k) ∧
  (∀ items, completedSteps st = Ok (JArr items) →
     completedSteps st'
     = Ok (JArr (if existsb is_step4 items then items else items ++ [JStr "step4"]))).
Proof.
  intros Hmark. split; [by apply (mark_completed_again st)|].
  split; [by eapply mark_completed_other_keys|].
  intros items Esteps.
  destruct (mark_completed_cases _ _ Hmark)
    as [[-> [(t & Et & _)|(items' & Esteps' & Ehas)]]|(items' & Esteps' & Ehas & ->)].
  - congruence.
  - rewrite Esteps in Esteps'. injection Esteps' as <-. by rewrite Ehas.
  - rewrite Esteps in Esteps'. injection Esteps' as <-. rewrite Ehas.
    apply completedSteps_stored, pushed_well_formed.
    by eapply completedSteps_well_formed.
Qed.

(** X18. Saving the settings twice is saving them once.  On the legacy
    path, when [saveToLocalStorage] reports success, saving the same
    settings again reports success and leaves the key-space as it is. *)
Theorem saving_again_changes_nothing s st st' :
  device s = None →
  saveToLocalStorage s st = Finished (Saved, st') →
  saveToLocalStorage s st' = Finished (Saved, st').
Proof.
  intros Hdevice. unfold Step4.saveToLocalStorage, save_settings, setItem.
  rewrite Hdevice. destruct (set_fails f "relaySettings"); [done|].
  destruct (Step4.mark_completed f _) as [[[] st2]|] eqn:Emark; [|done..].
  intros [= <-].
  rewrite insert_id; [by rewrite (mark_completed_again _ _ Emark)|].
  rewrite (mark_completed_other_keys _ _ _ Emark) by done. apply lookup_insert_eq.
Qed.

(** X19. A value under [completedSteps] that is no list and no text makes
    the saving fail after the settings have been written: when it does not
    parse, or parses to [null], a truth value, a number or an object, the
    page reports that the settings could not be saved, although on the
    legacy path they are now stored under [relaySettings]. *)
Theorem unreadable_steps_fail_after_the_write s st :
  device s = None → set_fails f "relaySettings" = false →
  (completedSteps st = SyntaxError ∨
   ∃ v, completedSteps st = Ok v ∧
        match v with JArr _ | JStr _ => False | _ => True end) →
  saveToLocalStorage s st
  = Finished (SaveFailed, <["relaySettings" := stringify (JObj (relaySettings s))]> st).
Proof.
  intros Hdevice Hset Hsteps. unfold Step4.saveToLocalStorage, save_settings, setItem.
  rewrite Hdevice, Hset. unfold Step4.mark_completed.
  assert (completedSteps (<["relaySettings" := stringify (JObj (relaySettings s))]> st)
          = completedSteps st) as ->.
  { unfold completedSteps. by rewrite lookup_insert_ne. }
  destruct Hsteps as [->|(v & -> & Hv)]; [done|]. by destruct v.
Qed.

(** X20. What [sendSMS] does.  Without a device id or a unit number it
    shows an alert and neither opens the composer nor logs.  When the
    composer cannot be opened, it is not opened, and an [SMS Error] entry
    that is not a success is logged under category relay.  When the
    composer opened and the command was logged, nothing else is shown.
    When the composer opened but the logging of the command threw, the
    page logs and reports a failure to send all the same. *)
Theorem send_sms_outcomes command s r :
  (deviceId s = None ∨ deviceId s = Some "" ∨ unitNumber s = "" →
   sendSMS command s r = ([MissingDevice], Returned (), r)) ∧
  (∀ dev, deviceId s = Some dev → dev ≠ "" → unitNumber s ≠ "" →
     let url := smsUrl OS command (unitNumber s) in
     let failed e := Build_LogCall dev "SMS Error" ("Failed to send command: " +:+ e)
                       false relay in
     (canOpenURL url = Returned false → ∀ r2,
        ds_addDeviceLog (failed SmsUnavailable) r = (Returned (), r2) →
        sendSMS command s r
        = ([Alert "Error" ("Failed to send SMS: " +:+ SmsUnavailable)], Returned (), r2)) ∧
     (canOpenURL url = Returned true → openURL url = Returned () → ∀ r1,
        ds_addDeviceLog (logSMSOperation dev command true) r = (Returned (), r1) →
        sendSMS command s r = ([OpenURL url], Returned (), r1)) ∧
     (canOpenURL url = Returned true → openURL url = Returned () → ∀ e r1 r2,
        ds_addDeviceLog (logSMSOperation dev command true) r = (Threw e, r1) →
        ds_addDeviceLog (failed e) r1 = (Returned (), r2) →
        sendSMS command s r
        = ([OpenURL url; Alert "Error" ("Failed to send SMS: " +:+ e)], Returned (), r2))).
Proof.
  split.
  - unfold Step4.sendSMS. intros [->|[->|Hunit]]; [done..|].
    destruct (deviceId s) as [dev|]; [|done]. rewrite Hunit.
    by rewrite orb_true_r.
  - intros dev Hdev Hid%String.eqb_neq Hunit%String.eqb_neq url failed.
    unfold Step4.sendSMS, try_send. rewrite Hdev, Hid, Hunit. cbn [orb]. fold url.
    repeat split.
    + intros -> r2 Hlog. fold (failed SmsUnavailable). by rewrite Hlog.
    + intros -> -> r1 Hlog. by rewrite Hlog.
    + intros -> -> e r1 r2 Hlog Hfail. rewrite Hlog. fold (failed e). by rewrite Hfail.
Qed.

(** X21. The address of the message composer.  The command travels
    percent-encoded: letters and digits as they are and the closing [#] as
    [%23].  On iOS the first plus sign of the unit number is dropped, and
    only the first, and the body follows an ampersand; on the other
    systems the number is used as it is and the body follows a question
    mark. *)
Theorem sms_address command :
  (∀ body, all_chars unreserved body = true →
           encodeURIComponent (body +:+ "#") = body +:+ "%23") ∧
  (∀ unit, OS ≠ ios →
           smsUrl OS command unit = "sms:" +:+ unit +:+ "?body=" +:+ encodeURIComponent command) ∧
  (∀ pre post, OS = ios → all_chars (λ x, negb (Ascii.eqb "+" x)) pre = true →
     smsUrl OS command (pre +:+ "+" +:+ post)
     = "sms:" +:+ pre +:+ post +:+ "&body=" +:+ encodeURIComponent command) ∧
  (∀ unit, OS = ios → all_chars (λ x, negb (Ascii.eqb "+" x)) unit = true →
     smsUrl OS command unit = "sms:" +:+ unit +:+ "&body=" +:+ encodeURIComponent command).
Proof.
  repeat split.
  - intros body Hbody. by rewrite encodeURIComponent_app, encodeURIComponent_unreserved.
  - intros unit HOS. unfold smsUrl. by destruct OS.
  - intros pre post -> Hpre. unfold smsUrl.
    change ("+" +:+ post) with (String "+" post).
    rewrite (replace_first_char "+" pre post Hpre). by rewrite !app_assoc.
  - intros unit -> Hunit. unfold smsUrl. by rewrite replace_no_char.
Qed.

End Page.

(** The legacy page over a repository that logs nothing and a key-space
    without faults: after a press on [ALL], the stored mode is [AUT]. *)
Lemma access_mode_is_saved_one_press_late_witness :
  (<["completedSteps" := "[" +:+ quoted "step4" +:+ "]"]>
     (<["relaySettings" := stringify (JObj (relaySettings legacy_page))]> (∅ : storage)))
    !! "relaySettings"
  = Some ("{" +:+ quoted "accessControl" +:+ ":" +:+ quoted "AUT" +:+ ","
            +:+ quoted "latchTime" +:+ ":" +:+ quoted "000" +:+ "}").
Proof.
  apply (access_mode_is_saved_one_press_late (Repo := unit) android
           (λ _, Returned true) (λ _, Returned ()) (λ _ r, (Returned (), r))
           (λ _ st, (Returned (), st)) (λ st, (Returned (), st)) no_faults
           ALL legacy_page () ∅ Saved); [reflexivity..|].
  vm_compute. reflexivity.
Defined.

Lemma step4_is_marked_once_witness :
  Step4.mark_completed no_faults
    (<["completedSteps" := "[" +:+ quoted "step1" +:+ "," +:+ quoted "step4" +:+ "]"]>
       one_step_storage)
  = Finished (true,
      <["completedSteps" := "[" +:+ quoted "step1" +:+ "," +:+ quoted "step4" +:+ "]"]>
        one_step_storage).
Proof.
  apply (step4_is_marked_once no_faults one_step_storage). vm_compute. reflexivity.
Defined.

Lemma saving_again_changes_nothing_witness :
  saveToLocalStorage (λ _ st, (Returned (), st)) (λ st, (Returned (), st)) no_faults
    legacy_page
    (<["completedSteps" := "[" +:+ quoted "step4" +:+ "]"]>
       (<["relaySettings" := stringify (JObj (relaySettings legacy_page))]> ∅))
  = Finished (Saved,
      <["completedSteps" := "[" +:+ quoted "step4" +:+ "]"]>
        (<["relaySettings" := stringify (JObj (relaySettings legacy_page))]> ∅)).
Proof.
  apply (saving_again_changes_nothing (λ _ st, (Returned (), st))
           (λ st, (Returned (), st)) no_faults legacy_page ∅); [reflexivity|].
  vm_compute. reflexivity.
Defined.

Lemma unreadable_steps_fail_after_the_write_witness :
  saveToLocalStorage (λ _ st, (Returned (), st)) (λ st, (Returned (), st)) no_faults
    legacy_page {[ "completedSteps" := "{}" ]}
  = Finished (SaveFailed,
      <["relaySettings" := stringify (JObj (relaySettings legacy_page))]>
        {[ "completedSteps" := "{}" ]}).
Proof.
  apply (unreadable_steps_fail_after_the_write (λ _ st, (Returned (), st))
           (λ st, (Returned (), st)) no_faults legacy_page
           {[ "completedSteps" := "{}" ]}); [reflexivity..|].
  right. exists (JObj []). split; [vm_compute; reflexivity | exact I].
Defined.

End Step4Facts.

(** ** More on the restore: what is cut, what is written, what is left *)
Module RestoreMoreFacts.
Import JS JSFacts Text TextFacts Json JsonFacts JsonWfFacts Backup RestoreFacts
  LocateFacts RoundTripFacts Items.

(** *** The loop that saves the items *)

Lemma forallb_false {A} (p : A → bool) l :
  forallb p l = false → ∃ x, x ∈ l ∧ p x = false.
Proof.
  induction l as [|x l IH]; [done|]. cbn [forallb].
  destruct (p x) eqn:Hx; [|intros _; exists x; split; [by left|done]].
  intros (y & Hy & Hpy)%IH. exists y. split; [by right|done].
Qed.

Lemma save_items_step f key value items st n :
  save_items f ((key, value) :: items) st n
  = if written f (key, value)
    then save_items f items (<[key := stored value]> st) (S n)
    else save_items f items st n.
Proof.
  cbn [save_items]. unfold written. cbn [fst snd].
  destruct (set_fails f key); by destruct value.
Qed.

Lemma save_items_count f items : ∀ st n,
  (save_items f items st n).2 = (n + length (filter (λ kv, written f kv = true) items))%nat.
Proof.
  induction items as [|[key value] items IH]; intros st n; [cbn; lia|].
  rewrite save_items_step. destruct (written f (key, value)) eqn:Hw.
  - rewrite filter_cons_True by done. rewrite IH. cbn [length]. lia.
  - rewrite filter_cons_False by (by rewrite Hw). apply IH.
Qed.

Lemma save_items_untouched f items k : ∀ st n,
  (∀ v, (k, v) ∈ items → written f (k, v) = false) →
  (save_items f items st n).1 !! k = st !! k.
Proof.
  induction items as [|[key value] items IH]; intros st n Hk; [done|].
  rewrite save_items_step. destruct (written f (key, value)) eqn:Hw.
  - rewrite IH by (intros v Hv; apply Hk; by right).
    apply lookup_insert_ne. intros ->. rewrite Hk in Hw; [done|by left].
  - apply IH. intros v Hv. apply Hk. by right.
Qed.

Lemma save_items_stored f items k v : ∀ st n,
  NoDup (map fst items) → (k, v) ∈ items → written f (k, v) = true →
  (save_items f items st n).1 !! k = Some (stored v).
Proof.
  induction items as [|[key value] items IH]; intros st n Hnd Hin Hw.
  - by apply elem_of_nil in Hin.
  - cbn [map fst] in Hnd. apply NoDup_cons in Hnd as [Hfresh Hnd].
    rewrite save_items_step. apply elem_of_cons in Hin as [[= <- <-]|Hin].
    + rewrite Hw. rewrite save_items_untouched; [apply lookup_insert_eq|].
      intros v' Hv'. destruct Hfresh. apply list_elem_of_fmap. by exists (k, v').
    + destruct (written f (key, value)); by apply IH.
Qed.

Lemma save_items_none f items st n :
  (save_items f items st n).2 = n → (save_items f items st n).1 = st.
Proof.
  revert st n. induction items as [|[key value] items IH]; intros st n; [done|].
  rewrite save_items_step. destruct (written f (key, value)); [|apply IH].
  rewrite save_items_count. lia.
Qed.

Lemma parse_backup_throws text e :
  parse_backup text = Finished (Threw e) → e = MalformedBackupError.
Proof.
  unfold parse_backup. destruct (JSON_parse text); [done| |done].
  destruct (JSON_parse _); [done| |done].
  destruct (fold_left extract_pair _ _) as [[|? ?]|]; [|done..]. by intros [= <-].
Qed.

(** X22. A restore that throws has written nothing.  An empty text, a
    text that cannot be parsed and a value of an unsupported kind are
    refused before the existing data is touched: the key-space is left as
    it was.  The other errors - no entries, no entry that could be
    written, or [null] as the data - come after the clearing: the
    key-space is left cleared (as it was, when the clearing failed), with
    none of the backup in it. *)
Theorem failed_restore_writes_nothing f backupJson st e st' :
  restoreFromBackup f backupJson st = Finished (Threw e, st') →
  (st' = st ∧
   (e = EmptyBackupError ∨ e = MalformedBackupError ∨ e = UnsupportedFormatError)) ∨
  (st' = clear_existing f st ∧
   (e = NoDataError ∨ e = RestoreFailedError ∨ e = TypeError)).
Proof.
  unfold restoreFromBackup. destruct (String.eqb backupJson "").
  { intros [= <- <-]. left. split; [done|by left]. }
  destruct (parse_backup (clean backupJson)) as [[parsedData|e']|] eqn:Eparse; [| |done].
  - unfold store_parsed. destruct (normalize parsedData) as [dataToStore|e'] eqn:Enorm.
    + destruct (entries dataToStore) as [[|item items]|e'] eqn:Eentries.
      * intros [= <- <-]. right. split; [done|by left].
      * destruct (save_items f (item :: items) (clear_existing f st) 0)
          as [st2 successCount] eqn:Esave.
        destruct (Nat.eqb_spec successCount 0) as [->|]; [|done].
        intros [= <- <-]. right. split; [|right; by left].
        pose proof (save_items_none f (item :: items) (clear_existing f st) 0) as Hnone.
        rewrite Esave in Hnone. by apply Hnone.
      * assert (e' = TypeError) as ->
          by (destruct dataToStore; cbn in Eentries; congruence).
        intros [= <- <-]. right. split; [done|]. by right; right.
    + assert (e' = UnsupportedFormatError) as ->.
      { revert Enorm. unfold normalize. destruct (nested_data parsedData); [done|].
        destruct (_ && _); [done|]. destruct (isArray parsedData); [done|].
        by intros [= <-]. }
      intros [= <- <-]. left. split; [done|]. by right; right.
  - apply parse_backup_throws in Eparse as ->.
    intros [= <- <-]. left. split; [done|]. by right; left.
Qed.

Lemma failed_restore_writes_nothing_witness :
  (∅ : storage) = clear_existing no_faults old_storage ∧
  (RestoreFailedError = NoDataError ∨ RestoreFailedError = RestoreFailedError ∨
   RestoreFailedError = TypeError).
Proof.
  destruct (failed_restore_writes_nothing no_faults backup_null_value old_storage
              RestoreFailedError ∅ ltac:(vm_compute; reflexivity)) as [[H _]|H].
  - exfalso. apply (f_equal (λ m : storage, m !! "old")) in H. vm_compute in H.
    discriminate H.
  - exact H.
Defined.

(** X23. A restore writes what it can.  Once the entries to store are
    known, the restore returns true exactly when at least one entry is
    written - its value is not [null] and the storage accepts its key -
    and throws otherwise; a key without a written entry holds what the
    cleared key-space held; and, the keys being distinct, the key of a
    written entry holds the value itself when it is a string, and its
    JSON text otherwise. *)
Theorem restore_writes_what_it_can f parsedData dataToStore items st :
  normalize parsedData = Returned dataToStore → entries dataToStore = Returned items →
  ((store_parsed f parsedData st).1 = Returned true ↔
   ∃ kv, kv ∈ items ∧ written f kv = true) ∧
  ((store_parsed f parsedData st).1 = Returned true ∨
   (store_parsed f parsedData st).1 = Threw NoDataError ∨
   (store_parsed f parsedData st).1 = Threw RestoreFailedError) ∧
  (∀ k, (∀ v, (k, v) ∈ items → written f (k, v) = false) →
        (store_parsed f parsedData st).2 !! k = clear_existing f st !! k) ∧
  (NoDup (map fst items) →
   ∀ k v, (k, v) ∈ items → written f (k, v) = true →
          (store_parsed f parsedData st).2 !! k = Some (stored v)).
Proof.
  intros Hnorm Hentries. unfold store_parsed. rewrite Hnorm, Hentries.
  destruct items as [|item items].
  { cbn [fst snd]. split; [|split; [by right; left|split; [done|]]].
    - split; [done|]. intros (kv & Hin & _). by apply elem_of_nil in Hin.
    - intros _ k v Hin. by apply elem_of_nil in Hin. }
  set (all := item :: items).
  destruct (save_items f all (clear_existing f st) 0) as [st2 successCount] eqn:Esave.
  pose proof (save_items_count f all (clear_existing f st) 0) as Hcount.
  pose proof (save_items_untouched f all) as Huntouched.
  pose proof (save_items_stored f all) as Hstored.
  specialize (Huntouched) with (st := clear_existing f st) (n := 0%nat).
  specialize (Hstored) with (st := clear_existing f st) (n := 0%nat).
  rewrite Esave in Hcount, Huntouched, Hstored. cbn [fst snd] in *.
  assert (successCount ≠ 0%nat ↔ ∃ kv, kv ∈ all ∧ written f kv = true) as Hsome.
  { rewrite Hcount, Nat.add_0_l. split.
    - intros Hlen. destruct (filter _ all) as [|kv l] eqn:Efilter; [done|].
      exists kv.
      assert (kv ∈ filter (λ kv, written f kv = true) all) as Hkv
        by (rewrite Efilter; by left).
      apply list_elem_of_filter in Hkv as [? ?]. done.
    - intros (kv & Hin & Hw) Hlen. apply length_zero_iff_nil in Hlen.
      assert (kv ∈ filter (λ kv, written f kv = true) all) as Hkv
        by (by apply list_elem_of_filter).
      rewrite Hlen in Hkv. by apply elem_of_nil in Hkv. }
  destruct (Nat.eqb_spec successCount 0) as [Hzero|Hpos]; cbn [fst snd].
  - split; [|split; [by right; right|split; [apply Huntouched|by intros ? ? ?; apply Hstored]]].
    split; [done|]. intros H%Hsome. done.
  - split; [|split; [by left|split; [apply Huntouched|by intros ? ? ?; apply Hstored]]].
    split; [|done]. intros _. by apply Hsome.
Qed.

Lemma restore_writes_what_it_can_witness :
  (store_parsed {| clear_fails := false; set_fails := String.eqb "b" |}
     (JObj [("a", JNum 1); ("b", JNum 2); ("c", JNull)]) old_storage).1 = Returned true ∧
  (store_parsed {| clear_fails := false; set_fails := String.eqb "b" |}
     (JObj [("a", JNum 1); ("b", JNum 2); ("c", JNull)]) old_storage).2 !! "b" = None.
Proof.
  pose proof (restore_writes_what_it_can
                {| clear_fails := false; set_fails := String.eqb "b" |}
                (JObj [("a", JNum 1); ("b", JNum 2); ("c", JNull)])
                (JObj [("a", JNum 1); ("b", JNum 2); ("c", JNull)])
                [("a", JNum 1); ("b", JNum 2); ("c", JNull)] old_storage
                eq_refl eq_refl) as (Htrue & _ & Hkept & _).
  split.
  - apply Htrue. exists ("a", JNum 1). split; [by left|reflexivity].
  - rewrite Hkept; [reflexivity|].
    intros v _. by destruct v.
Defined.

(** *** Text before the first object *)

Lemma trimStart_app_nonspace a c t :
  is_space c = false → trimStart (a +:+ String c t) = trimStart a +:+ String c t.
Proof.
  intros Hc. induction a as [|x a IH]; cbn [String.append trimStart].
  - by rewrite Hc.
  - by destruct (is_space x).
Qed.

Lemma brace_free_trimStart s : brace_free s = true → brace_free (trimStart s) = true.
Proof.
  induction s as [|c s IH]; [done|]. cbn [trimStart]. destruct (is_space c); [|done].
  cbn [brace_free]. intros [_ Hs]%andb_true_iff. by apply IH.
Qed.

Lemma find_from_after p pre s i :
  brace_free pre = true →
  find_from (String "{" p) (pre +:+ s) i = find_from (String "{" p) s (i + len pre).
Proof.
  revert i. induction pre as [|c pre IH]; intros i Hpre.
  - cbn [String.append]. unfold len. cbn [String.length]. by rewrite Z.add_0_r.
  - cbn [String.append find_from]. pose proof Hpre as Hc.
    cbn [brace_free] in Hc. apply andb_true_iff in Hc as [[Hc%negb_true_iff _]%andb_true_iff Hrest].
    cbn [starts_with]. rewrite Ascii.eqb_sym, Hc. cbn [andb].
    rewrite IH by done. f_equal. unfold len. cbn [String.length]. lia.
Qed.

Lemma find_last_from_after p pre s i :
  brace_free pre = true →
  find_last_from (String "{" p) (pre +:+ s) i
  = find_last_from (String "{" p) s (i + len pre).
Proof.
  revert i. induction pre as [|c pre IH]; intros i Hpre.
  - cbn [String.append]. unfold len. cbn [String.length]. by rewrite Z.add_0_r.
  - cbn [String.append find_last_from]. pose proof Hpre as Hc.
    cbn [brace_free] in Hc. apply andb_true_iff in Hc as [[Hc%negb_true_iff _]%andb_true_iff Hrest].
    cbn [starts_with]. rewrite Ascii.eqb_sym, Hc. cbn [andb].
    rewrite IH by done.
    replace (i + 1 + len pre) with (i + len (String c pre))
      by (unfold len; cbn [String.length]; lia).
    by destruct (find_last_from _ s _).
Qed.

Lemma find_from_ge p s : ∀ i j, find_from p s i = Some j → i ≤ j.
Proof.
  induction s as [|c s IH]; intros i j; cbn [find_from].
  - destruct (starts_with p ""); [|done]. intros [= <-]. lia.
  - destruct (starts_with p (String c s)); [intros [= <-]; lia|].
    intros H%IH. lia.
Qed.

Lemma find_last_from_ge p s : ∀ i j, find_last_from p s i = Some j → i ≤ j.
Proof.
  induction s as [|c s IH]; intros i j; cbn [find_last_from].
  - destruct (starts_with p ""); [|done]. intros [= <-]. lia.
  - destruct (find_last_from p s (i + 1)) as [j'|] eqn:E.
    + intros [= <-]. apply IH in E. lia.
    + destruct (starts_with p (String c s)); [|done]. intros [= <-]. lia.
Qed.

Lemma find_from_brace_free p s i : brace_free s = true → find_from (String "{" p) s i = None.
Proof.
  intros Hs. rewrite <-(app_empty_r s), find_from_after by done. reflexivity.
Qed.

Lemma find_last_from_brace_free p s i :
  brace_free s = true → find_last_from (String "{" p) s i = None.
Proof.
  intros Hs. rewrite <-(app_empty_r s), find_last_from_after by done. reflexivity.
Qed.

(** The smallest of the offsets that were found, after the first one. *)
Lemma min_of_found a l :
  0 ≤ a → Forall (λ x, x = -1 ∨ a ≤ x) l →
  fold_left Z.min (filter (λ pos, 0 ≤ pos) l) a = a.
Proof.
  intros Ha. induction 1 as [|x l Hx _ IH]; [done|].
  destruct (decide (0 ≤ x)) as [Hpos|Hneg].
  - rewrite filter_cons_True by done. cbn [fold_left].
    replace (Z.min a x) with a by lia. done.
  - by rewrite filter_cons_False.
Qed.

Lemma locate_start_after_noise noise rest :
  brace_free noise = true → noise ≠ "" → starts_with open_quote rest = true →
  locate_start (noise +:+ rest) = rest.
Proof.
  intros Hnoise Hne Hstart. unfold locate_start.
  assert (0 < len noise) as Hlen by (destruct noise; [done|unfold len; simpl; lia]).
  assert (indexOf open_quote (noise +:+ rest) = len noise) as ->.
  { unfold indexOf, open_quote. rewrite find_from_after by done.
    destruct rest as [|c rest]; [done|]. cbn [find_from].
    unfold open_quote in Hstart. by rewrite Hstart. }
  rewrite filter_cons_True by lia.
  rewrite min_of_found; [| lia |].
  - assert ((0 <? len noise) = true) as -> by (apply Z.ltb_lt; lia).
    unfold substring_from, len. rewrite Nat2Z.id. apply drop_app_length.
  - repeat apply Forall_cons_2; [..|apply Forall_nil_2].
    + unfold indexOf, open_newline_quote. rewrite find_from_after by done.
      destruct (find_from _ rest _) as [j|] eqn:E; [|by left].
      right. apply find_from_ge in E. cbn. lia.
    + unfold indexOf, open_space_quote. rewrite find_from_after by done.
      destruct (find_from _ rest _) as [j|] eqn:E; [|by left].
      right. apply find_from_ge in E. cbn. lia.
    + unfold lastIndexOf, open_quote. rewrite find_last_from_after by done.
      destruct (find_last_from _ rest _) as [j|] eqn:E; [|by left].
      right. apply find_last_from_ge in E. cbn. lia.
Qed.

Lemma locate_end_with_tail obj tail :
  (∃ body, obj = body +:+ "}") → depth obj = 0 → brace_free tail = true →
  locate_end (obj +:+ tail) = obj.
Proof.
  intros [body ->] Hdepth Htail.
  unfold locate_end. rewrite scan_braces_app.
  rewrite scan_braces_brace_free by done.
  rewrite scan_braces_balanced by (simpl; lia).
  assert (0 < len (body +:+ "}")) as Hpos
    by (unfold len; rewrite length_app; simpl; lia).
  generalize dependent (body +:+ "}"). intros o _ Hpos.
  replace (0 + len o) with (len o) by lia.
  destruct ((0 <? len o) && (len o <? len (o +:+ tail))) eqn:E.
  - unfold substring. change (Z.to_nat 0) with 0%nat. cbn [drop].
    replace (Z.to_nat (len o - 0)) with (String.length o) by (unfold len; lia).
    destruct o; apply take_app_length.
  - apply andb_false_iff in E as [E%Z.ltb_ge|E%Z.ltb_ge]; [lia|].
    rewrite len_app in E. destruct tail; [apply app_empty_r|].
    unfold len in E. simpl in E. lia.
Qed.

Lemma clean_with_noise noise obj tail :
  brace_free noise = true → starts_with open_quote obj = true →
  (∃ body, obj = body +:+ "}") → depth obj = 0 → brace_free tail = true →
  clean (noise +:+ obj +:+ tail) = obj.
Proof.
  intros Hnoise Hstart [body Hobj] Hdepth Htail. unfold clean, trim.
  assert (∃ rest, obj = String "{" rest) as [rest Hrest].
  { destruct obj as [|c rest]; [done|]. unfold open_quote in Hstart.
    cbn [starts_with] in Hstart. apply andb_true_iff in Hstart as [Hc _].
    apply Ascii.eqb_eq in Hc as <-. by exists rest. }
  assert (trimStart (noise +:+ obj +:+ tail) = trimStart noise +:+ obj +:+ tail) as ->.
  { rewrite Hrest. cbn [String.append]. by apply trimStart_app_nonspace. }
  assert (trimEnd (trimStart noise +:+ obj +:+ tail)
          = trimStart noise +:+ obj +:+ trimEnd tail) as ->.
  { rewrite Hobj.
    assert (∀ t, trimStart noise +:+ (body +:+ "}") +:+ t
                 = (trimStart noise +:+ body) +:+ String "}" t) as Hshape
      by (intros t; by rewrite !app_assoc).
    rewrite !Hshape. by apply trimEnd_app_nonspace. }
  pose proof (brace_free_trimEnd _ Htail) as Htail'.
  pose proof (brace_free_trimStart _ Hnoise) as Hnoise'.
  assert (starts_with open_quote (obj +:+ trimEnd tail) = true) as Hstart'
    by (by apply starts_with_app_l).
  destruct (trimStart noise) as [|n noise'] eqn:En.
  - cbn [String.append]. rewrite locate_start_at_open_quote by done.
    apply locate_end_with_tail; [by exists body|done|done].
  - rewrite locate_start_after_noise by done.
    apply locate_end_with_tail; [by exists body|done|done].
Qed.

Lemma not_empty_app a s b : s ≠ "" → String.eqb (a +:+ s +:+ b) "" = false.
Proof.
  intros Hs. apply String.eqb_neq. intros H.
  apply (f_equal String.length) in H. rewrite !length_app in H.
  destruct s; [done|]. simpl in H. lia.
Qed.

(** X24. Text before the first object is dropped like text after it.
    For a text that begins with an opening brace and a double quote and
    whose braces balance at its last character, any text without braces
    before it and after it is cut off before the parse, and the restore
    does what it does on the object alone. *)
Theorem restore_skips_leading_text f noise obj tail st :
  brace_free noise = true → starts_with open_quote obj = true →
  (∃ body, obj = body +:+ "}") → depth obj = 0 → brace_free tail = true →
  clean (noise +:+ obj +:+ tail) = obj ∧
  restoreFromBackup f (noise +:+ obj +:+ tail) st = restoreFromBackup f obj st.
Proof.
  intros Hnoise Hstart Hbody Hdepth Htail.
  pose proof (clean_with_noise noise obj tail Hnoise Hstart Hbody Hdepth Htail) as Hclean.
  pose proof (clean_with_noise "" obj "" eq_refl Hstart Hbody Hdepth eq_refl) as Hclean'.
  cbn [String.append] in Hclean'. rewrite app_empty_r in Hclean'.
  split; [done|]. unfold restoreFromBackup.
  assert (obj ≠ "") as Hne by (by destruct obj).
  rewrite not_empty_app by done. apply String.eqb_neq in Hne. rewrite Hne.
  by rewrite Hclean, Hclean'.
Qed.

Lemma restore_skips_leading_text_witness :
  restoreFromBackup no_faults ("backup of Monday: " +:+ backup_a1 +:+ " (end)") old_storage
  = restoreFromBackup no_faults backup_a1 old_storage.
Proof.
  apply (restore_skips_leading_text no_faults "backup of Monday: " backup_a1 " (end)"
           old_storage); try reflexivity.
  by exists ("{" +:+ quoted "a" +:+ ":1").
Defined.

Lemma stringify_object_shape props :
  props ≠ [] →
  starts_with open_quote (stringify (JObj props)) = true ∧
  ∃ body, stringify (JObj props) = body +:+ "}".
Proof.
  intros Hprops. split.
  - cbn [stringify]. destruct props as [|[k x] props']; [done|].
    cbn [map]. destruct (map _ props'); reflexivity.
  - exists ("{" +:+ String.concat "," (map member props)).
    cbn [stringify]. by rewrite app_assoc.
Qed.

(** The restore of the text of an object, whatever text without braces
    surrounds it. *)
Lemma restore_of_object_text f props noise tail st :
  props ≠ [] → well_formed (JObj props) = true → depth (stringify (JObj props)) = 0 →
  brace_free noise = true → brace_free tail = true →
  restoreFromBackup f (noise +:+ stringify (JObj props) +:+ tail) st
  = Finished (store_parsed f (JObj props) st).
Proof.
  intros Hprops Hwf Hdepth Hnoise Htail.
  destruct (stringify_object_shape props Hprops) as [Hstart Hbody].
  unfold restoreFromBackup. rewrite not_empty_app; cycle 1.
  { intros H. by rewrite H in Hstart. }
  rewrite clean_with_noise by done. unfold parse_backup.
  by rewrite JSON_parse_stringify.
Qed.



(** X26. The keys of a wrapper are dropped.  When the parsed backup holds
    an object under [data] (which itself holds no object or array under
    [data]), the restore stores the properties of that object and nothing
    else: the other properties of the wrapper, such as [version] and
    [timestamp], are not written. *)
Theorem wrapper_keys_are_dropped f outer props st :
  obj_get "data" outer = Some (JObj props) → nested_data (JObj props) = None →
  store_parsed f (JObj outer) st = store_parsed f (JObj props) st ∧
  (well_formed (JObj outer) = true → depth (stringify (JObj outer)) = 0 →
   restoreFromBackup f (stringify (JObj outer)) st
   = Finished (store_parsed f (JObj props) st)).
Proof.
  intros Hdata Hnested.
  assert (store_parsed f (JObj outer) st = store_parsed f (JObj props) st) as Hsame.
  { unfold store_parsed. rewrite (normalize_nested outer (JObj props)) by done.
    unfold normalize. by rewrite Hnested. }
  split; [done|]. intros Hwf Hdepth. rewrite <-Hsame.
  rewrite <-(app_empty_r (stringify (JObj outer))).
  apply (restore_of_object_text f outer "" ""); try done.
  by destruct outer.
Qed.

Lemma wrapper_keys_are_dropped_witness :
  store_parsed no_faults
    (JObj [("version", JStr "1.0"); ("data", JObj [("app_settings", JObj [])])])
    old_storage
  = (Returned true, {[ "app_settings" := "{}" ]}).
Proof.
  rewrite (proj1 (wrapper_keys_are_dropped no_faults
                    [("version", JStr "1.0"); ("data", JObj [("app_settings", JObj [])])]
                    [("app_settings", JObj [])] old_storage eq_refl eq_refl)).
  vm_compute. reflexivity.
Defined.

(** *** What [createBackup] writes *)

(** The pairs that get a property in the backup. *)
Abbreviation kept := (λ kv : string * string, kv.2 ≠ "" ∧ kv.1 ≠ "__proto__").

Lemma fold_backup_pair_stuck kvs : fold_left backup_pair kvs NotModelled = NotModelled.
Proof.
  induction kvs as [|[key value] kvs IH]; [done|]. cbn [fold_left].
  assert (backup_pair NotModelled (key, value) = NotModelled) as ->; [|done].
  unfold backup_pair, backup_assign. destruct (String.eqb value ""); [done|].
  by destruct (JSON_parse value).
Qed.

Lemma backed_up_well_formed value : well_formed (backed_up value) = true.
Proof.
  unfold backed_up. destruct (JSON_parse value) eqn:E; try done.
  by apply JSON_parse_well_formed in E.
Qed.

Lemma backup_pair_step acc key value :
  backup_pair (Finished acc) (key, value)
  = if String.eqb value "" then Finished acc
    else match JSON_parse value with
         | Unmodelled => NotModelled
         | _ => Finished (if String.eqb key "__proto__" then acc
                          else obj_set key (backed_up value) acc)
         end.
Proof.
  unfold backup_pair, backed_up, backup_assign.
  destruct (String.eqb value ""); [done|]. by destruct (JSON_parse value).
Qed.

(** The properties of the backup object: one for each pair that is kept,
    in the order an object keeps them. *)
Lemma fold_backup_pair_any kvs : ∀ acc props,
  NoDup (map fst acc ++ map fst kvs) → well_formed (JObj acc) = true →
  fold_left backup_pair kvs (Finished acc) = Finished props →
  props ≡ₚ acc ++ map backed_pair (filter kept kvs) ∧ well_formed (JObj props) = true.
Proof.
  induction kvs as [|[key value] kvs IH]; intros acc props Hnd Hwf Hfold.
  - cbn in Hfold. injection Hfold as <-. by rewrite app_nil_r.
  - cbn [fold_left] in Hfold. rewrite backup_pair_step in Hfold.
    assert (key ∉ map fst acc) as Hfresh.
    { cbn [map fst] in Hnd. apply NoDup_app in Hnd as (_ & Hnd & _). intros Hin.
      apply (Hnd key Hin). by left. }
    assert (NoDup (map fst acc ++ map fst kvs)) as Hnd'.
    { cbn [map fst] in Hnd. apply NoDup_app in Hnd as (H1 & H2 & [_ H3]%NoDup_cons).
      apply NoDup_app. split; [done|]. split; [|done].
      intros x Hx Hin. apply (H2 x Hx). by right. }
    destruct (String.eqb_spec value "") as [->|Hv].
    { rewrite filter_cons_False by (by intros [? _]). by apply IH. }
    destruct (JSON_parse value) as [x| |] eqn:Eparse;
      [| |by rewrite fold_backup_pair_stuck in Hfold].
    all: destruct (String.eqb_spec key "__proto__") as [->|Hk];
      [rewrite filter_cons_False by (by intros [_ ?]); by apply IH|].
    all: rewrite filter_cons_True by done; cbn [map fst snd].
    all: apply IH in Hfold as [Hperm Hwf'];
      [split; [|done]; rewrite Hperm, obj_set_perm by done;
       by rewrite <-Permutation_middle
      | rewrite (fmap_Permutation fst _ _ (obj_set_perm key _ acc Hfresh));
        cbn [map fst] in *; by rewrite <-Permutation_middle in Hnd
      | apply obj_set_well_formed; [apply backed_up_well_formed | done]].
Qed.

(** [createBackup] is modelled for the key-spaces whose values the model
    of [JSON.parse] covers. *)
Lemma fold_backup_pair_finishes kvs : ∀ acc,
  (∃ props, fold_left backup_pair kvs (Finished acc) = Finished props) ↔
  Forall (λ kv : string * string, JSON_parse kv.2 ≠ Unmodelled) kvs.
Proof.
  induction kvs as [|[key value] kvs IH]; intros acc.
  - split; [done | by exists acc].
  - cbn [fold_left]. rewrite backup_pair_step, Forall_cons. cbn [snd].
    destruct (String.eqb_spec value "") as [->|Hv].
    { rewrite IH. split; [by intros ? | by intros [_ ?]]. }
    destruct (JSON_parse value) as [x| |].
    + rewrite IH. split; [by intros ? | by intros [_ ?]].
    + rewrite IH. split; [by intros ? | by intros [_ ?]].
    + rewrite fold_backup_pair_stuck. split; [by intros [? ?] | by intros [? _]].
Qed.

(** X27. A backup is a valid JSON text.  [createBackup] is modelled for
    exactly the key-spaces whose values the model of [JSON.parse] covers;
    for these, the text it returns is the text of an object that
    [JSON.parse] reads back as it was written; that object has one
    property for each key other than [__proto__] with a value that is not
    empty, and none for the others; its value is the parsed value when the
    stored text parses, and the stored text as a string when it does not.
    For a key-space without any value that is not empty the backup is
    [{}], which no restore accepts: it throws after having cleared the
    key-space. *)
Theorem backup_is_valid_json st :
  ((∃ text, createBackup st = Finished text) ↔
   ∀ k value, st !! k = Some value → JSON_parse value ≠ Unmodelled) ∧
  (∀ text, createBackup st = Finished text →
     ∃ props, text = stringify (JObj props) ∧ JSON_parse text = Ok (JObj props) ∧
              ∀ k x, (k, x) ∈ props ↔
                     k ≠ "__proto__" ∧
                     ∃ value, st !! k = Some value ∧ value ≠ "" ∧ x = backed_up value) ∧
  (map_Forall (λ _ value, value = "") st → createBackup st = Finished "{}") ∧
  (∀ f before, restoreFromBackup f "{}" before
               = Finished (Threw NoDataError, clear_existing f before)).
Proof.
  split; [|split; [|split]].
  - unfold createBackup, backup_of.
    assert ((∀ k value, st !! k = Some value → JSON_parse value ≠ Unmodelled) ↔
            Forall (λ kv : string * string, JSON_parse kv.2 ≠ Unmodelled) (map_to_list st))
      as ->.
    { rewrite Forall_forall. split.
      - intros H [k value] Hin%elem_of_map_to_list. by apply (H k).
      - intros H k value Hin%elem_of_map_to_list. by apply (H (k, value)). }
    rewrite <-(fold_backup_pair_finishes (map_to_list st) []).
    destruct (fold_left backup_pair (map_to_list st) (Finished [])) as [props|].
    + split; [by exists props | by exists (stringify (JObj props))].
    + split; [by intros [? ?] | by intros [? ?]].
  - intros text. unfold createBackup, backup_of.
    destruct (fold_left backup_pair (map_to_list st) (Finished [])) as [props|] eqn:Efold;
      [|done].
    intros Htext. assert (text = stringify (JObj props)) as -> by congruence.
    clear Htext. exists props.
    pose proof (NoDup_fst_map_to_list st) as Hnd.
    apply fold_backup_pair_any in Efold as [Hperm Hwf]; [|done..]. cbn [app] in *.
    split; [done|]. split; [by apply JSON_parse_stringify|].
    intros k x. rewrite Hperm, list_elem_of_fmap. split.
    + intros ([k' value] & [= -> ->] & [[Hv Hk] Hin]%list_elem_of_filter).
      cbn [fst snd] in *. split; [done|].
      exists value. by apply elem_of_map_to_list in Hin.
    + intros (Hk & value & Hlookup%elem_of_map_to_list & Hv & ->).
      exists (k, value). split; [done|]. by apply list_elem_of_filter.
  - intros Hempty. unfold createBackup, backup_of. apply map_Forall_to_list in Hempty.
    assert (∀ kvs acc, Forall (λ kv : string * string, kv.2 = "") kvs →
                       fold_left backup_pair kvs (Finished acc) = Finished acc) as Hfold.
    { induction kvs as [|[k v] kvs IH]; intros acc Hall; [done|].
      apply Forall_cons in Hall as [Hv Hall]. cbn [snd] in Hv. subst v.
      cbn [fold_left backup_pair]. by apply IH. }
    rewrite Hfold; [done|]. eapply Forall_impl; [exact Hempty|]. by intros [k v].
  - intros f before. vm_compute. by destruct (clear_fails f).
Qed.

(** The backup of a key-space with a device list, an empty value and a
    value under [__proto__] holds the device list only. *)
Lemma backup_is_valid_json_witness :
  ∃ text props,
    createBackup proto_storage = Finished text ∧ JSON_parse text = Ok (JObj props) ∧
    ("gsm_devices", backed_up devices_text) ∈ props ∧ ¬ ∃ x, ("__proto__", x) ∈ props.
Proof.
  destruct (backup_is_valid_json proto_storage) as ([_ Hfinishes] & Hvalid & _).
  destruct Hfinishes as [text Htext].
  { intros k value Hin%elem_of_map_to_list.
    change (map_to_list proto_storage)
      with [("__proto__", "x"); ("gsm_devices", devices_text); ("unused", "")] in Hin.
    repeat (apply elem_of_cons in Hin as [[= -> ->]|Hin]; [by vm_compute|]).
    by apply elem_of_nil in Hin. }
  destruct (Hvalid text Htext) as (props & _ & Hparse & Hmembers).
  exists text, props. split; [done|]. split; [done|]. split.
  - apply Hmembers. split; [done|]. exists devices_text.
    split; [vm_compute; reflexivity|]. split; [|reflexivity].
    intros H. vm_compute in H. discriminate H.
  - intros [x [Hproto _]%Hmembers]. exact (Hproto eq_refl).
Defined.

(** *** Backup followed by a restore in which some writes fail *)



End RestoreMoreFacts.

(** ** Backup files and identifiers *)
Module FilesFacts.
Import JS JSFacts Text TextFacts Json Backup BackupFiles.

Lemma split_first_app sep date rest :
  all_chars (λ c, negb (Ascii.eqb c sep)) date = true →
  split_first sep (date +:+ String sep rest) = date.
Proof.
  induction date as [|c date IH]; cbn [String.append split_first all_chars].
  - by rewrite Ascii.eqb_refl.
  - intros [Hc Hdate]%andb_true_iff. apply negb_true_iff in Hc. by rewrite Hc, IH.
Qed.

Lemma filePath_starts documentDirectory iso :
  ∃ c u, filePath documentDirectory iso = String c u.
Proof.
  unfold filePath, fileName. destruct (default "null" documentDirectory) as [|c u].
  - by eexists _, _.
  - by exists c, (u +:+ "gsm-opener-backup-" +:+ split_first "T" iso +:+ ".json").
Qed.

Section Files.
Variable write_error : string → option string.
Variable read_error : string → string.
Variable isSharingAvailable : outcome bool.
Variable shareAsync : string → outcome unit.

Abbreviation saveBackupToFile := (saveBackupToFile write_error).
Abbreviation shareBackup := (shareBackup write_error isSharingAvailable shareAsync).
Abbreviation pickAndRestoreBackup := (pickAndRestoreBackup read_error).

(** X28. The backups of one day share one file.  The file is named after
    the date of the time stamp, the text before its [T]: a backup saved
    later on the same day goes to the same path and replaces the earlier
    one.  When the file cannot be written the error is thrown and the
    files are left as they were; when sharing is not available,
    [shareBackup] throws after the file has been written. *)
Theorem backups_of_a_day_share_a_file documentDirectory date time st backupData fs :
  all_chars (λ c, negb (Ascii.eqb c "T")) date = true →
  createBackup st = Finished backupData →
  let path := default "null" documentDirectory +:+ "gsm-opener-backup-" +:+ date
                +:+ ".json" in
  (write_error path = None →
   saveBackupToFile documentDirectory (date +:+ String "T" time) st fs
   = Finished (Returned path, <[path := backupData]> fs) ∧
   ∀ time' st' backupData',
     createBackup st' = Finished backupData' →
     saveBackupToFile documentDirectory (date +:+ String "T" time') st'
       (<[path := backupData]> fs)
     = Finished (Returned path, <[path := backupData']> fs)) ∧
  (∀ e, write_error path = Some e →
        saveBackupToFile documentDirectory (date +:+ String "T" time) st fs
        = Finished (Threw e, fs)) ∧
  (write_error path = None → isSharingAvailable = Returned false →
   shareBackup documentDirectory (date +:+ String "T" time) st fs
   = Finished (Threw SharingUnavailableError, <[path := backupData]> fs, [])).
Proof.
  intros Hdate Hbackup path.
  assert (∀ t, filePath documentDirectory (date +:+ String "T" t) = path) as Hpath.
  { intros t. unfold filePath, fileName. by rewrite split_first_app. }
  split; [|split].
  - intros Hwrite. split.
    + unfold BackupFiles.saveBackupToFile, writeAsStringAsync.
      by rewrite Hbackup, Hpath, Hwrite.
    + intros time' st' backupData' Hbackup'.
      unfold BackupFiles.saveBackupToFile, writeAsStringAsync.
      by rewrite Hbackup', Hpath, Hwrite, insert_insert_eq.
  - intros e Hwrite. unfold BackupFiles.saveBackupToFile, writeAsStringAsync.
    by rewrite Hbackup, Hpath, Hwrite.
  - intros Hwrite Hshare.
    unfold BackupFiles.shareBackup, BackupFiles.saveBackupToFile, writeAsStringAsync.
    by rewrite Hbackup, Hpath, Hwrite, Hshare.
Qed.

(** X29. Picking a backup file.  A cancelled pick returns false and
    leaves the key-space alone; a pick without a usable address throws
    before anything is read; a missing file throws the error of the read;
    and in each of these cases the key-space is left as it was.
    Otherwise the content of the file is restored, whether the address
    comes with the first asset or, when that is missing or empty, with the
    result itself: the file that [saveBackupToFile] wrote is restored as
    the text [createBackup] returned. *)
Theorem picked_backup_is_restored f fs st result :
  (canceled result = true →
   pickAndRestoreBackup (Returned result) f fs st = Finished (Returned false, st)) ∧
  (canceled result = false → fileUri result = None ∨ fileUri result = Some "" →
   pickAndRestoreBackup (Returned result) f fs st = Finished (Threw NoFileUriError, st)) ∧
  (∀ c u, canceled result = false → fileUri result = Some (String c u) →
     pickAndRestoreBackup (Returned result) f fs st
     = match fs !! String c u with
       | Some fileContent => restoreFromBackup f fileContent st
       | None => Finished (Threw (read_error (String c u)), st)
       end) ∧
  (∀ documentDirectory iso st0 fs0 path,
     saveBackupToFile documentDirectory iso st0 fs0 = Finished (Returned path, fs) →
     ∃ backupData,
       createBackup st0 = Finished backupData ∧
       pickAndRestoreBackup
         (Returned {| canceled := false; assets := Some [path]; uri := None |}) f fs st
       = restoreFromBackup f backupData st ∧
       pickAndRestoreBackup
         (Returned {| canceled := false; assets := None; uri := Some path |}) f fs st
       = restoreFromBackup f backupData st ∧
       pickAndRestoreBackup
         (Returned {| canceled := false; assets := Some [""]; uri := Some path |}) f fs st
       = restoreFromBackup f backupData st).
Proof.
  unfold BackupFiles.pickAndRestoreBackup. repeat split.
  - by intros ->.
  - intros -> [->| ->]; done.
  - intros c u -> ->. unfold readAsStringAsync.
    by destruct (fs !! String c u).
  - intros documentDirectory iso st0 fs0 path.
    unfold BackupFiles.saveBackupToFile, writeAsStringAsync.
    destruct (createBackup st0) as [backupData|]; [|done].
    destruct (write_error _); [done|]. intros [= <- <-].
    exists backupData. split; [done|].
    destruct (filePath_starts documentDirectory iso) as (c & u & ->).
    cbn [canceled fileUri assets uri]. unfold readAsStringAsync.
    by rewrite lookup_insert_eq.
Qed.
End Files.

Lemma backups_of_a_day_share_a_file_witness :
  BackupFiles.saveBackupToFile (λ _, None) (Some "file:///documents/")
    "2025-03-09T18:45:00.000Z" old_storage
    {[ "file:///documents/gsm-opener-backup-2025-03-09.json" := "{}" ]}
  = Finished (Returned "file:///documents/gsm-opener-backup-2025-03-09.json",
      {[ "file:///documents/gsm-opener-backup-2025-03-09.json"
           := "{" +:+ quoted "old" +:+ ":" +:+ quoted "x" +:+ "}" ]}).
Proof.
  pose proof (backups_of_a_day_share_a_file (λ _, None) (Returned true)
                (λ _, Returned ()) (Some "file:///documents/") "2025-03-09"
                "08:00:00.000Z" ∅ "{}" ∅ eq_refl eq_refl) as [H _].
  destruct (H eq_refl) as [_ H'].
  exact (H' "18:45:00.000Z" old_storage
            ("{" +:+ quoted "old" +:+ ":" +:+ quoted "x" +:+ "}") eq_refl).
Defined.

(** *** [generateSimpleUUID] *)

Lemma hex_digit_is_hex k : (k < 16)%nat → is_hex (hex_digit (N.of_nat k)) = true.
Proof. intros Hk. do 16 (destruct k as [|k]; [reflexivity|]). lia. Qed.

Lemma toString16_hex r :
  0 ≤ r < 16 → ∃ c, toString16 r = String c "" ∧ is_hex c = true.
Proof.
  intros Hr. exists (hex_digit (Z.to_N r)). split; [done|].
  rewrite <-Z_nat_N. apply hex_digit_is_hex. lia.
Qed.

Lemma variant_digit r :
  0 ≤ r < 16 →
  toString16 (Z.lor (Z.land r 3) 8) = "8" ∨ toString16 (Z.lor (Z.land r 3) 8) = "9" ∨
  toString16 (Z.lor (Z.land r 3) 8) = "a" ∨ toString16 (Z.lor (Z.land r 3) 8) = "b".
Proof.
  intros Hr.
  assert (r = 0 ∨ r = 1 ∨ r = 2 ∨ r = 3 ∨ r = 4 ∨ r = 5 ∨ r = 6 ∨ r = 7 ∨ r = 8 ∨
          r = 9 ∨ r = 10 ∨ r = 11 ∨ r = 12 ∨ r = 13 ∨ r = 14 ∨ r = 15) as H by lia.
  repeat (destruct H as [->|H]; [vm_compute; tauto|]). subst r. vm_compute. tauto.
Qed.

(** X30. The identifiers [generateSimpleUUID] makes have the shape of a
    version 4 UUID.  Whatever the random numbers, the identifier is 36
    characters long, made of lower-case hexadecimal digits and of hyphens
    at the offsets 8, 13, 18 and 23; the character at offset 14 is [4],
    and the one at offset 19 is one of [8], [9], [a] and [b]. *)
Theorem uuid_has_version_4_shape random :
  (∀ i, 0 ≤ random i < 16) →
  let id := generateSimpleUUID random in
  String.length id = 36%nat ∧
  all_chars (λ c, is_hex c || Ascii.eqb c "-") id = true ∧
  take 1 (drop 8 id) = "-" ∧ take 1 (drop 13 id) = "-" ∧
  take 1 (drop 18 id) = "-" ∧ take 1 (drop 23 id) = "-" ∧
  take 1 (drop 14 id) = "4" ∧
  (take 1 (drop 19 id) = "8" ∨ take 1 (drop 19 id) = "9" ∨
   take 1 (drop 19 id) = "a" ∨ take 1 (drop 19 id) = "b").
Proof.
  intros Hrandom id. unfold id, generateSimpleUUID, template.
  cbn -[toString16 Z.lor Z.land].
  pose proof (variant_digit (random 15%nat) (Hrandom _)) as Hvariant.
  repeat match goal with
         | |- context [toString16 (random ?i)] =>
             let c := fresh "c" in let Hc := fresh "Hc" in let E := fresh "E" in
             destruct (toString16_hex (random i) (Hrandom i)) as (c & E & Hc);
             rewrite E; clear E
         end.
  destruct Hvariant as [-> | [-> | [-> | -> ]]]; cbn [String.append String.length all_chars take drop];
    repeat match goal with H : is_hex _ = true |- _ => rewrite H; clear H end;
    repeat split; tauto.
Qed.

Lemma uuid_has_version_4_shape_witness :
  generateSimpleUUID (λ i, Z.of_nat (i mod 16)) = "01234567-89ab-4cde-b012-3456789abcde" ∧
  String.length (generateSimpleUUID (λ i, Z.of_nat (i mod 16))) = 36%nat.
Proof.
  split; [reflexivity|].
  apply (uuid_has_version_4_shape (λ i, Z.of_nat (i mod 16))).
  intros i. pose proof (Nat.mod_upper_bound i 16). lia.
Defined.

End FilesFacts.

(** ** Restore: the texts that the two searches leave whole *)
Module WholeFacts.
Import JS JSFacts ClassifierFacts Text TextFacts Json JsonFacts JsonWfFacts Backup RestoreFacts
  LocateFacts RoundTripFacts Items RestoreMoreFacts.

Lemma find_from_none p s i : ¬ contains p s → find_from p s i = None.
Proof.
  intros Hno. destruct (find_from p s i) as [j|] eqn:E; [|done].
  by apply find_from_contains in E.
Qed.

Lemma find_last_from_contains p s : ∀ i j, find_last_from p s i = Some j → contains p s.
Proof.
  induction s as [|c s IH]; intros i j; cbn [find_last_from].
  - destruct (starts_with p "") eqn:E; [|done]. intros _.
    apply starts_with_spec in E as [t Ht]. exists "", t. exact Ht.
  - destruct (find_last_from p s (i + 1)) as [j'|] eqn:E.
    + intros _. apply contains_cons. by eapply IH.
    + destruct (starts_with p (String c s)) eqn:Es; [|done]. intros _.
      apply starts_with_spec in Es as [t Ht]. exists "", t. exact Ht.
Qed.

Lemma find_last_from_none p s i : ¬ contains p s → find_last_from p s i = None.
Proof.
  intros Hno. destruct (find_last_from p s i) as [j|] eqn:E; [|done].
  by apply find_last_from_contains in E.
Qed.

Lemma find_from_here p s : starts_with p s = true → indexOf p s = 0.
Proof. intros H. unfold indexOf. destruct s; cbn [find_from]; by rewrite H. Qed.

Lemma fold_left_min_le_elem l : ∀ a x, x ∈ a :: l → fold_left Z.min l a ≤ x.
Proof.
  induction l as [|b l IH]; intros a x Hin.
  - apply list_elem_of_singleton in Hin. subst x. cbn. lia.
  - cbn [fold_left]. pose proof (fold_left_min_le l (Z.min a b)) as Hle.
    apply elem_of_cons in Hin as [Heq|Hin]; [subst x; lia|].
    apply elem_of_cons in Hin as [Heq|Hin]; [subst x; lia|].
    apply IH. by right.
Qed.

(** The search for the start cuts nothing when an opener is found at
    offset 0, and when none is found. *)
Lemma locate_start_whole content :
  begins_with_opener content ∨ holds_no_opener content → locate_start content = content.
Proof.
  intros [Hopen|(H1 & H2 & H3)]; unfold locate_start.
  - set (options := [indexOf open_quote content; indexOf open_newline_quote content;
                     indexOf open_space_quote content; lastIndexOf open_quote content]).
    assert (0 ∈ filter (λ pos, 0 ≤ pos) options) as Hin.
    { apply list_elem_of_filter. split; [lia|]. unfold options.
      destruct Hopen as [H|[H|H]]; rewrite (find_from_here _ _ H).
      - by left.
      - right. by left.
      - do 2 right. by left. }
    destruct (filter (λ pos, 0 ≤ pos) options) as [|pos rest].
    + by apply elem_of_nil in Hin.
    + apply fold_left_min_le_elem in Hin.
      destruct (Z.ltb_spec 0 (fold_left Z.min rest pos)); [lia | done].
  - unfold indexOf, lastIndexOf.
    by rewrite !find_from_none, find_last_from_none.
Qed.

Lemma trimEnd_prefix t : ∃ ws, t = trimEnd t +:+ ws.
Proof.
  induction t as [|c t [ws IH]]; [by exists ""|]. cbn [trimEnd].
  destruct (trimEnd t) as [|x r] eqn:E.
  - cbn [String.append] in IH. subst ws. destruct (is_space c).
    + by exists (String c t).
    + by exists t.
  - exists ws. cbn [String.append] in *. by f_equal.
Qed.

Lemma contains_app_r p s t : contains p s → contains p (s +:+ t).
Proof.
  intros (pre & post & ->). exists pre, (post +:+ t). by rewrite !app_assoc.
Qed.

Lemma closes_at_zero_app c s t p : closes_at_zero c s p → closes_at_zero c (s +:+ t) p.
Proof.
  intros (pre & post & -> & -> & Hd). exists pre, (post +:+ t).
  split; [by rewrite app_assoc|]. done.
Qed.

Lemma trim_object inner tail :
  trim ("{" +:+ inner +:+ "}" +:+ tail) = "{" +:+ inner +:+ "}" +:+ trimEnd tail.
Proof.
  unfold trim. cbn [String.append trimStart]. change (is_space "{") with false.
  cbv iota.
  change (String "{" (inner +:+ String "}" ?t)) with (String "{" inner +:+ String "}" t).
  by rewrite trimEnd_app_nonspace.
Qed.

(** The search for the end cuts after the object when no closing brace of
    the tail brings the count back to zero. *)
Lemma locate_end_cut obj tail :
  (∃ body, obj = body +:+ "}") → depth obj = 0 → (∀ p, ¬ closes_at_zero 0 tail p) →
  locate_end (obj +:+ tail) = obj.
Proof.
  intros [body ->] Hdepth Htail.
  unfold locate_end. rewrite scan_braces_app.
  rewrite (scan_braces_balanced body 0 0 0) by (simpl; lia).
  assert (scan_braces tail (0 + len (body +:+ "}")) (0 + depth (body +:+ "}"))
            (0 + len (body +:+ "}")) = len (body +:+ "}")) as ->.
  { rewrite Hdepth.
    destruct (scan_braces_spec tail (0 + len (body +:+ "}")) (0 + 0)
                (0 + len (body +:+ "}"))) as [[-> _]|(p & _ & Hp & _)]; [lia|].
    by destruct (Htail p). }
  assert (0 < len (body +:+ "}")) as Hpos
    by (unfold len; rewrite length_app; simpl; lia).
  generalize dependent (body +:+ "}"). intros o _ Hpos.
  destruct ((0 <? len o) && (len o <? len (o +:+ tail))) eqn:E.
  - unfold substring. change (Z.to_nat 0) with 0%nat. cbn [drop].
    replace (Z.to_nat (len o - 0)) with (String.length o) by (unfold len; lia).
    destruct o; apply take_app_length.
  - apply andb_false_iff in E as [E%Z.ltb_ge|E%Z.ltb_ge]; [lia|].
    rewrite len_app in E. destruct tail; [apply app_empty_r|].
    unfold len in E. simpl in E. lia.
Qed.

(** The search for the end cuts nothing from a text that ends with a
    closing brace and [keeps_whole]. *)
Lemma locate_end_whole text :
  (∃ body, text = body +:+ "}") → keeps_whole text → locate_end text = text.
Proof.
  intros Hend [Hdepth|Hnone].
  - rewrite <-(app_empty_r text) at 1. apply locate_end_cut; [done..|].
    apply closes_at_zero_nil.
  - unfold locate_end.
    destruct (scan_braces_spec text 0 0 0) as [[-> _]|(p & _ & Hp & _)]; [done|].
    by destruct (Hnone p).
Qed.

(** [keeps_whole] says no more than that: a text that ends with a closing
    brace and is left whole passes it. *)
Lemma locate_end_whole_inv text : locate_end text = text → keeps_whole text.
Proof.
  unfold locate_end, keeps_whole.
  destruct (scan_braces_spec text 0 0 0) as [[-> Hnone]|(p & -> & Hp & _)];
    [by right|].
  destruct Hp as (pre & post & -> & -> & Hd). rewrite !Z.add_0_l.
  assert (len (pre +:+ String "}" post) = Z.of_nat (S (String.length pre))
                                          + len post) as Hlen.
  { unfold len. rewrite length_app. cbn [String.length]. lia. }
  destruct post as [|c post].
  - intros _. left. exact Hd.
  - assert ((0 <? Z.of_nat (S (String.length pre))) = true) as -> by (apply Z.ltb_lt; lia).
    assert ((Z.of_nat (S (String.length pre)) <? len (pre +:+ String "}" (String c post)))
            = true) as ->.
    { apply Z.ltb_lt. rewrite Hlen. unfold len. cbn [String.length]. lia. }
    cbn [andb]. intros H. apply (f_equal String.length) in H.
    unfold substring in H. change (Z.to_nat 0) with 0%nat in H. cbn [drop] in H.
    rewrite length_take, length_app in H. cbn [String.length] in H. lia.
Qed.

Lemma keeps_whole_scan text : scan_braces text 0 0 0 = 0 → ∀ p, ¬ closes_at_zero 0 text p.
Proof.
  intros Hscan.
  destruct (scan_braces_spec text 0 0 0) as [[_ Hnone]|(p & Hp & Hclose & _)]; [done|].
  destruct Hclose as (pre & post & _ & -> & _). lia.
Qed.

Lemma obj_get_of_member k v props :
  NoDup (map fst props) → (k, v) ∈ props → obj_get k props = Some v.
Proof.
  induction props as [|[k' v'] props IH]; [by intros _ ?%elem_of_nil|].
  cbn [map fst obj_get]. intros [Hfresh Hnd]%NoDup_cons [[= <- <-]|Hin]%elem_of_cons.
  - by rewrite String.eqb_refl.
  - destruct (String.eqb_spec k' k) as [->|_]; [|by apply IH].
    destruct Hfresh. apply list_elem_of_fmap. by exists (k, v).
Qed.

Lemma obj_get_none k props : obj_get k props = None → ∀ v, (k, v) ∉ props.
Proof.
  induction props as [|[k' v'] props IH]; [by intros _ v ?%elem_of_nil|].
  cbn [obj_get]. destruct (String.eqb_spec k' k) as [->|Hne]; [done|].
  intros H v [[= <- <-]|Hin]%elem_of_cons; [done|]. by apply (IH H v).
Qed.

(** What the restore writes when nothing fails: the properties that are
    not [null], on an emptied key-space; it succeeds when there is one. *)
Lemma store_parsed_direct props st :
  NoDup (map fst props) →
  (∀ data, obj_get "data" props = Some data → typeof_object data = false ∨ data = JNull) →
  ∃ st', store_parsed no_faults (JObj props) st
         = (match props with
            | [] => Threw NoDataError
            | _ => if forallb (λ kv, is_null kv.2) props
                   then Threw RestoreFailedError else Returned true
            end, st') ∧
         ∀ k, st' !! k = obj_get k props ≫= restored.
Proof.
  intros Hnd Hdata. unfold store_parsed. rewrite normalize_direct by done.
  cbn [entries clear_existing no_faults clear_fails].
  assert (∀ kv : string * json, written no_faults kv = negb (is_null kv.2))
    as Hwritten by (intros [k []]; reflexivity).
  destruct (save_items no_faults props ∅ 0) as [st2 successCount] eqn:Esave.
  pose proof (save_items_count no_faults props ∅ 0) as Hcount.
  pose proof (λ k, save_items_untouched no_faults props k ∅ 0) as Hsame.
  pose proof (λ k v, save_items_stored no_faults props k v ∅ 0 Hnd) as Hnew.
  rewrite Esave in Hcount, Hsame, Hnew. cbn [fst snd] in Hcount, Hsame, Hnew.
  rewrite Nat.add_0_l in Hcount.
  assert (∀ k, st2 !! k = obj_get k props ≫= restored) as Hlookup.
  { intros k. destruct (obj_get k props) as [v|] eqn:Hget; cbn.
    - apply obj_get_elem_of in Hget.
      destruct (is_null v) eqn:Hv.
      + assert (v = JNull) as -> by (by destruct v).
        rewrite Hsame; [done|]. intros v' Hv'.
        apply (obj_get_of_member _ _ _ Hnd) in Hget, Hv'.
        assert (v' = JNull) as -> by congruence. done.
      + rewrite (Hnew k v Hget); [by destruct v|].
        rewrite Hwritten. cbn [snd]. by rewrite Hv.
    - rewrite Hsame; [done|]. intros v Hv. by destruct (obj_get_none _ _ Hget v). }
  destruct props as [|kv props'] eqn:Eprops.
  { exists ∅. split; [done|]. intros k. by rewrite lookup_empty. }
  rewrite <-Eprops in *. clear kv props' Eprops. exists st2. split; [|done].
  destruct (forallb (λ kv, is_null kv.2) props) eqn:Enull.
  - assert (successCount = 0%nat) as ->; [|done].
    rewrite Hcount. destruct (filter _ props) as [|kv l] eqn:Efilter; [done|].
    assert (kv ∈ filter (λ kv, written no_faults kv = true) props) as Hin
      by (rewrite Efilter; left).
    apply list_elem_of_filter in Hin as [Hw Hin%list_elem_of_In].
    rewrite forallb_forall in Enull. rewrite Hwritten, (Enull _ Hin) in Hw. done.
  - apply forallb_false in Enull as (kv & Hin & Hkv).
    assert (kv ∈ filter (λ kv, written no_faults kv = true) props) as Hw.
    { apply list_elem_of_filter. split; [|done]. by rewrite Hwritten, Hkv. }
    destruct (filter _ props) as [|kv' l]; [by apply elem_of_nil in Hw|].
    rewrite Hcount. done.
Qed.

(** *** A text followed by a tail *)



(** *** The text of a backup *)

Lemma comes_back_inv key value :
  comes_back key value = true →
  value ≠ "" ∧ key ≠ "__proto__" ∧ JSON_parse value ≠ Unmodelled ∧
  is_null (backed_up value) = false ∧ stored (backed_up value) = value ∧
  (key = "data" → typeof_object (backed_up value) = false).
Proof.
  unfold comes_back, backed_up.
  intros [[Hv%negb_true_iff Hk%negb_true_iff]%andb_true_iff Hj]%andb_true_iff.
  apply String.eqb_neq in Hv, Hk. split; [done|]. split; [done|].
  destruct (JSON_parse value) as [x| |]; [| |done].
  - apply andb_true_iff in Hj as [Hs%String.eqb_eq Hx].
    split; [done|]. split; [by destruct x|]. split; [by destruct x|].
    intros ->. by destruct x.
  - done.
Qed.



End WholeFacts.
